(** * theKanbanSociety: team orchestration core

    A shallow embedding of the Go packages [internal/team] (PM selector,
    checkpoint gate, event bus, phase machine, mode executors) and
    [internal/tui] (Kanban board engine), with the properties of the
    design specification stated and settled on the embedding.

    Conventions.  Go [int] values are [Z]; Go [string]s are byte strings
    ([string]); a Go [error] is its message ([option string], [None]
    being [nil]); pointers to cards are addresses into an explicit heap;
    the Go maps of the board are [gmap]s. *)

From Stdlib Require Import ZArith QArith.
From stdpp Require Import base option list gmap strings pretty.

Local Open Scope Z_scope.

(** ** Go's [strings] package, as far as the code uses it *)

Module Strings.

(** [strings.HasPrefix(s, prefix)]. *)
Fixpoint HasPrefix (s prefix : string) : bool :=
  match prefix, s with
  | EmptyString, _ => true
  | String _ _, EmptyString => false
  | String p prefix', String c s' =>
      if Ascii.eqb p c then HasPrefix s' prefix' else false
  end.

(** [strings.Contains(s, substr)]: [substr] occurs at some byte offset. *)
Fixpoint Contains (s substr : string) : bool :=
  match s with
  | EmptyString => HasPrefix s substr
  | String _ s' => HasPrefix s substr || Contains s' substr
  end.

Definition is_upper (c : Ascii.ascii) : bool :=
  let n := Ascii.nat_of_ascii c in (65 <=? n)%nat && (n <=? 90)%nat.

Definition lower_byte (c : Ascii.ascii) : Ascii.ascii :=
  if is_upper c then Ascii.ascii_of_nat (Ascii.nat_of_ascii c + 32) else c.

(** [strings.ToLower] on ASCII text (the fast path of the Go
    implementation); bytes outside [A-Z] are kept. *)
Fixpoint ToLower (s : string) : string :=
  match s with
  | EmptyString => EmptyString
  | String c s' => String (lower_byte c) (ToLower s')
  end.

Definition is_space (c : Ascii.ascii) : bool :=
  let n := Ascii.nat_of_ascii c in
  ((9 <=? n)%nat && (n <=? 13)%nat) || (n =? 32)%nat.

(** [strings.Fields]: the maximal runs of non-space bytes.  [word] is
    the run being read, in order. *)
Fixpoint Fields_from (word s : string) : list string :=
  match s with
  | EmptyString => if String.eqb word "" then [] else [word]
  | String c s' =>
      if is_space c then
        if String.eqb word "" then Fields_from "" s'
        else word :: Fields_from "" s'
      else Fields_from (word +:+ String c "") s'
  end.

Definition Fields (s : string) : list string := Fields_from "" s.

End Strings.

(** A Go [error] value, by its message. *)
Definition error := string.

(** ** [internal/team/pm.go]: the PM selector *)

Module PMSelector.
Import Strings.

Record PMStrength := {
  AIID : string;
  DisplayName : string;
  Strengths : list string;
  Score : Z
}.

Definition GetPMStrengths : list PMStrength :=
  [ {| AIID := "claude"; DisplayName := "Claude";
       Strengths := ["nuanced reasoning"; "writing"; "analysis"; "ethics";
                     "explanation"; "documentation"; "architecture"; "design"];
       Score := 0 |};
    {| AIID := "gpt"; DisplayName := "GPT";
       Strengths := ["coding"; "implementation"; "debugging"; "api design";
                     "system design"; "data analysis"; "algorithms"];
       Score := 0 |};
    {| AIID := "gemini"; DisplayName := "Gemini";
       Strengths := ["research"; "multimodal"; "information synthesis";
                     "fact checking"; "summarization"; "translation"];
       Score := 0 |};
    {| AIID := "groq"; DisplayName := "Groq (Llama)";
       Strengths := ["speed"; "quick iteration"; "brainstorming";
                     "rapid prototyping"];
       Score := 0 |} ].

Definition codingKeywords : list string :=
  ["code"; "implement"; "build"; "develop"; "program"; "function"; "api";
   "debug"; "fix"].
Definition writingKeywords : list string :=
  ["write"; "document"; "explain"; "analyze"; "review"; "design";
   "architect"; "plan"].
Definition researchKeywords : list string :=
  ["research"; "find"; "search"; "compare"; "investigate"; "summarize"].
Definition quickKeywords : list string :=
  ["quick"; "fast"; "simple"; "prototype"; "brainstorm"; "iterate"].

(** One keyword loop of [getTaskTypeBonus]: the first keyword found in
    the task ends the loop ([break]); it adds 3 only for the favoured
    member. *)
Fixpoint category_bonus (task : string) (keywords : list string)
    (favoured : bool) (bonus : Z) : Z :=
  match keywords with
  | [] => bonus
  | kw :: rest =>
      if Contains task kw then (if favoured then bonus + 3 else bonus)
      else category_bonus task rest favoured bonus
  end.

Definition getTaskTypeBonus (task aiID : string) : Z :=
  let bonus := 0 in
  let bonus := category_bonus task codingKeywords (String.eqb aiID "gpt") bonus in
  let bonus := category_bonus task writingKeywords (String.eqb aiID "claude") bonus in
  let bonus := category_bonus task researchKeywords (String.eqb aiID "gemini") bonus in
  let bonus := category_bonus task quickKeywords (String.eqb aiID "groq") bonus in
  bonus.

(** The inner loop over [strings.Fields(strength)]. *)
Definition word_loop (taskLower : string) (words : list string) (score : Z) : Z :=
  fold_left (fun score word =>
               if Contains taskLower word then score + 1 else score)
            words score.

(** The loop over [pm.Strengths]. *)
Definition strength_loop (taskLower : string) (strengths : list string)
    (score : Z) : Z :=
  fold_left (fun score strength =>
               let score :=
                 if Contains taskLower strength then score + 2 else score in
               word_loop taskLower (Fields strength) score)
            strengths score.

(** The score of one candidate, as computed in the body of the main
    loop of [Select]. *)
Definition candidate_score (taskLower : string) (pm : PMStrength) : Z :=
  let score := strength_loop taskLower (Strengths pm) 0 in
  score + getTaskTypeBonus taskLower (AIID pm).

(** The availability scan: is [id] one of [availableMembers]? *)
Fixpoint is_available (availableMembers : list string) (id : string) : bool :=
  match availableMembers with
  | [] => false
  | member :: rest =>
      if String.eqb member id then true else is_available rest id
  end.

(** The main loop of [Select] over the strength table, carrying
    [(bestPM, bestScore)]. *)
Definition select_loop (taskLower : string) (availableMembers : list string)
    (strengths : list PMStrength) (best : string * Z) : string * Z :=
  fold_left (fun best pm =>
               if negb (is_available availableMembers (AIID pm)) then best
               else
                 let score := candidate_score taskLower pm in
                 if snd best <? score then (AIID pm, score) else best)
            strengths best.

(** [PMSelector.Select]: the chosen PM and the returned [error]. *)
Definition Select (task : string) (availableMembers : list string)
    : string * option error :=
  let taskLower := ToLower task in
  let strengths := GetPMStrengths in
  let '(bestPM, bestScore) :=
    select_loop taskLower availableMembers strengths ("", -1) in
  if String.eqb bestPM "" then
    if is_available availableMembers "claude" then ("claude", None)
    else
      match availableMembers with
      | first :: _ => (first, None)
      | [] => (bestPM, None)
      end
  else (bestPM, None).

End PMSelector.

(** ** [internal/team/checkpoint.go]: the approval gate *)

Module Checkpoint.

(** [CheckpointLevel] and [CheckpointType] are Go string types. *)
Definition CheckpointLevel := string.
Definition CheckpointAll : CheckpointLevel := "all".
Definition CheckpointMajor : CheckpointLevel := "major".
Definition CheckpointNone : CheckpointLevel := "none".

Definition CheckpointType := string.
Definition CheckpointPlanApproval : CheckpointType := "plan_approval".
Definition CheckpointMilestone : CheckpointType := "milestone".
Definition CheckpointReview : CheckpointType := "review".
Definition CheckpointDelivery : CheckpointType := "delivery".

(** [CheckpointManager.RequiresApproval], by the manager's level. *)
Definition RequiresApproval (level : CheckpointLevel)
    (checkpointType : CheckpointType) : bool :=
  if String.eqb level CheckpointNone then false
  else if String.eqb level CheckpointMajor then
    String.eqb checkpointType CheckpointPlanApproval
    || String.eqb checkpointType CheckpointDelivery
  else if String.eqb level CheckpointAll then true
  else true.

End Checkpoint.


(** ** [internal/team]: phases, plans and events *)

Module Team.

(** [WorkMode] is a Go string type. *)
Definition WorkMode := string.
Definition ModePairProgramming : WorkMode := "pair_programming".
Definition ModeConsultation : WorkMode := "consultation".
Definition ModeRoundRobin : WorkMode := "round_robin".
Definition ModeDivideConquer : WorkMode := "divide_conquer".
Definition ModeFreeForm : WorkMode := "free_form".

(** [Phase] is a Go [int]; [Run] also uses the value [-1]. *)
Definition Phase := Z.
Definition PhaseAnalysis : Phase := 0.
Definition PhasePlanning : Phase := 1.
Definition PhaseExecution : Phase := 2.
Definition PhaseReview : Phase := 3.
Definition PhaseDelivery : Phase := 4.
Definition PhaseComplete : Phase := 5.

Definition Phase_String (p : Phase) : string :=
  if p =? PhaseAnalysis then "Task Analysis"
  else if p =? PhasePlanning then "Planning"
  else if p =? PhaseExecution then "Execution"
  else if p =? PhaseReview then "Review"
  else if p =? PhaseDelivery then "Delivery"
  else if p =? PhaseComplete then "Complete"
  else "Unknown".

Record PlanStep := {
  StepID : string;
  StepDescription : string;
  StepAssignedTo : string;
  StepDependsOn : list string;
  StepStatus : string
}.

Record Plan := {
  Summary : string;
  Steps : list PlanStep;
  Assignments : gmap string (list string);
  EstDuration : string
}.

Inductive EventType :=
| EventPhaseChanged | EventPMSelected | EventPMDecision | EventTaskCreated
| EventTaskStarted | EventTaskProgress | EventTaskCompleted
| EventTaskMovedToReview | EventPMApproved | EventUserTaskCreated
| EventUserTaskBlocking | EventUserTaskCompleted | EventError
| EventSessionComplete.

Definition EventType_String (e : EventType) : string :=
  match e with
  | EventPhaseChanged => "PhaseChanged"
  | EventPMSelected => "PMSelected"
  | EventPMDecision => "PMDecision"
  | EventTaskCreated => "TaskCreated"
  | EventTaskStarted => "TaskStarted"
  | EventTaskProgress => "TaskProgress"
  | EventTaskCompleted => "TaskCompleted"
  | EventTaskMovedToReview => "TaskMovedToReview"
  | EventPMApproved => "PMApproved"
  | EventUserTaskCreated => "UserTaskCreated"
  | EventUserTaskBlocking => "UserTaskBlocking"
  | EventUserTaskCompleted => "UserTaskCompleted"
  | EventError => "Error"
  | EventSessionComplete => "SessionComplete"
  end.

(** The [interface{}] payload of an event: [nil], one of the payload
    structs of [events.go] (fields in declaration order), or a value of
    any other dynamic type.  [Progress] is a [float64] that the code
    only copies; it is carried as a rational. *)
Inductive EventData :=
| NilData
| TaskCreatedData (Title Description AssignedTo : string)
    (IsBlocking : bool) (DependsOn : list string)
| TaskProgressData (Content : string) (Progress : Q)
| PMDecisionData (Mode : WorkMode) (PlanSummary : string)
    (Tasks : list PlanStep)
| PhaseChangedData (OldPhase NewPhase : Phase)
| PMSelectedData (PMID DisplayName : string)
| ErrorData (Error : option error) (TaskID Message : string)
| UserTaskCompletedData (Notes : string)
| OtherData.

(** [Event]; the wall-clock [Timestamp] is left out. *)
Record Event := {
  EvType : EventType;
  TaskID : string;
  Actor : string;
  Data : EventData
}.

Definition NewEvent (eventType : EventType) (actor : string)
    (data : EventData) : Event :=
  {| EvType := eventType; TaskID := ""; Actor := actor; Data := data |}.

Definition NewTaskEvent (eventType : EventType) (taskID actor : string)
    (data : EventData) : Event :=
  {| EvType := eventType; TaskID := taskID; Actor := actor; Data := data |}.

End Team.

(** ** [internal/tui]: the Kanban board engine *)

Module Board.
Import Team.

Inductive Column := ColumnBacklog | ColumnInProgress | ColumnReview | ColumnDone.

(** The [iota] value of a column. *)
Definition column_index (c : Column) : nat :=
  match c with
  | ColumnBacklog => 0 | ColumnInProgress => 1
  | ColumnReview => 2 | ColumnDone => 3
  end%nat.

Global Instance Column_eq_dec : EqDecision Column.
Proof. solve_decision. Defined.

(** [KanbanCard]; the field [Column] is [CardColumn] here, the name
    being taken by the type. *)
Record KanbanCard := {
  ID : string;
  Title : string;
  Description : string;
  AssignedTo : string;
  CardColumn : Column;
  IsBlocking : bool;
  IsUserTask : bool;
  StreamBuf : string;
  FullHistory : string;
  Progress : Q;
  DependsOn : list string;
  BlockedBy : list string;
  Done : bool;
  Error : option error
}.

Definition NewKanbanCard (id title assignedTo : string) : KanbanCard :=
  {| ID := id; Title := title; Description := ""; AssignedTo := assignedTo;
     CardColumn := ColumnBacklog; IsBlocking := false;
     IsUserTask := String.eqb assignedTo "user";
     StreamBuf := ""; FullHistory := ""; Progress := 0%Q;
     DependsOn := []; BlockedBy := []; Done := false; Error := None |}.

(** [KanbanCard.IsBlocked]: [len(c.BlockedBy) > 0]. *)
Definition IsBlocked (c : KanbanCard) : bool :=
  (0 <? length (BlockedBy c))%nat.

(** Field assignments through a card pointer. *)
Definition set_created (c : KanbanCard) (description : string)
    (dependsOn : list string) (isBlocking isUserTask : bool) : KanbanCard :=
  {| ID := ID c; Title := Title c; Description := description;
     AssignedTo := AssignedTo c; CardColumn := CardColumn c;
     IsBlocking := isBlocking; IsUserTask := isUserTask;
     StreamBuf := StreamBuf c; FullHistory := FullHistory c;
     Progress := Progress c; DependsOn := dependsOn;
     BlockedBy := BlockedBy c; Done := Done c; Error := Error c |}.

Definition set_Column (c : KanbanCard) (col : Column) : KanbanCard :=
  {| ID := ID c; Title := Title c; Description := Description c;
     AssignedTo := AssignedTo c; CardColumn := col;
     IsBlocking := IsBlocking c; IsUserTask := IsUserTask c;
     StreamBuf := StreamBuf c; FullHistory := FullHistory c;
     Progress := Progress c; DependsOn := DependsOn c;
     BlockedBy := BlockedBy c; Done := Done c; Error := Error c |}.

Definition set_progress (c : KanbanCard) (content : string) (progress : Q)
    : KanbanCard :=
  {| ID := ID c; Title := Title c; Description := Description c;
     AssignedTo := AssignedTo c; CardColumn := CardColumn c;
     IsBlocking := IsBlocking c; IsUserTask := IsUserTask c;
     StreamBuf := StreamBuf c +:+ content;
     FullHistory := FullHistory c +:+ content;
     Progress := progress; DependsOn := DependsOn c;
     BlockedBy := BlockedBy c; Done := Done c; Error := Error c |}.

Definition set_Done (c : KanbanCard) (d : bool) : KanbanCard :=
  {| ID := ID c; Title := Title c; Description := Description c;
     AssignedTo := AssignedTo c; CardColumn := CardColumn c;
     IsBlocking := IsBlocking c; IsUserTask := IsUserTask c;
     StreamBuf := StreamBuf c; FullHistory := FullHistory c;
     Progress := Progress c; DependsOn := DependsOn c;
     BlockedBy := BlockedBy c; Done := d; Error := Error c |}.

Definition set_Error (c : KanbanCard) (e : option error) : KanbanCard :=
  {| ID := ID c; Title := Title c; Description := Description c;
     AssignedTo := AssignedTo c; CardColumn := CardColumn c;
     IsBlocking := IsBlocking c; IsUserTask := IsUserTask c;
     StreamBuf := StreamBuf c; FullHistory := FullHistory c;
     Progress := Progress c; DependsOn := DependsOn c;
     BlockedBy := BlockedBy c; Done := Done c; Error := e |}.

(** [truncateString(s, maxLen)] with byte slicing, for [0 <= maxLen]. *)
Definition truncateString (s : string) (maxLen : nat) : string :=
  if (String.length s <=? maxLen)%nat then s
  else if (maxLen <=? 3)%nat then String.substring 0 maxLen s
  else String.substring 0 (maxLen - 3) s +:+ "...".

Record DebugLogEntry := {
  LogType : string;
  LogActor : string;
  Message : string
}.

(** A [*KanbanCard]: the index of the card object in [heap]. *)
Definition addr := nat.

(** [KanbanModel], the fields read or written by event handling.  The
    card objects live in [heap]; [cards] and [columns] hold pointers
    into it, so one object can be reached from both.  A column that has
    no entry reads as the empty slice. *)
Record KanbanModel := {
  pm : string;
  pmPhase : Phase;
  workMode : WorkMode;
  planSummary : string;
  heap : list KanbanCard;
  cards : gmap string addr;
  columns : Column -> list addr;
  activeCardID : string;
  activityStatus : string;
  debugLog : list DebugLogEntry;
  complete : bool
}.

Definition NewKanbanModel : KanbanModel :=
  {| pm := ""; pmPhase := 0; workMode := ""; planSummary := "";
     heap := []; cards := ∅; columns := fun _ => [];
     activeCardID := ""; activityStatus := "Initializing...";
     debugLog := []; complete := false |}.

(** Assignments to fields of the model. *)
Definition set_board (m : KanbanModel) (h : list KanbanCard)
    (cs : gmap string addr) (cols : Column -> list addr) : KanbanModel :=
  {| pm := pm m; pmPhase := pmPhase m; workMode := workMode m;
     planSummary := planSummary m; heap := h; cards := cs; columns := cols;
     activeCardID := activeCardID m; activityStatus := activityStatus m;
     debugLog := debugLog m; complete := complete m |}.

Definition set_heap (m : KanbanModel) (h : list KanbanCard) : KanbanModel :=
  set_board m h (cards m) (columns m).

Definition set_activityStatus (m : KanbanModel) (s : string) : KanbanModel :=
  {| pm := pm m; pmPhase := pmPhase m; workMode := workMode m;
     planSummary := planSummary m; heap := heap m; cards := cards m;
     columns := columns m; activeCardID := activeCardID m;
     activityStatus := s; debugLog := debugLog m; complete := complete m |}.

Definition set_debugLog (m : KanbanModel) (l : list DebugLogEntry)
    : KanbanModel :=
  {| pm := pm m; pmPhase := pmPhase m; workMode := workMode m;
     planSummary := planSummary m; heap := heap m; cards := cards m;
     columns := columns m; activeCardID := activeCardID m;
     activityStatus := activityStatus m; debugLog := l;
     complete := complete m |}.

(** The PM header fields: [pm], [pmPhase], [workMode], [planSummary]. *)
Definition set_header (m : KanbanModel) (p : string) (ph : Phase)
    (wm : WorkMode) (ps : string) : KanbanModel :=
  {| pm := p; pmPhase := ph; workMode := wm; planSummary := ps;
     heap := heap m; cards := cards m; columns := columns m;
     activeCardID := activeCardID m; activityStatus := activityStatus m;
     debugLog := debugLog m; complete := complete m |}.

Definition set_activeCardID (m : KanbanModel) (id : string) : KanbanModel :=
  {| pm := pm m; pmPhase := pmPhase m; workMode := workMode m;
     planSummary := planSummary m; heap := heap m; cards := cards m;
     columns := columns m; activeCardID := id;
     activityStatus := activityStatus m; debugLog := debugLog m;
     complete := complete m |}.

Definition set_complete (m : KanbanModel) (b : bool) : KanbanModel :=
  {| pm := pm m; pmPhase := pmPhase m; workMode := workMode m;
     planSummary := planSummary m; heap := heap m; cards := cards m;
     columns := columns m; activeCardID := activeCardID m;
     activityStatus := activityStatus m; debugLog := debugLog m;
     complete := b |}.

(** [m.columns[col] = l]. *)
Definition set_column (cols : Column -> list addr) (col : Column)
    (l : list addr) : Column -> list addr :=
  fun c => if decide (c = col) then l else cols c.

(** [addDebugLog]: append, then keep the last 100 entries. *)
Definition addDebugLog (m : KanbanModel) (logType actor message : string)
    : KanbanModel :=
  let entry := {| LogType := logType; LogActor := actor; Message := message |} in
  let log := debugLog m ++ [entry] in
  let log :=
    if (100 <? length log)%nat then drop (length log - 100) log else log in
  set_debugLog m log.

(** The test [c != nil && c.ID != card.ID] of [moveCard]'s loop. *)
Definition other_card (h : list KanbanCard) (id : string) (a : addr) : bool :=
  match h !! a with
  | Some c => negb (String.eqb (ID c) id)
  | None => false
  end.

(** [moveCard]: an address outside the heap stands for [nil]. *)
Definition moveCard (m : KanbanModel) (card : addr) (toColumn : Column)
    : KanbanModel :=
  match heap m !! card with
  | None => m
  | Some c =>
      let oldCol := columns m (CardColumn c) in
      let newOldCol := filter (fun a => other_card (heap m) (ID c) a) oldCol in
      let cols := set_column (columns m) (CardColumn c) newOldCol in
      let h := <[card := set_Column c toColumn]> (heap m) in
      let cols := set_column cols toColumn (cols toColumn ++ [card]) in
      set_board m h (cards m) cols
  end.

(** The two card-creating cases of [handleTeamEventCopy]: allocate the
    card, store its pointer under the task id and append it to Backlog. *)
Definition create_card (m : KanbanModel) (taskID : string)
    (c : KanbanCard) : KanbanModel :=
  let a := length (heap m) in
  set_board m (heap m ++ [c]) (<[taskID := a]> (cards m))
    (set_column (columns m) ColumnBacklog (columns m ColumnBacklog ++ [a])).

(** A write through the card pointer [a]. *)
Definition update_card (m : KanbanModel) (a : addr)
    (f : KanbanCard -> KanbanCard) : KanbanModel :=
  match heap m !! a with
  | Some c => set_heap m (<[a := f c]> (heap m))
  | None => m
  end.

(** The title of the card behind a pointer read from [m.cards]. *)
Definition title_at (m : KanbanModel) (a : addr) : string :=
  match heap m !! a with Some c => Title c | None => "" end.

Definition id_at (m : KanbanModel) (a : addr) : string :=
  match heap m !! a with Some c => ID c | None => "" end.

(** [handleTeamEventCopy]. *)
Definition handleTeamEventCopy (m : KanbanModel) (event : Event)
    : KanbanModel :=
  let m := addDebugLog m "event" (Actor event)
             ("[" +:+ EventType_String (EvType event) +:+ "] " +:+ TaskID event) in
  match EvType event with
  | EventPhaseChanged =>
      match Data event with
      | PhaseChangedData oldPhase newPhase =>
          let m := set_header m (pm m) newPhase (workMode m) (planSummary m) in
          let m := set_activityStatus m ("Phase: " +:+ Phase_String newPhase) in
          addDebugLog m "phase" "system"
            ("Phase changed: " +:+ Phase_String oldPhase +:+ " → "
             +:+ Phase_String newPhase)
      | _ => m
      end
  | EventPMSelected =>
      match Data event with
      | PMSelectedData pmid _ =>
          let m := set_header m pmid (pmPhase m) (workMode m) (planSummary m) in
          let m := set_activityStatus m ("PM selected: " +:+ pmid) in
          addDebugLog m "pm" pmid "Selected as Project Manager"
      | _ => m
      end
  | EventPMDecision =>
      let m := set_header m (Actor event) (pmPhase m) (workMode m)
                 (planSummary m) in
      match Data event with
      | PMDecisionData mode summary tasks =>
          let m := set_header m (pm m) (pmPhase m) mode summary in
          let m := set_activityStatus m ("Planning: " +:+ mode +:+ " mode") in
          addDebugLog m "decision" (Actor event)
            ("Work mode: " +:+ mode +:+ ", Tasks: " +:+ pretty (length tasks))
      | _ => m
      end
  | EventTaskCreated =>
      match Data event with
      | TaskCreatedData title description assignedTo isBlocking dependsOn =>
          let card := NewKanbanCard (TaskID event) title assignedTo in
          let card := set_created card description dependsOn isBlocking
                        (String.eqb assignedTo "user") in
          let m := create_card m (TaskID event) card in
          let m := set_activityStatus m
                     ("Task created: " +:+ truncateString title 30) in
          addDebugLog m "task" assignedTo ("Created: " +:+ title)
      | _ => m
      end
  | EventTaskStarted =>
      match cards m !! TaskID event with
      | Some card =>
          let m := moveCard m card ColumnInProgress in
          let m := set_activeCardID m (id_at m card) in
          let m := set_activityStatus m
                     (Actor event +:+ " working on: "
                      +:+ truncateString (title_at m card) 20) in
          addDebugLog m "cmd" (Actor event) ("Started: " +:+ title_at m card)
      | None => m
      end
  | EventTaskProgress =>
      let m :=
        match cards m !! TaskID event with
        | Some card =>
            match Data event with
            | TaskProgressData content progress =>
                let m := update_card m card
                           (fun c => set_progress c content progress) in
                if (50 <? String.length content)%nat then
                  addDebugLog m "response" (Actor event)
                    (truncateString content 80)
                else m
            | _ => m
            end
        | None => m
        end in
      set_activityStatus m (Actor event +:+ " responding...")
  | EventTaskCompleted =>
      match cards m !! TaskID event with
      | Some card =>
          let m := update_card m card (fun c => set_Done c true) in
          let m := moveCard m card ColumnReview in
          let m := set_activityStatus m
                     (Actor event +:+ " completed: "
                      +:+ truncateString (title_at m card) 20) in
          addDebugLog m "task" (Actor event) ("Completed: " +:+ title_at m card)
      | None => m
      end
  | EventTaskMovedToReview =>
      match cards m !! TaskID event with
      | Some card =>
          let m := moveCard m card ColumnReview in
          let m := set_activityStatus m
                     ("Review: " +:+ truncateString (title_at m card) 25) in
          addDebugLog m "review" "pm" ("Moved to review: " +:+ title_at m card)
      | None => m
      end
  | EventPMApproved =>
      match cards m !! TaskID event with
      | Some card =>
          let m := moveCard m card ColumnDone in
          let m := set_activityStatus m
                     ("Approved: " +:+ truncateString (title_at m card) 25) in
          addDebugLog m "approved" "pm" ("Approved: " +:+ title_at m card)
      | None => m
      end
  | EventUserTaskCreated =>
      match Data event with
      | TaskCreatedData title description assignedTo isBlocking dependsOn =>
          let card := NewKanbanCard (TaskID event) title "user" in
          let card := set_created card description dependsOn isBlocking true in
          let m := create_card m (TaskID event) card in
          let m := set_activityStatus m
                     ("Your task: " +:+ truncateString title 25) in
          addDebugLog m "user" "pm" ("Assigned to you: " +:+ title)
      | _ => m
      end
  | EventSessionComplete =>
      let m := set_complete m true in
      let m := set_activityStatus m "Session complete!" in
      addDebugLog m "complete" "system" "Session finished successfully"
  | EventError =>
      match Data event with
      | ErrorData err taskID message =>
          let m :=
            match cards m !! taskID with
            | Some card => update_card m card (fun c => set_Error c err)
            | None => m
            end in
          let m := set_activityStatus m
                     ("Error: " +:+ truncateString message 30) in
          addDebugLog m "error" (Actor event) message
      | _ => m
      end
  | EventUserTaskBlocking | EventUserTaskCompleted => m
  end.

(** The update loop: events are handled one at a time, in the order
    they are received. *)
Definition process (events : list Event) (m : KanbanModel) : KanbanModel :=
  fold_left handleTeamEventCopy events m.

(** The column of the card registered under a task id. *)
Definition card_of (m : KanbanModel) (id : string) : option KanbanCard :=
  match cards m !! id with
  | Some a => heap m !! a
  | None => None
  end.

Definition column_of (m : KanbanModel) (id : string) : option Column :=
  CardColumn <$> card_of m id.

End Board.

(** ** The event bus: [Runner.Events] and the two [emit] methods *)

Module Bus.
Import Team.

(** The state of a Go [chan Event]: the [nil] channel, an open channel
    with its capacity and the buffered events (oldest first), or a
    closed channel with what is left in its buffer. *)
Inductive Chan :=
| NilChan
| OpenChan (capacity : nat) (buf : list Event)
| ClosedChan (capacity : nat) (buf : list Event).

(** What the send case [ch <- event] of a [select] can do at once: on
    an open channel with room (a receiver that waits on a buffered
    channel finds the buffer empty, so there is room) the event is
    buffered; on a full or [nil] channel the case is not ready; on a
    closed channel the send panics. *)
Inductive SendCase :=
| Sent (ch : Chan)
| NotReady
| SendPanics.

Definition send_case (ch : Chan) (event : Event) : SendCase :=
  match ch with
  | NilChan => NotReady
  | OpenChan capacity buf =>
      if (length buf <? capacity)%nat
      then Sent (OpenChan capacity (buf ++ [event]))
      else NotReady
  | ClosedChan _ _ => SendPanics
  end.

(** The outcome of a call of [emit]: it returns, leaving the channel in
    some state, or it panics.  There is no third outcome: a [select]
    with a [default] case never waits. *)
Inductive EmitOutcome :=
| Returns (ch : Chan)
| Panics.

(** [NewRunner]: [Events: make(chan Event, 100)]. *)
Definition NewRunner_Events : Chan := OpenChan 100 [].

(** [Runner.emit]: [select { case r.Events <- event: default: }]. *)
Definition Runner_emit (events : Chan) (event : Event) : EmitOutcome :=
  match send_case events event with
  | Sent ch => Returns ch
  | NotReady => Returns events
  | SendPanics => Panics
  end.

(** [ModeExecutor.emit]: the same [select] under [if e.events != nil]. *)
Definition ModeExecutor_emit (events : Chan) (event : Event) : EmitOutcome :=
  match events with
  | NilChan => Returns events
  | _ =>
      match send_case events event with
      | Sent ch => Returns ch
      | NotReady => Returns events
      | SendPanics => Panics
      end
  end.

(** The consumer's receive [<-m.events] when an event is buffered. *)
Definition receive (ch : Chan) : option (Event * Chan) :=
  match ch with
  | OpenChan capacity (event :: buf) => Some (event, OpenChan capacity buf)
  | ClosedChan capacity (event :: buf) => Some (event, ClosedChan capacity buf)
  | _ => None
  end.

(** The states of a session's channel while [Run] is active: it is
    made by [NewRunner], written by the two [emit]s and read by the
    board's listener.  ([RunTeamTUI] closes it only after [Run] has
    returned, when no [emit] is left to run.) *)
Inductive session_chan : Chan -> Prop :=
| chan_new : session_chan NewRunner_Events
| chan_runner_emit ch event ch' :
    session_chan ch -> Runner_emit ch event = Returns ch' -> session_chan ch'
| chan_executor_emit ch event ch' :
    session_chan ch -> ModeExecutor_emit ch event = Returns ch' ->
    session_chan ch'
| chan_receive ch event ch' :
    session_chan ch -> receive ch = Some (event, ch') -> session_chan ch'.

(** A producer that emits a list of events with nobody receiving. *)
Fixpoint emit_all (ch : Chan) (events : list Event) : EmitOutcome :=
  match events with
  | [] => Returns ch
  | event :: rest =>
      match Runner_emit ch event with
      | Returns ch' => emit_all ch' rest
      | Panics => Panics
      end
  end.

End Bus.

(** ** [internal/team]: the mode executors and [Runner.Run] *)

Module Engine.
Import Team.

(** A Go result pair [(value, err)]. *)
Inductive result (A : Type) :=
| Ok (a : A)
| Err (e : error).
Global Arguments Ok {A} a.
Global Arguments Err {A} e.

Definition is_Ok {A} (r : result A) : bool :=
  match r with Ok _ => true | Err _ => false end.

(** [provider.Request] ([MaxTokens] and [Temperature] are never set by
    this code), [provider.Response], [provider.StreamChunk]. *)
Record Request := { Prompt : string; SystemPrompt : string }.
Record Response := {
  Content : string;
  Model : string;
  FinishReason : string;
  TokensUsed : Z
}.
Record StreamChunk := {
  ChunkContent : string;
  ChunkDone : bool;
  ChunkError : option error
}.

Definition ArtifactType := string.
Definition ArtifactCode : ArtifactType := "code".
Definition ArtifactDocument : ArtifactType := "document".

(** [Artifact] ([CreatedAt] and [Path] stay zero here). *)
Record Artifact := {
  Name : string;
  Type_ : ArtifactType;
  ArtifactContent : string;
  Description : string;
  CreatedBy : string
}.

Record Options := {
  Task : string;
  PM : string;
  Mode : WorkMode;
  Members : list string;
  IncludeArbiter : bool;
  CheckpointLevel : Checkpoint.CheckpointLevel;
  ShowCosts : bool;
  OutputDir : string;
  Verbose : bool
}.

(** [Session] (the time-stamped [ID] and [StartTime] are left out;
    [Checkpoints] is never written). *)
Record Session := {
  sTask : string;
  sPM : string;
  sMode : WorkMode;
  sMembers : list string;
  sPhase : Phase;
  sProjectDir : string;
  sArtifacts : list Artifact;
  sPlan : option Plan
}.

Local Set Warnings "-register-all".

(** The helpers [Run] calls, one after the other. *)
Inductive Helper :=
| H_printHeader | H_selectPM | H_createPlan | H_requestApproval
| H_MkdirAll | H_Execute | H_runReview | H_deliver | H_printSummary.

(** What a run does that can be seen from outside, in program order:
    calls of [emit], assignments to [session.Phase], entries into the
    helpers of [Run], model invocations, and text written to standard
    output.  [Workers] holds the actions of the goroutines of
    divide-and-conquer, one list per worker; how they interleave with
    each other is not fixed by the program. *)
Inductive Action :=
| Emit (event : Event)
| SetPhase (p : Phase)
| Call (h : Helper)
| Invoked (aiID : string) (req : Request)
| Print (text : string)
| Workers (ws : list (list Action)).

(** The collaborators of the engine.  [invoke n] answers the [n]-th
    [Registry.Invoke] of the run, [stream i] the [Registry.Stream] of
    worker [i] with every chunk it sends before it closes its channel;
    [displayNames] is the [DisplayName] of the configured models. *)
Record Env := {
  invoke : nat -> string -> Request -> result Response;
  stream : nat -> string -> Request -> result (list StreamChunk);
  displayNames : gmap string string;
  mkdirAll : string -> option error;
  saveArtifact : string -> Artifact -> option error;
  writeSummary : string -> option error;
  joinPath : string -> string -> string;
  parsePlanResponse : string -> Options -> Plan * WorkMode;
  elapsed : string
}.

Record State := { ncalls : nat; trace : list Action }.

(** Computations of the engine: state passing. *)
Definition M (A : Type) : Type := State -> A * State.

Global Instance M_ret : MRet M := fun A (a : A) st => (a, st).
Global Instance M_bind : MBind M := fun A B (f : A -> M B) (m : M A) st =>
  let '(a, st') := m st in f a st'.

Definition act (a : Action) : M unit := fun st =>
  (tt, {| ncalls := ncalls st; trace := trace st ++ [a] |}).

Definition nl : string := String (Ascii.ascii_of_nat 10) "".

(** [fmt.Print], and [fmt.Println] of one string. *)
Definition print (text : string) : M unit := act (Print text).
Definition println (text : string) : M unit := act (Print (text +:+ nl)).

Definition lines (l : list string) : string := String.concat nl l.

Definition rule : string :=
  "───────────────────────────────────────────────────────".
Definition double_rule : string :=
  "═══════════════════════════════════════════════════════".

(** [truncateOutput]. *)
Definition truncateOutput (s : string) (maxLen : nat) : string :=
  if (String.length s <=? maxLen)%nat then s
  else String.substring 0 maxLen s +:+ nl +:+ "... (truncated)".

(** [strings.Join]. *)
Definition Join (l : list string) (sep : string) : string := String.concat sep l.

Section WithEnv.
Variable env : Env.

(** [getDisplayName], of the runner and of the executor alike. *)
Definition getDisplayName (aiID : string) : string :=
  match displayNames env !! aiID with
  | Some name => if String.eqb name "" then aiID else name
  | None => aiID
  end.

(** [e.registry.Invoke(ctx, aiID, req)]. *)
Definition registry_Invoke (aiID : string) (req : Request)
    : M (result Response) := fun st =>
  (invoke env (ncalls st) aiID req,
   {| ncalls := S (ncalls st); trace := trace st ++ [Invoked aiID req] |}).

Definition emit (event : Event) : M unit := act (Emit event).

Definition emitTask (eventType : EventType) (taskID actor : string)
    (data : EventData) : M unit :=
  emit (NewTaskEvent eventType taskID actor data).

Definition buildContext (current : string) (iteration : nat) : string :=
  if String.eqb current "" then "This is the start. Begin the implementation."
  else "Current progress (iteration " +:+ pretty iteration +:+ "):" +:+ nl
       +:+ current +:+ nl +:+ nl +:+ "Continue from here.".

(** *** Pair programming *)

(** The turns of the loop [for i := 0; i < 3; i++]. *)
Fixpoint pair_turns (s : Session) (turns : list nat)
    (driver navigator currentWork : string) : M (result string) :=
  match turns with
  | [] => mret (Ok currentWork)
  | i :: rest =>
      print ("Turn " +:+ pretty (i + 1)%nat +:+ " - " +:+ getDisplayName driver
             +:+ " (Driver):" +:+ nl) ;;
      let prompt := lines [
        "You are the driver in pair programming.";
        "Task: " +:+ sTask s; "";
        buildContext currentWork i; "";
        "Write or continue the implementation. Be specific and produce actual code/content." ] in
      r ← registry_Invoke driver
            {| Prompt := prompt;
               SystemPrompt := "You are a skilled developer working in pair programming mode." |};
      match r with
      | Err err => mret (Err ("driver failed: " +:+ err))
      | Ok resp =>
          println (truncateOutput (Content resp) 500) ;;
          let currentWork :=
            currentWork +:+ nl +:+ nl +:+ "### Driver Output:" +:+ nl
            +:+ Content resp in
          print (nl +:+ getDisplayName navigator +:+ " (Navigator) reviewing..." +:+ nl) ;;
          let reviewPrompt := lines [
            "You are the navigator reviewing the driver's work.";
            "Task: " +:+ sTask s; "";
            "Driver's output:"; Content resp; "";
            "Review and suggest improvements. Point out any issues or optimizations." ] in
          r' ← registry_Invoke navigator
                 {| Prompt := reviewPrompt;
                    SystemPrompt := "You are a code reviewer in pair programming mode." |};
          currentWork ←
            match r' with
            | Err err =>
                print ("Navigator review failed: " +:+ err +:+ nl) ;;
                mret currentWork
            | Ok reviewResp =>
                println (truncateOutput (Content reviewResp) 300) ;;
                mret (currentWork +:+ nl +:+ nl +:+ "### Navigator Review:" +:+ nl
                      +:+ Content reviewResp)
            end;
          println "" ;;
          pair_turns s rest navigator driver currentWork
      end
  end.

Definition executePairProgramming (s : Session) : M (result (list Artifact)) :=
  println "Mode: Pair Programming" ;;
  println "Two AIs collaborate on the same artifact" ;;
  match sMembers s with
  | m0 :: m1 :: others =>
      let driver := m0 in
      let navigator :=
        match others with
        | m2 :: _ => if String.eqb driver (sPM s) then m2 else m1
        | [] => m1
        end in
      print ("Driver: " +:+ getDisplayName driver +:+ nl) ;;
      print ("Navigator: " +:+ getDisplayName navigator +:+ nl +:+ nl) ;;
      r ← pair_turns s [0; 1; 2]%nat driver navigator "";
      match r with
      | Err err => mret (Err err)
      | Ok currentWork =>
          mret (Ok [ {| Name := "pair_output.md"; Type_ := ArtifactCode;
                        ArtifactContent := currentWork;
                        Description := "Pair programming session output";
                        CreatedBy := m0 +:+ ", " +:+ m1 |} ])
      end
  | _ => mret (Err "pair programming requires at least 2 team members")
  end.

(** *** Consultation *)

Fixpoint consult_members (s : Session) (members : list string)
    (context : string) : M string :=
  match members with
  | [] => mret context
  | member :: rest =>
      if String.eqb member (sPM s) then consult_members s rest context
      else
        print ("Consulting " +:+ getDisplayName member +:+ ":" +:+ nl) ;;
        let consultPrompt := lines [
          "The PM has this approach for the task:"; context; "";
          "Task: " +:+ sTask s; "";
          "Provide your expert input, suggestions, or concerns." ] in
        r ← registry_Invoke member
              {| Prompt := consultPrompt;
                 SystemPrompt := "You are a team member providing consultation." |};
        match r with
        | Err err =>
            print ("Consultation failed: " +:+ err +:+ nl) ;;
            consult_members s rest context
        | Ok memberResp =>
            println (truncateOutput (Content memberResp) 400) ;;
            let context :=
              context +:+ nl +:+ nl +:+ getDisplayName member +:+ "'s Input:"
              +:+ nl +:+ Content memberResp in
            println "" ;;
            consult_members s rest context
        end
  end.

Definition executeConsultation (s : Session) : M (result (list Artifact)) :=
  println "Mode: Consultation" ;;
  print ("PM " +:+ getDisplayName (sPM s) +:+ " leads, consulting team as needed"
         +:+ nl +:+ nl) ;;
  print (getDisplayName (sPM s) +:+ " (PM) - Initial Approach:" +:+ nl) ;;
  let initialPrompt := lines [
    "You are the PM leading this task. Create an initial approach.";
    "Task: " +:+ sTask s; "";
    "Outline your approach and identify what input you need from team members." ] in
  r ← registry_Invoke (sPM s)
        {| Prompt := initialPrompt;
           SystemPrompt := "You are a project manager leading a team." |};
  match r with
  | Err err => mret (Err err)
  | Ok resp =>
      println (truncateOutput (Content resp) 500) ;;
      let context := "PM Initial Approach:" +:+ nl +:+ Content resp in
      println "" ;;
      context ← consult_members s (sMembers s) context;
      print (getDisplayName (sPM s) +:+ " (PM) - Final Output:" +:+ nl) ;;
      let finalPrompt := lines [
        "Based on the consultations:"; context; "";
        "Produce the final deliverable for: " +:+ sTask s ] in
      r' ← registry_Invoke (sPM s)
             {| Prompt := finalPrompt;
                SystemPrompt := "You are producing the final deliverable incorporating team input." |};
      match r' with
      | Err err => mret (Err err)
      | Ok finalResp =>
          println (truncateOutput (Content finalResp) 500) ;;
          mret (Ok [ {| Name := "consultation_output.md";
                        Type_ := ArtifactDocument;
                        ArtifactContent := Content finalResp;
                        Description := "Final output from consultation";
                        CreatedBy := sPM s |} ])
      end
  end.

(** *** Round robin *)

Fixpoint round_members (s : Session) (round : nat) (members : list string)
    (accumulated : string) : M string :=
  match members with
  | [] => mret accumulated
  | member :: rest =>
      print (getDisplayName member +:+ "'s contribution:" +:+ nl) ;;
      let prompt := lines [
        "Task: " +:+ sTask s; "";
        "Previous contributions:"; accumulated; "";
        "Add your contribution. Build on what others have done." ] in
      r ← registry_Invoke member
            {| Prompt := prompt;
               SystemPrompt := "You are contributing to a collaborative project." |};
      match r with
      | Err err =>
          print ("Failed: " +:+ err +:+ nl) ;;
          round_members s round rest accumulated
      | Ok resp =>
          println (truncateOutput (Content resp) 400) ;;
          let accumulated :=
            accumulated +:+ nl +:+ nl +:+ "### " +:+ getDisplayName member
            +:+ " (Round " +:+ pretty round +:+ "):" +:+ nl +:+ Content resp in
          println "" ;;
          round_members s round rest accumulated
      end
  end.

Fixpoint rounds (s : Session) (rs : list nat) (accumulated : string)
    : M string :=
  match rs with
  | [] => mret accumulated
  | round :: rest =>
      print ("--- Round " +:+ pretty round +:+ " ---" +:+ nl +:+ nl) ;;
      accumulated ← round_members s round (sMembers s) accumulated;
      rounds s rest accumulated
  end.

Definition executeRoundRobin (s : Session) : M (result (list Artifact)) :=
  println "Mode: Round Robin" ;;
  println "Sequential contributions from each member" ;;
  accumulated ← rounds s [1; 2]%nat "";
  mret (Ok [ {| Name := "round_robin_output.md"; Type_ := ArtifactDocument;
                ArtifactContent := accumulated;
                Description := "Combined round-robin contributions";
                CreatedBy := Join (sMembers s) ", " |} ]).

(** *** Divide and conquer *)

(** The loop [for chunk := range streamCh] of one worker. *)
Fixpoint read_chunks (tid m : string) (chunks : list StreamChunk)
    (content : string) (acts : list Action) : result string * list Action :=
  match chunks with
  | [] => (Ok content, acts)
  | chunk :: rest =>
      match ChunkError chunk with
      | Some err => (Err err, acts)
      | None =>
          read_chunks tid m rest (content +:+ ChunkContent chunk)
            (acts ++ [Emit (NewTaskEvent EventTaskProgress tid m
                              (TaskProgressData (ChunkContent chunk) (1 # 2)))])
      end
  end.

(** The goroutine of worker [idx]: what it leaves in [results[idx]]
    and [errors[idx]], and what it does. *)
Definition worker (s : Session) (divided : string) (idx : nat)
    (m tid : string) : string * option error * list Action :=
  let started :=
    [Print (getDisplayName m +:+ " working on subtask " +:+ pretty (idx + 1)%nat
            +:+ "..." +:+ nl)] in
  let subtaskPrompt := lines [
    "Complete your assigned subtask.";
    "Main task: " +:+ sTask s;
    "Your subtask number: " +:+ pretty (idx + 1)%nat;
    "Subtask breakdown: " +:+ divided ] in
  match stream env idx m {| Prompt := subtaskPrompt; SystemPrompt := "" |} with
  | Err err =>
      ("", Some err,
       started ++ [Emit (NewTaskEvent EventError tid m
                           (ErrorData (Some err) tid ""))])
  | Ok chunks =>
      match read_chunks tid m chunks "" started with
      | (Err err, acts) => ("", Some err, acts)
      | (Ok content, acts) =>
          ("### " +:+ getDisplayName m +:+ " (Subtask " +:+ pretty (idx + 1)%nat
           +:+ "):" +:+ nl +:+ content,
           None,
           acts ++ [Emit (NewTaskEvent EventTaskCompleted tid m NilData)])
      end
  end.

Definition taskID_of (i : nat) : string := "subtask_" +:+ pretty (i + 1)%nat.

(** The spawning loop: one [task-started] event per member, emitted
    by the caller. *)
Fixpoint spawn (i : nat) (members : list string) : M unit :=
  match members with
  | [] => mret tt
  | member :: rest =>
      emitTask EventTaskStarted (taskID_of i) member NilData ;;
      spawn (S i) rest
  end.

Definition run_workers (s : Session) (divided : string)
    : list (string * option error * list Action) :=
  imap (fun i member => worker s divided i member (taskID_of i)) (sMembers s).

(** The loop over [errors] after [wg.Wait()]. *)
Fixpoint report_errors (i : nat) (errors : list (option error)) : M unit :=
  match errors with
  | [] => mret tt
  | Some err :: rest =>
      print ("Subtask " +:+ pretty (i + 1)%nat +:+ " failed: " +:+ err +:+ nl) ;;
      report_errors (S i) rest
  | None :: rest => report_errors (S i) rest
  end.

Fixpoint all_results (results : list string) (acc : string) : string :=
  match results with
  | [] => acc
  | r :: rest =>
      if String.eqb r "" then all_results rest acc
      else all_results rest (acc +:+ r +:+ nl +:+ nl)
  end.

Definition executeDivideConquer (s : Session) : M (result (list Artifact)) :=
  println "Mode: Divide and Conquer" ;;
  println "Parallel subtasks, then merge" ;;
  print (getDisplayName (sPM s) +:+ " (PM) dividing task..." +:+ nl) ;;
  let dividePrompt := lines [
    "Divide this task into " +:+ pretty (length (sMembers s))
      +:+ " independent subtasks:";
    "Task: " +:+ sTask s; "";
    "List each subtask clearly numbered." ] in
  r ← registry_Invoke (sPM s) {| Prompt := dividePrompt; SystemPrompt := "" |};
  match r with
  | Err err => mret (Err err)
  | Ok divideResp =>
      println (Content divideResp) ;;
      println "" ;;
      spawn 0 (sMembers s) ;;
      let done := run_workers s (Content divideResp) in
      act (Workers (map snd done)) ;;
      let results := map (fun w => fst (fst w)) done in
      let errors := map (fun w => snd (fst w)) done in
      report_errors 0 errors ;;
      print (nl +:+ getDisplayName (sPM s) +:+ " (PM) merging results..." +:+ nl) ;;
      let mergePrompt := lines [
        "Merge these subtask results into a cohesive deliverable:";
        all_results results ""; "";
        "Original task: " +:+ sTask s ] in
      r' ← registry_Invoke (sPM s)
             {| Prompt := mergePrompt; SystemPrompt := "" |};
      match r' with
      | Err err => mret (Err err)
      | Ok mergeResp =>
          println (truncateOutput (Content mergeResp) 500) ;;
          mret (Ok [ {| Name := "merged_output.md"; Type_ := ArtifactDocument;
                        ArtifactContent := Content mergeResp;
                        Description := "Merged divide-and-conquer output";
                        CreatedBy := sPM s |} ])
      end
  end.

(** *** Free form *)

Fixpoint brainstorm (s : Session) (members : list string)
    (discussion : string) : M string :=
  match members with
  | [] => mret discussion
  | member :: rest =>
      print (getDisplayName member +:+ "'s thoughts:" +:+ nl) ;;
      let prompt := lines [
        "Task: " +:+ sTask s; "";
        "Share your initial thoughts, ideas, and approach for this task." ] in
      r ← registry_Invoke member {| Prompt := prompt; SystemPrompt := "" |};
      match r with
      | Err err =>
          print ("Failed: " +:+ err +:+ nl) ;;
          brainstorm s rest discussion
      | Ok resp =>
          println (truncateOutput (Content resp) 300) ;;
          let discussion :=
            discussion +:+ "### " +:+ getDisplayName member +:+ ":" +:+ nl
            +:+ Content resp +:+ nl +:+ nl in
          println "" ;;
          brainstorm s rest discussion
      end
  end.

Definition executeFreeForm (s : Session) : M (result (list Artifact)) :=
  println "Mode: Free Form" ;;
  println "Open collaboration with PM moderation" ;;
  println "--- Brainstorming Phase ---" ;;
  discussion ← brainstorm s (sMembers s) "";
  println (nl +:+ "--- PM Direction ---") ;;
  print (getDisplayName (sPM s) +:+ " synthesizing discussion..." +:+ nl) ;;
  let synthesisPrompt := lines [
    "Team discussion:"; discussion; "";
    "As PM, synthesize these ideas and provide direction for the final deliverable.";
    "Task: " +:+ sTask s ] in
  r ← registry_Invoke (sPM s)
        {| Prompt := synthesisPrompt; SystemPrompt := "" |};
  match r with
  | Err err => mret (Err err)
  | Ok synthResp =>
      println (truncateOutput (Content synthResp) 500) ;;
      println (nl +:+ "--- Final Output ---") ;;
      let finalPrompt := lines [
        "Based on the team discussion and PM direction:"; discussion; "";
        Content synthResp; "";
        "Produce the final deliverable." ] in
      r' ← registry_Invoke (sPM s)
             {| Prompt := finalPrompt; SystemPrompt := "" |};
      match r' with
      | Err err => mret (Err err)
      | Ok finalResp =>
          println (truncateOutput (Content finalResp) 500) ;;
          mret (Ok [ {| Name := "freeform_output.md"; Type_ := ArtifactDocument;
                        ArtifactContent := Content finalResp;
                        Description := "Free-form collaboration output";
                        CreatedBy := Join (sMembers s) ", " |} ])
      end
  end.

(** [ModeExecutor.Execute]: the [switch] on [e.session.Mode]. *)
Definition Execute (s : Session) : M (result (list Artifact)) :=
  act (Call H_Execute) ;;
  println rule ;;
  print ("  Execution Phase (" +:+ sMode s +:+ ")" +:+ nl) ;;
  println rule ;;
  println "" ;;
  if String.eqb (sMode s) ModePairProgramming then executePairProgramming s
  else if String.eqb (sMode s) ModeConsultation then executeConsultation s
  else if String.eqb (sMode s) ModeRoundRobin then executeRoundRobin s
  else if String.eqb (sMode s) ModeDivideConquer then executeDivideConquer s
  else if String.eqb (sMode s) ModeFreeForm then executeFreeForm s
  else executeFreeForm s.

(** *** [Runner.Run] and its helpers *)

Definition printHeader (opts : Options) : M unit :=
  act (Call H_printHeader) ;;
  println "" ;;
  println double_rule ;;
  println "           THE COUNCIL OF LEGENDS" ;;
  println "              Team Collaboration" ;;
  println double_rule ;;
  println "" ;;
  print ("Task: " +:+ Task opts +:+ nl) ;;
  println "".

(** [selectPM]: the forced PM, or the selector's choice. *)
Definition selectPM (opts : Options) (session : Session)
    : M (string * option error) :=
  act (Call H_selectPM) ;;
  if negb (String.eqb (PM opts) "") then mret (PM opts, None)
  else mret (PMSelector.Select (Task opts) (sMembers session)).

Definition createPlan (opts : Options) (session : Session)
    : M (result (Plan * WorkMode)) :=
  act (Call H_createPlan) ;;
  let prompt := lines [
    "You are the Project Manager for this task. Analyze it and create a work plan.";
    "";
    "Task: " +:+ Task opts; "";
    "Team Members: " +:+ Join (sMembers session) ", "; "";
    "Create a plan with:";
    "1. A brief summary (1-2 sentences)";
    "2. Numbered steps to complete the task";
    "3. Which team member should handle each step";
    "4. Recommended work mode:";
    "   - pair_programming: Two AIs collaborate on same artifact";
    "   - consultation: You lead, others provide input when asked";
    "   - round_robin: Sequential contributions from each member";
    "   - divide_conquer: Split task into parallel subtasks, merge results";
    "   - free_form: Open collaboration";
    "";
    "Respond in this format:";
    "SUMMARY: <brief summary>";
    "MODE: <work_mode>";
    "STEPS:";
    "1. <step description> [ASSIGNED: <ai_id>]";
    "2. <step description> [ASSIGNED: <ai_id>]";
    "..." ] in
  r ← registry_Invoke (sPM session)
        {| Prompt := prompt;
           SystemPrompt := "You are an expert project manager coordinating a team of AI assistants." |};
  match r with
  | Err err => mret (Err err)
  | Ok resp => mret (Ok (parsePlanResponse env (Content resp) opts))
  end.

(** [requestApproval]: prints the checkpoint and approves. *)
Definition requestApproval (checkpoint description : string) : M bool :=
  act (Call H_requestApproval) ;;
  print (nl +:+ "[Checkpoint: " +:+ checkpoint +:+ "]" +:+ nl) ;;
  print (description +:+ nl) ;;
  print (nl +:+ "Approve? (y/n): ") ;;
  println "y (auto-approved)" ;;
  mret true.

Fixpoint artifact_summary (artifacts : list Artifact) (acc : string) : string :=
  match artifacts with
  | [] => acc
  | a :: rest =>
      artifact_summary rest
        (acc +:+ "- " +:+ Name a +:+ ": " +:+ Description a +:+ nl)
  end.

Definition runReview (session : Session) : M (option error) :=
  act (Call H_runReview) ;;
  println rule ;;
  println "  Review Phase" ;;
  println rule ;;
  println "" ;;
  let prompt := lines [
    "Review the completed work for this task:"; "";
    "Task: " +:+ sTask session; "";
    "Artifacts created:";
    artifact_summary (sArtifacts session) ""; "";
    "Provide a brief review:";
    "1. What was accomplished";
    "2. Any issues or concerns";
    "3. Recommendations" ] in
  r ← registry_Invoke (sPM session)
        {| Prompt := prompt;
           SystemPrompt := "You are reviewing work completed by your team." |};
  match r with
  | Err err => mret (Some err)
  | Ok resp =>
      print ("PM Review:" +:+ nl +:+ Content resp +:+ nl +:+ nl) ;;
      mret None
  end.

Fixpoint save_artifacts (dir : string) (artifacts : list Artifact) : M unit :=
  match artifacts with
  | [] => mret tt
  | artifact :: rest =>
      match saveArtifact env dir artifact with
      | Some err =>
          print ("Warning: failed to save " +:+ Name artifact +:+ ": " +:+ err +:+ nl)
      | None =>
          print ("Saved: " +:+ joinPath env dir (Name artifact) +:+ nl)
      end ;;
      save_artifacts dir rest
  end.

(** [deliver]; the text of the summary file holds times and is left
    to [writeSummary]. *)
Definition deliver (session : Session) (opts : Options) : M (option error) :=
  act (Call H_deliver) ;;
  println rule ;;
  println "  Delivery" ;;
  println rule ;;
  println "" ;;
  (if negb (String.eqb (sProjectDir session) "")
   then save_artifacts (sProjectDir session) (sArtifacts session)
   else mret tt) ;;
  let summaryPath := joinPath env (sProjectDir session) "SESSION_SUMMARY.md" in
  match writeSummary env summaryPath with
  | Some err => print ("Warning: failed to save summary: " +:+ err +:+ nl)
  | None => print ("Saved: " +:+ summaryPath +:+ nl)
  end ;;
  mret None.

Definition printSummary (session : Session) : M unit :=
  act (Call H_printSummary) ;;
  println "" ;;
  println double_rule ;;
  println "           SESSION COMPLETE" ;;
  println double_rule ;;
  print ("Duration: " +:+ elapsed env +:+ nl) ;;
  print ("Artifacts: " +:+ pretty (length (sArtifacts session)) +:+ nl) ;;
  (if negb (String.eqb (sProjectDir session) "")
   then print ("Output: " +:+ sProjectDir session +:+ nl)
   else mret tt) ;;
  println "".

(** Assignments to fields of [session]. *)
Definition set_PM (s : Session) (pm : string) : Session :=
  {| sTask := sTask s; sPM := pm; sMode := sMode s; sMembers := sMembers s;
     sPhase := sPhase s; sProjectDir := sProjectDir s;
     sArtifacts := sArtifacts s; sPlan := sPlan s |}.

Definition set_Plan (s : Session) (plan : Plan) (mode : WorkMode) : Session :=
  {| sTask := sTask s; sPM := sPM s; sMode := mode; sMembers := sMembers s;
     sPhase := sPhase s; sProjectDir := sProjectDir s;
     sArtifacts := sArtifacts s; sPlan := Some plan |}.

Definition set_ProjectDir (s : Session) (dir : string) : Session :=
  {| sTask := sTask s; sPM := sPM s; sMode := sMode s; sMembers := sMembers s;
     sPhase := sPhase s; sProjectDir := dir;
     sArtifacts := sArtifacts s; sPlan := sPlan s |}.

Definition set_Artifacts (s : Session) (artifacts : list Artifact) : Session :=
  {| sTask := sTask s; sPM := sPM s; sMode := sMode s; sMembers := sMembers s;
     sPhase := sPhase s; sProjectDir := sProjectDir s;
     sArtifacts := artifacts; sPlan := sPlan s |}.

(** [session.Phase = p]. *)
Definition set_Phase (s : Session) (p : Phase) : M Session :=
  act (SetPhase p) ;;
  mret {| sTask := sTask s; sPM := sPM s; sMode := sMode s;
          sMembers := sMembers s; sPhase := p;
          sProjectDir := sProjectDir s; sArtifacts := sArtifacts s;
          sPlan := sPlan s |}.

Definition phase_changed (oldPhase newPhase : Phase) : Event :=
  NewEvent EventPhaseChanged "system" (PhaseChangedData oldPhase newPhase).

Definition error_event (err : error) (message : string) : Event :=
  NewEvent EventError "system" (ErrorData (Some err) "" message).

(** The loop that emits one [task-created] event per plan step. *)
Fixpoint emit_steps (pm : string) (steps : list PlanStep) : M unit :=
  match steps with
  | [] => mret tt
  | step :: rest =>
      emitTask EventTaskCreated (StepID step) pm
        (TaskCreatedData (StepDescription step) (StepDescription step)
           (StepAssignedTo step) false (StepDependsOn step)) ;;
      emit_steps pm rest
  end.

(** [Runner.Run]: the returned [error]. *)
Definition Run (opts : Options) : M (option error) :=
  let session :=
    {| sTask := Task opts; sPM := ""; sMode := ""; sMembers := Members opts;
       sPhase := PhaseAnalysis; sProjectDir := ""; sArtifacts := [];
       sPlan := None |} in
  printHeader opts ;;
  emit (phase_changed (-1) PhaseAnalysis) ;;
  (* Phase 1: Analyze task and select PM *)
  sel ← selectPM opts session;
  match sel with
  | (_, Some err) =>
      emit (error_event err "PM selection failed") ;;
      mret (Some ("PM selection failed: " +:+ err))
  | (pm, None) =>
      let session := set_PM session pm in
      emit (NewEvent EventPMSelected pm (PMSelectedData pm (getDisplayName pm))) ;;
      print ("Project Manager: " +:+ getDisplayName pm +:+ nl +:+ nl) ;;
      (* Phase 2: PM creates plan and selects work mode *)
      emit (phase_changed PhaseAnalysis PhasePlanning) ;;
      session ← set_Phase session PhasePlanning;
      planned ← createPlan opts session;
      match planned with
      | Err err =>
          emit (error_event err "Planning failed") ;;
          mret (Some ("planning failed: " +:+ err))
      | Ok (plan, mode) =>
          let session := set_Plan session plan mode in
          emit (NewEvent EventPMDecision pm
                  (PMDecisionData mode (Summary plan) (Steps plan))) ;;
          emit_steps pm (Steps plan) ;;
          print ("Work Mode: " +:+ mode +:+ nl) ;;
          print ("Plan: " +:+ Summary plan +:+ nl +:+ nl) ;;
          (* Checkpoint: Plan approval (if enabled) *)
          approved ←
            (if negb (String.eqb (CheckpointLevel opts) Checkpoint.CheckpointNone)
             then requestApproval "Plan Approval" (Summary plan)
             else mret true);
          if negb approved then mret (Some "plan not approved")
          else
            (* Setup project directory *)
            made ←
              (if negb (String.eqb (OutputDir opts) "")
               then act (Call H_MkdirAll) ;; mret (mkdirAll env (OutputDir opts))
               else mret None);
            match made with
            | Some err => mret (Some ("creating project directory: " +:+ err))
            | None =>
                let session :=
                  if negb (String.eqb (OutputDir opts) "")
                  then set_ProjectDir session (OutputDir opts)
                  else session in
                (* Phase 3: Execute work based on mode *)
                emit (phase_changed PhasePlanning PhaseExecution) ;;
                session ← set_Phase session PhaseExecution;
                executed ← Execute session;
                match executed with
                | Err err =>
                    emit (error_event err "Execution failed") ;;
                    mret (Some ("execution failed: " +:+ err))
                | Ok artifacts =>
                    let session := set_Artifacts session artifacts in
                    (* Phase 4: Review *)
                    emit (phase_changed PhaseExecution PhaseReview) ;;
                    session ← set_Phase session PhaseReview;
                    reviewed ← runReview session;
                    match reviewed with
                    | Some err => mret (Some ("review failed: " +:+ err))
                    | None =>
                        (* Phase 5: Delivery *)
                        emit (phase_changed PhaseReview PhaseDelivery) ;;
                        session ← set_Phase session PhaseDelivery;
                        delivered ← deliver session opts;
                        match delivered with
                        | Some err => mret (Some ("delivery failed: " +:+ err))
                        | None =>
                            session ← set_Phase session PhaseComplete;
                            emit (NewEvent EventSessionComplete "system" NilData) ;;
                            printSummary session ;;
                            mret None
                        end
                    end
                end
            end
      end
  end.

End WithEnv.

(** The state a run starts from. *)
Definition start : State := {| ncalls := 0; trace := [] |}.

End Engine.

(** ** [internal/team]: the parser of the PM's plan *)

Module PlanParser.
Import Strings Team Engine.

Definition newline : Ascii.ascii := Ascii.ascii_of_nat 10.

(** [strings.Split(s, "\n")]; [cur] is the piece being read. *)
Fixpoint Split_from (cur s : string) : list string :=
  match s with
  | EmptyString => [cur]
  | String c s' =>
      if Ascii.eqb c newline then cur :: Split_from "" s'
      else Split_from (cur +:+ String c "") s'
  end.

Definition Split_lines (s : string) : list string := Split_from "" s.

(** [strings.TrimSpace] on ASCII text: leading and trailing white space
    is dropped. *)
Fixpoint TrimLeft (s : string) : string :=
  match s with
  | EmptyString => EmptyString
  | String c s' => if is_space c then TrimLeft s' else s
  end.

Fixpoint TrimRight (s : string) : string :=
  match s with
  | EmptyString => EmptyString
  | String c s' =>
      match TrimRight s' with
      | EmptyString => if is_space c then EmptyString else String c EmptyString
      | rest => String c rest
      end
  end.

Definition TrimSpace (s : string) : string := TrimRight (TrimLeft s).

(** [strings.TrimPrefix]. *)
Fixpoint drop_bytes (n : nat) (s : string) : string :=
  match n, s with
  | O, _ => s
  | S n', String _ s' => drop_bytes n' s'
  | S _, EmptyString => EmptyString
  end.

Definition TrimPrefix (s prefix : string) : string :=
  if HasPrefix s prefix then drop_bytes (String.length prefix) s else s.

(** [strings.Index]: the offset of the first occurrence, or [-1]. *)
Fixpoint index_of (s substr : string) : option nat :=
  if HasPrefix s substr then Some O
  else match s with
       | EmptyString => None
       | String _ s' => S <$> index_of s' substr
       end.

Definition Index (s substr : string) : Z :=
  match index_of s substr with
  | Some i => Z.of_nat i
  | None => -1
  end.

(** The slice expression [s[lo:hi]]; [None] when it panics. *)
Definition slice (s : string) (lo hi : Z) : option string :=
  if (0 <=? lo) && (lo <=? hi) && (hi <=? Z.of_nat (String.length s))
  then Some (String.substring (Z.to_nat lo) (Z.to_nat (hi - lo)) s)
  else None.

Definition len (s : string) : Z := Z.of_nat (String.length s).

(** The test [len(line) > 2 && line[0] >= '1' && line[0] <= '9' &&
    line[1] == '.']. *)
Definition is_step (line : string) : bool :=
  (2 <? len line) &&
  match line with
  | String c0 (String c1 _) =>
      (49 <=? Ascii.nat_of_ascii c0)%nat && (Ascii.nat_of_ascii c0 <=? 57)%nat
      && Ascii.eqb c1 (Ascii.ascii_of_nat 46)
  | _ => false
  end.

(** The step a numbered line stands for, [steps] being the steps read
    so far. *)
Definition parse_step (line : string) (steps : list PlanStep)
    : option PlanStep :=
  let step :=
    {| StepID := "step_" +:+ pretty (length steps + 1)%nat;
       StepDescription := line; StepAssignedTo := "";
       StepDependsOn := []; StepStatus := "pending" |} in
  let idx := Index line "[ASSIGNED:" in
  if negb (idx =? -1) then
    rest ← slice line idx (len line);
    let end_ := Index rest "]" in
    if negb (end_ =? -1) then
      assigned ← slice line (idx + 10) (idx + end_);
      description ← slice line 0 idx;
      Some {| StepID := StepID step;
              StepDescription := TrimSpace description;
              StepAssignedTo := TrimSpace assigned;
              StepDependsOn := StepDependsOn step;
              StepStatus := StepStatus step |}
    else Some step
  else Some step.

Definition set_Summary (plan : Plan) (summary : string) : Plan :=
  {| Summary := summary; Steps := Steps plan;
     Assignments := Assignments plan; EstDuration := EstDuration plan |}.

Definition add_Step (plan : Plan) (step : PlanStep) : Plan :=
  {| Summary := Summary plan; Steps := Steps plan ++ [step];
     Assignments := Assignments plan; EstDuration := EstDuration plan |}.

(** The [switch modeStr]. *)
Definition read_mode (modeStr : string) (mode : WorkMode) : WorkMode :=
  if String.eqb modeStr "pair_programming" then ModePairProgramming
  else if String.eqb modeStr "consultation" then ModeConsultation
  else if String.eqb modeStr "round_robin" then ModeRoundRobin
  else if String.eqb modeStr "divide_conquer" then ModeDivideConquer
  else if String.eqb modeStr "free_form" then ModeFreeForm
  else mode.

(** The body of the loop over the lines. *)
Definition parse_line (opts : Options) (acc : Plan * WorkMode)
    (line : string) : option (Plan * WorkMode) :=
  let '(plan, mode) := acc in
  let line := TrimSpace line in
  if HasPrefix line "SUMMARY:" then
    Some (set_Summary plan (TrimSpace (TrimPrefix line "SUMMARY:")), mode)
  else if HasPrefix line "MODE:" then
    if String.eqb (Mode opts) "" then
      Some (plan, read_mode (TrimSpace (TrimPrefix line "MODE:")) mode)
    else Some (plan, mode)
  else if is_step line then
    step ← parse_step line (Steps plan);
    Some (add_Step plan step, mode)
  else Some (plan, mode).

Fixpoint parse_lines (opts : Options) (acc : Plan * WorkMode)
    (lines : list string) : option (Plan * WorkMode) :=
  match lines with
  | [] => Some acc
  | line :: rest =>
      acc ← parse_line opts acc line;
      parse_lines opts acc rest
  end.

(** [parsePlanResponse]; [None] stands for a panic. *)
Definition parsePlanResponse (content : string) (opts : Options)
    : option (Plan * WorkMode) :=
  let plan :=
    {| Summary := "Task execution plan"; Steps := [];
       Assignments := ∅; EstDuration := "" |} in
  let mode := if negb (String.eqb (Mode opts) "") then Mode opts
              else ModeFreeForm in
  parse_lines opts (plan, mode) (Split_lines content).

End PlanParser.

(** ** [internal/team]: checkpoints and milestones *)

Module Checkpoints.
Import Team Checkpoint.

(** A reading of the clock, in nanoseconds. *)
Definition Time := Z.

(** [Checkpoint] (the untyped [Data] is left out). *)
Record CheckpointRecord := {
  cpID : string;
  cpType : CheckpointType;
  cpDescription : string;
  cpPhase : Phase;
  cpCreatedAt : Time;
  Approved : bool;
  ApprovedAt : option Time;
  Notes : string
}.

(** [NewCheckpoint]: the clock is read twice, for the ID and for
    [CreatedAt]. *)
Definition NewCheckpoint (idTime createdAt : Time)
    (checkpointType : CheckpointType) (description : string) (phase : Phase)
    : CheckpointRecord :=
  {| cpID := "cp_" +:+ pretty idTime; cpType := checkpointType;
     cpDescription := description; cpPhase := phase;
     cpCreatedAt := createdAt; Approved := false; ApprovedAt := None;
     Notes := "" |}.

(** [Checkpoint.Approve], at the time [now]. *)
Definition Approve (c : CheckpointRecord) (now : Time) (notes : string)
    : CheckpointRecord :=
  {| cpID := cpID c; cpType := cpType c; cpDescription := cpDescription c;
     cpPhase := cpPhase c; cpCreatedAt := cpCreatedAt c;
     Approved := true; ApprovedAt := Some now; Notes := notes |}.

(** [Checkpoint.Reject]. *)
Definition Reject (c : CheckpointRecord) (notes : string) : CheckpointRecord :=
  {| cpID := cpID c; cpType := cpType c; cpDescription := cpDescription c;
     cpPhase := cpPhase c; cpCreatedAt := cpCreatedAt c;
     Approved := false; ApprovedAt := ApprovedAt c; Notes := notes |}.

Record CheckpointManager := {
  checkpoints : list CheckpointRecord;
  level : CheckpointLevel;
  saveDir : string
}.

Definition NewCheckpointManager (level : CheckpointLevel) (saveDir : string)
    : CheckpointManager :=
  {| checkpoints := []; level := level; saveDir := saveDir |}.

(** [CheckpointManager.Add]. *)
Definition Add (m : CheckpointManager) (checkpoint : CheckpointRecord)
    : CheckpointManager :=
  {| checkpoints := checkpoints m ++ [checkpoint]; level := level m;
     saveDir := saveDir m |}.

(** [CheckpointManager.GetPending]: the loop that collects the
    checkpoints that are not approved. *)
Fixpoint pending_from (l pending : list CheckpointRecord)
    : list CheckpointRecord :=
  match l with
  | [] => pending
  | c :: rest =>
      if negb (Approved c) then pending_from rest (pending ++ [c])
      else pending_from rest pending
  end.

Definition GetPending (m : CheckpointManager) : list CheckpointRecord :=
  pending_from (checkpoints m) [].

Definition GetAll (m : CheckpointManager) : list CheckpointRecord :=
  checkpoints m.

(** [Milestone]. *)
Record Milestone := {
  msID : string;
  msName : string;
  msDescription : string;
  msPhase : Phase;
  msCreatedAt : Time;
  Completed : bool;
  CompletedAt : option Time;
  msArtifacts : list string
}.

Definition NewMilestone (idTime createdAt : Time) (name description : string)
    (phase : Phase) : Milestone :=
  {| msID := "ms_" +:+ pretty idTime; msName := name;
     msDescription := description; msPhase := phase;
     msCreatedAt := createdAt; Completed := false; CompletedAt := None;
     msArtifacts := [] |}.

(** [Milestone.Complete], at the time [now]. *)
Definition Complete (m : Milestone) (now : Time) (artifacts : list string)
    : Milestone :=
  {| msID := msID m; msName := msName m; msDescription := msDescription m;
     msPhase := msPhase m; msCreatedAt := msCreatedAt m;
     Completed := true; CompletedAt := Some now; msArtifacts := artifacts |}.

(** [MilestoneTracker]: its [milestones]. *)
Definition MilestoneTracker := list Milestone.

Definition tracker_Add (t : MilestoneTracker) (milestone : Milestone)
    : MilestoneTracker := t ++ [milestone].

(** The loops of [GetCompleted] and [GetPending]. *)
Fixpoint collect (keep : Milestone -> bool) (l acc : list Milestone)
    : list Milestone :=
  match l with
  | [] => acc
  | m :: rest =>
      if keep m then collect keep rest (acc ++ [m]) else collect keep rest acc
  end.

Definition GetCompleted (t : MilestoneTracker) : list Milestone :=
  collect Completed t [].

Definition tracker_GetPending (t : MilestoneTracker) : list Milestone :=
  collect (fun m => negb (Completed m)) t [].

End Checkpoints.

(** ** [internal/tui]: the keyboard of the Kanban board *)

Module Keys.
Import Team Board.

(** [KanbanModel] with the fields of the user interface: the fields
    event handling works on are kept together in [board]. *)
Record UI := {
  board : KanbanModel;
  paused : bool;
  selectedCol : Z;
  selectedRow : Z;
  width : Z;
  height : Z;
  ready : bool;
  showPopup : bool;
  popupCardID : string;
  popupScroll : Z;
  showHelp : bool;
  showDebugLog : bool;
  debugScroll : Z;
  quitting : bool
}.

(** Assignments to fields of the model. *)

Definition set_model (u : UI) (v : KanbanModel) : UI :=
  {| board := v;
     paused := paused u;
     selectedCol := selectedCol u;
     selectedRow := selectedRow u;
     width := width u;
     height := height u;
     ready := ready u;
     showPopup := showPopup u;
     popupCardID := popupCardID u;
     popupScroll := popupScroll u;
     showHelp := showHelp u;
     showDebugLog := showDebugLog u;
     debugScroll := debugScroll u;
     quitting := quitting u |}.

Definition set_paused (u : UI) (v : bool) : UI :=
  {| board := board u;
     paused := v;
     selectedCol := selectedCol u;
     selectedRow := selectedRow u;
     width := width u;
     height := height u;
     ready := ready u;
     showPopup := showPopup u;
     popupCardID := popupCardID u;
     popupScroll := popupScroll u;
     showHelp := showHelp u;
     showDebugLog := showDebugLog u;
     debugScroll := debugScroll u;
     quitting := quitting u |}.

Definition set_selectedCol (u : UI) (v : Z) : UI :=
  {| board := board u;
     paused := paused u;
     selectedCol := v;
     selectedRow := selectedRow u;
     width := width u;
     height := height u;
     ready := ready u;
     showPopup := showPopup u;
     popupCardID := popupCardID u;
     popupScroll := popupScroll u;
     showHelp := showHelp u;
     showDebugLog := showDebugLog u;
     debugScroll := debugScroll u;
     quitting := quitting u |}.

Definition set_selectedRow (u : UI) (v : Z) : UI :=
  {| board := board u;
     paused := paused u;
     selectedCol := selectedCol u;
     selectedRow := v;
     width := width u;
     height := height u;
     ready := ready u;
     showPopup := showPopup u;
     popupCardID := popupCardID u;
     popupScroll := popupScroll u;
     showHelp := showHelp u;
     showDebugLog := showDebugLog u;
     debugScroll := debugScroll u;
     quitting := quitting u |}.

Definition set_width (u : UI) (v : Z) : UI :=
  {| board := board u;
     paused := paused u;
     selectedCol := selectedCol u;
     selectedRow := selectedRow u;
     width := v;
     height := height u;
     ready := ready u;
     showPopup := showPopup u;
     popupCardID := popupCardID u;
     popupScroll := popupScroll u;
     showHelp := showHelp u;
     showDebugLog := showDebugLog u;
     debugScroll := debugScroll u;
     quitting := quitting u |}.

Definition set_height (u : UI) (v : Z) : UI :=
  {| board := board u;
     paused := paused u;
     selectedCol := selectedCol u;
     selectedRow := selectedRow u;
     width := width u;
     height := v;
     ready := ready u;
     showPopup := showPopup u;
     popupCardID := popupCardID u;
     popupScroll := popupScroll u;
     showHelp := showHelp u;
     showDebugLog := showDebugLog u;
     debugScroll := debugScroll u;
     quitting := quitting u |}.

Definition set_ready (u : UI) (v : bool) : UI :=
  {| board := board u;
     paused := paused u;
     selectedCol := selectedCol u;
     selectedRow := selectedRow u;
     width := width u;
     height := height u;
     ready := v;
     showPopup := showPopup u;
     popupCardID := popupCardID u;
     popupScroll := popupScroll u;
     showHelp := showHelp u;
     showDebugLog := showDebugLog u;
     debugScroll := debugScroll u;
     quitting := quitting u |}.

Definition set_showPopup (u : UI) (v : bool) : UI :=
  {| board := board u;
     paused := paused u;
     selectedCol := selectedCol u;
     selectedRow := selectedRow u;
     width := width u;
     height := height u;
     ready := ready u;
     showPopup := v;
     popupCardID := popupCardID u;
     popupScroll := popupScroll u;
     showHelp := showHelp u;
     showDebugLog := showDebugLog u;
     debugScroll := debugScroll u;
     quitting := quitting u |}.

Definition set_popupCardID (u : UI) (v : string) : UI :=
  {| board := board u;
     paused := paused u;
     selectedCol := selectedCol u;
     selectedRow := selectedRow u;
     width := width u;
     height := height u;
     ready := ready u;
     showPopup := showPopup u;
     popupCardID := v;
     popupScroll := popupScroll u;
     showHelp := showHelp u;
     showDebugLog := showDebugLog u;
     debugScroll := debugScroll u;
     quitting := quitting u |}.

Definition set_popupScroll (u : UI) (v : Z) : UI :=
  {| board := board u;
     paused := paused u;
     selectedCol := selectedCol u;
     selectedRow := selectedRow u;
     width := width u;
     height := height u;
     ready := ready u;
     showPopup := showPopup u;
     popupCardID := popupCardID u;
     popupScroll := v;
     showHelp := showHelp u;
     showDebugLog := showDebugLog u;
     debugScroll := debugScroll u;
     quitting := quitting u |}.

Definition set_showHelp (u : UI) (v : bool) : UI :=
  {| board := board u;
     paused := paused u;
     selectedCol := selectedCol u;
     selectedRow := selectedRow u;
     width := width u;
     height := height u;
     ready := ready u;
     showPopup := showPopup u;
     popupCardID := popupCardID u;
     popupScroll := popupScroll u;
     showHelp := v;
     showDebugLog := showDebugLog u;
     debugScroll := debugScroll u;
     quitting := quitting u |}.

Definition set_showDebugLog (u : UI) (v : bool) : UI :=
  {| board := board u;
     paused := paused u;
     selectedCol := selectedCol u;
     selectedRow := selectedRow u;
     width := width u;
     height := height u;
     ready := ready u;
     showPopup := showPopup u;
     popupCardID := popupCardID u;
     popupScroll := popupScroll u;
     showHelp := showHelp u;
     showDebugLog := v;
     debugScroll := debugScroll u;
     quitting := quitting u |}.

Definition set_debugScroll (u : UI) (v : Z) : UI :=
  {| board := board u;
     paused := paused u;
     selectedCol := selectedCol u;
     selectedRow := selectedRow u;
     width := width u;
     height := height u;
     ready := ready u;
     showPopup := showPopup u;
     popupCardID := popupCardID u;
     popupScroll := popupScroll u;
     showHelp := showHelp u;
     showDebugLog := showDebugLog u;
     debugScroll := v;
     quitting := quitting u |}.

Definition set_quitting (u : UI) (v : bool) : UI :=
  {| board := board u;
     paused := paused u;
     selectedCol := selectedCol u;
     selectedRow := selectedRow u;
     width := width u;
     height := height u;
     ready := ready u;
     showPopup := showPopup u;
     popupCardID := popupCardID u;
     popupScroll := popupScroll u;
     showHelp := showHelp u;
     showDebugLog := showDebugLog u;
     debugScroll := debugScroll u;
     quitting := v |}.


(** [NewKanbanModel], the interface fields at their zero values. *)
Definition NewUI : UI :=
  {| board := NewKanbanModel; paused := false; selectedCol := 0;
     selectedRow := 0; width := 0; height := 0; ready := false;
     showPopup := false; popupCardID := ""; popupScroll := 0;
     showHelp := false; showDebugLog := false; debugScroll := 0;
     quitting := false |}.

(** [m.columns[c]] for a [Column] given as its number: a number that
    names no column reads as the nil slice. *)
Definition columns_at (m : KanbanModel) (c : Z) : list addr :=
  if c =? 0 then columns m ColumnBacklog
  else if c =? 1 then columns m ColumnInProgress
  else if c =? 2 then columns m ColumnReview
  else if c =? 3 then columns m ColumnDone
  else [].

(** [card != nil], for a pointer read from a column. *)
Definition not_nil (m : KanbanModel) (a : addr) : bool :=
  bool_decide (is_Some (heap m !! a)).

(** The loop [for _, card := range cards] that returns the first
    pointer that is not nil. *)
Fixpoint first_card (m : KanbanModel) (l : list addr) : option addr :=
  match l with
  | [] => None
  | a :: rest => if not_nil m a then Some a else first_card m rest
  end.

(** [getSelectedCard]; [None] stands for nil. *)
Definition getSelectedCard (u : UI) : option addr :=
  let cards := columns_at (board u) (selectedCol u) in
  if (length cards =? 0)%nat then None
  else
    let picked :=
      if (0 <=? selectedRow u) && (selectedRow u <? Z.of_nat (length cards))
      then match cards !! Z.to_nat (selectedRow u) with
           | Some a => if not_nil (board u) a then Some a else None
           | None => None
           end
      else None in
    match picked with
    | Some a => Some a
    | None => first_card (board u) cards
    end.

(** The loop of [cycleActiveCard] that looks for the active card:
    the index of the first card carrying [id], from [i] on, or [-1]. *)
Fixpoint find_active (m : KanbanModel) (id : string) (l : list addr) (i : Z)
    : Z :=
  match l with
  | [] => -1
  | a :: rest =>
      match heap m !! a with
      | Some c => if String.eqb (ID c) id then i else find_active m id rest (i + 1)
      | None => find_active m id rest (i + 1)
      end
  end.

(** [cycleActiveCard]. *)
Definition cycleActiveCard (m : KanbanModel) : KanbanModel :=
  let inProgress := columns m ColumnInProgress in
  if (length inProgress =? 0)%nat then set_activeCardID m ""
  else
    let currentIdx := find_active m (activeCardID m) inProgress 0 in
    let nextIdx := Z.rem (currentIdx + 1) (Z.of_nat (length inProgress)) in
    let at_next :=
      if (0 <=? nextIdx) && (nextIdx <? Z.of_nat (length inProgress))
      then match inProgress !! Z.to_nat nextIdx with
           | Some a => heap m !! a
           | None => None
           end
      else None in
    match at_next with
    | Some c => set_activeCardID m (ID c)
    | None =>
        match inProgress !! 0%nat with
        | Some a =>
            match heap m !! a with
            | Some c => set_activeCardID m (ID c)
            | None => set_activeCardID m ""
            end
        | None => set_activeCardID m ""
        end
    end.

(** [completeUserTask]. *)
Definition completeUserTask (m : KanbanModel) (taskID notes : string)
    : KanbanModel :=
  match cards m !! taskID with
  | Some a =>
      match heap m !! a with
      | Some c =>
          if IsUserTask c
          then moveCard (update_card m a (fun c => set_Done c true)) a ColumnDone
          else m
      | None => m
      end
  | None => m
  end.

(** The two cases ["d"] and ["D"] of [handleKey]. *)
Definition mark_done (u : UI) : UI :=
  match getSelectedCard u with
  | Some a =>
      match heap (board u) !! a with
      | Some c =>
          if IsUserTask c
          then set_model u (completeUserTask (board u) (ID c) "")
          else u
      | None => u
      end
  | None => u
  end.

Definition key_in (key : string) (keys : list string) : bool :=
  existsb (String.eqb key) keys.

(** [handleKey], on [msg.String()]. *)
Definition handleKey (u : UI) (key : string) : UI :=
  if key_in key ["q"; "ctrl+c"] then set_quitting u true
  else if key_in key ["?"] then set_showHelp u (negb (showHelp u))
  else if key_in key ["`"; "~"] then
    set_debugScroll (set_showDebugLog u (negb (showDebugLog u)))
      (Z.of_nat (length (debugLog (board u))) - 1)
  else if key_in key ["h"; "left"] then
    if 0 <? selectedCol u
    then set_selectedRow (set_selectedCol u (selectedCol u - 1)) 0
    else u
  else if key_in key ["l"; "right"] then
    if selectedCol u <? 3
    then set_selectedRow (set_selectedCol u (selectedCol u + 1)) 0
    else u
  else if key_in key ["j"; "down"] then
    let cards := columns_at (board u) (selectedCol u) in
    if (0 <? Z.of_nat (length cards))
       && (selectedRow u <? Z.of_nat (length cards) - 1)
    then set_selectedRow u (selectedRow u + 1)
    else u
  else if key_in key ["k"; "up"] then
    if 0 <? selectedRow u then set_selectedRow u (selectedRow u - 1) else u
  else if key_in key ["enter"] then
    match getSelectedCard u with
    | Some a =>
        set_popupScroll
          (set_popupCardID (set_showPopup u true) (id_at (board u) a)) 0
    | None => u
    end
  else if key_in key ["tab"] then set_model u (cycleActiveCard (board u))
  else if key_in key [" "] then set_paused u (negb (paused u))
  else if key_in key ["d"] then mark_done u
  else if key_in key ["D"] then mark_done u
  else u.

(** Go's [int] is [intSize] bits wide, 32 or 64 by the platform, and
    wraps around on overflow. *)
Definition wrap_int (intSize z : Z) : Z :=
  (z + 2 ^ (intSize - 1)) mod 2 ^ intSize - 2 ^ (intSize - 1).

(** [handlePopupKey]; [m.popupScroll++] has no guard and can overflow. *)
Definition handlePopupKey (intSize : Z) (u : UI) (key : string) : UI :=
  if key_in key ["esc"; "q"] then set_showPopup u false
  else if key_in key ["j"; "down"] then
    set_popupScroll u (wrap_int intSize (popupScroll u + 1))
  else if key_in key ["k"; "up"] then
    if 0 <? popupScroll u then set_popupScroll u (popupScroll u - 1) else u
  else u.

(** [handleDebugLogKey]. *)
Definition handleDebugLogKey (u : UI) (key : string) : UI :=
  let last := Z.of_nat (length (debugLog (board u))) - 1 in
  if key_in key ["esc"; "q"; "`"; "~"] then set_showDebugLog u false
  else if key_in key ["j"; "down"] then
    if debugScroll u <? last then set_debugScroll u (debugScroll u + 1) else u
  else if key_in key ["k"; "up"] then
    if 0 <? debugScroll u then set_debugScroll u (debugScroll u - 1) else u
  else if key_in key ["g"] then set_debugScroll u 0
  else if key_in key ["G"] then set_debugScroll u last
  else u.

(** The messages [Update] acts on. *)
Inductive Msg :=
| KeyMsg (key : string)
| WindowSizeMsg (w h : Z)
| TickMsg
| TeamEventMsg (event : Event).

(** [Update]: the model it returns, on a platform whose [int] has
    [intSize] bits. *)
Definition Update (intSize : Z) (u : UI) (msg : Msg) : UI :=
  match msg with
  | KeyMsg key =>
      if showPopup u then handlePopupKey intSize u key
      else if showHelp u then set_showHelp u false
      else if showDebugLog u then handleDebugLogKey u key
      else handleKey u key
  | WindowSizeMsg w h => set_ready (set_height (set_width u w) h) true
  | TickMsg => u
  | TeamEventMsg event => set_model u (handleTeamEventCopy (board u) event)
  end.

(** The program loop: the messages are handled one at a time. *)
Definition run (intSize : Z) (msgs : list Msg) (u : UI) : UI :=
  fold_left (Update intSize) msgs u.

End Keys.

(** ** Board properties: vocabulary *)

Module BoardSpec.
Import Team Board.

(** The consistency of the board's three structures: every registered
    pointer leads to a card carrying its key as [ID] and listed in the
    column named by its [Column] field; every listed pointer leads to a
    card whose [Column] field names that list; no list holds a pointer
    twice. *)
Record board_inv (m : KanbanModel) : Prop := {
  inv_cards : forall id a, cards m !! id = Some a ->
    exists c, heap m !! a = Some c /\ ID c = id /\ a ∈ columns m (CardColumn c);
  inv_listed : forall col a, a ∈ columns m col ->
    exists c, heap m !! a = Some c /\ CardColumn c = col;
  inv_nodup : forall col, NoDup (columns m col)
}.

(** How often a pointer occurs in a column list. *)
Definition occurrences (m : KanbanModel) (col : Column) (a : addr) : nat :=
  length (filter (fun b => b = a) (columns m col)).

(** The pointer [a] sits in exactly one column list, once, and that list
    is [col]. *)
Definition in_exactly (m : KanbanModel) (a : addr) (col : Column) : Prop :=
  occurrences m col a = 1%nat /\
  forall col', col' <> col -> occurrences m col' a = 0%nat.

(** The column an event sends the card it names to, if it has one:
    the stage of the workflow the event stands for. *)
Definition target_column (e : Event) : option Column :=
  match EvType e with
  | EventTaskCreated | EventUserTaskCreated =>
      match Data e with
      | TaskCreatedData _ _ _ _ _ => Some ColumnBacklog
      | _ => None
      end
  | EventTaskStarted => Some ColumnInProgress
  | EventTaskCompleted | EventTaskMovedToReview => Some ColumnReview
  | EventPMApproved => Some ColumnDone
  | _ => None
  end.

(** The events naming one task arrive in workflow order: a later event
    never stands for an earlier stage than a former one. *)
Definition in_workflow_order (events : list Event) : Prop :=
  forall i j e1 e2 c1 c2,
    (i < j)%nat -> events !! i = Some e1 -> events !! j = Some e2 ->
    TaskID e1 = TaskID e2 ->
    target_column e1 = Some c1 -> target_column e2 = Some c2 ->
    (column_index c1 <= column_index c2)%nat.

(** The column of the card registered under [id] after an event, from
    its column before ([None]: no such card). *)
Definition next_column (e : Event) (id : string) (old : option Column)
    : option Column :=
  if String.eqb (TaskID e) id then
    match target_column e with
    | Some ColumnBacklog => Some ColumnBacklog
    | Some col => match old with Some _ => Some col | None => None end
    | None => old
    end
  else old.

(** The property of the specification, as it is worded: whatever the
    events, no step of the update loop moves a card to an earlier
    column. *)
Definition never_regresses : Prop :=
  forall (events : list Event) (e : Event) (id : string) (col col' : Column),
    column_of (process events NewKanbanModel) id = Some col ->
    column_of (process (events ++ [e]) NewKanbanModel) id = Some col' ->
    (column_index col <= column_index col')%nat.

(** The property of the specification for the blocked flag, as it is
    worded: the flag is set exactly when some dependency is not Done. *)
Definition unsatisfied (m : KanbanModel) (dep : string) : bool :=
  match column_of m dep with
  | Some ColumnDone => false
  | _ => true
  end.

Definition blocked_as_specified (m : KanbanModel) (c : KanbanCard) : bool :=
  existsb (unsatisfied m) (DependsOn c).

(** Event builders for the examples. *)
Definition task_created (id : string) (dependsOn : list string) : Event :=
  NewTaskEvent EventTaskCreated id "pm"
    (TaskCreatedData id id "gpt" false dependsOn).
Definition task_event (t : EventType) (id : string) : Event :=
  NewTaskEvent t id "gpt" NilData.

End BoardSpec.

(** ** PM selector properties: vocabulary *)

Module PMSpec.
Import Strings PMSelector.

(** How many strings of [l] occur in the task text. *)
Definition hits (taskLower : string) (l : list string) : Z :=
  Z.of_nat (length (List.filter (Contains taskLower) l)).

(** The task-type bonus in closed form: 3 for the member a category
    favours when some keyword of the category occurs in the task. *)
Definition category (taskLower : string) (keywords : list string)
    (favoured : bool) : Z :=
  if favoured && existsb (Contains taskLower) keywords then 3 else 0.

Definition bonus_of (taskLower aiID : string) : Z :=
  category taskLower codingKeywords (String.eqb aiID "gpt")
  + category taskLower writingKeywords (String.eqb aiID "claude")
  + category taskLower researchKeywords (String.eqb aiID "gemini")
  + category taskLower quickKeywords (String.eqb aiID "groq").

(** The candidates: the entries of the strength table, in table order,
    whose member is available. *)
Definition candidates (availableMembers : list string) : list PMStrength :=
  List.filter (fun pm => is_available availableMembers (AIID pm)) GetPMStrengths.

(** The body of the main loop on a candidate. *)
Definition challenge (taskLower : string) (best : string * Z) (pm : PMStrength)
    : string * Z :=
  let score := candidate_score taskLower pm in
  if best.2 <? score then (AIID pm, score) else best.






End PMSpec.

(** ** Engine properties: vocabulary *)

Module EngineSpec.
Import Team Engine.

Global Instance Helper_eq_dec : EqDecision Helper.
Proof. solve_decision. Defined.

(** The actions that matter to the phase machine: assignments to the
    phase, entries into helpers, and the events the runner itself emits
    about phases, errors and completion. *)
Inductive Mark :=
| MSet (p : Phase)
| MCall (h : Helper)
| MChanged (oldPhase newPhase : Phase)
| MError (message : string)
| MComplete.

Global Instance Mark_eq_dec : EqDecision Mark.
Proof. solve_decision. Defined.

Definition mark_event (event : Event) : option Mark :=
  match EvType event, Data event with
  | EventPhaseChanged, PhaseChangedData oldPhase newPhase =>
      if String.eqb (TaskID event) "" && String.eqb (Actor event) "system"
      then Some (MChanged oldPhase newPhase) else None
  | EventError, ErrorData _ _ message =>
      if String.eqb (Actor event) "system" then Some (MError message) else None
  | EventSessionComplete, NilData =>
      if String.eqb (TaskID event) "" && String.eqb (Actor event) "system"
      then Some MComplete else None
  | _, _ => None
  end.

Definition mark (a : Action) : option Mark :=
  match a with
  | Emit event => mark_event event
  | SetPhase p => Some (MSet p)
  | Call h => Some (MCall h)
  | _ => None
  end.

Definition marks (tr : list Action) : list Mark := omap mark tr.

(** The values [session.Phase] takes after its initial
    [PhaseAnalysis], in order. *)
Definition phases (tr : list Action) : list Phase :=
  omap (fun a => match a with SetPhase p => Some p | _ => None end) tr.

(** The phase whose work a helper of [Run] does.  The header is printed
    before the first event and belongs to none. *)
Definition helper_phase (h : Helper) : option Phase :=
  match h with
  | H_printHeader => None
  | H_selectPM => Some PhaseAnalysis
  | H_createPlan | H_requestApproval | H_MkdirAll => Some PhasePlanning
  | H_Execute => Some PhaseExecution
  | H_runReview => Some PhaseReview
  | H_deliver => Some PhaseDelivery
  | H_printSummary => Some PhaseComplete
  end.

Definition session_complete : Event :=
  NewEvent EventSessionComplete "system" NilData.

(** Where a run ends. *)
Inductive Stage :=
| PlanningFailed (err : error)
| DirectoryFailed (err : error)
| ExecutionFailed (err : error)
| ReviewFailed (err : error)
| Finished.

Definition stage_error (stage : Stage) : option error :=
  match stage with
  | PlanningFailed err => Some ("planning failed: " +:+ err)
  | DirectoryFailed err => Some ("creating project directory: " +:+ err)
  | ExecutionFailed err => Some ("execution failed: " +:+ err)
  | ReviewFailed err => Some ("review failed: " +:+ err)
  | Finished => None
  end.

Definition stage_index (stage : Stage) : nat :=
  match stage with
  | PlanningFailed _ => 0 | DirectoryFailed _ => 1 | ExecutionFailed _ => 2
  | ReviewFailed _ => 3 | Finished => 4
  end.

(** The marks of a run that ends at [stage]; [gate]: the checkpoint
    level is not none, [dir]: an output directory is given. *)
Definition expected_marks (gate dir : bool) (stage : Stage) : list Mark :=
  [MCall H_printHeader; MChanged (-1) PhaseAnalysis; MCall H_selectPM;
   MChanged PhaseAnalysis PhasePlanning; MSet PhasePlanning;
   MCall H_createPlan]
  ++ match stage with
     | PlanningFailed _ => [MError "Planning failed"]
     | _ =>
       (if gate then [MCall H_requestApproval] else [])
       ++ (if dir then [MCall H_MkdirAll] else [])
       ++ match stage with
          | DirectoryFailed _ => []
          | _ =>
            [MChanged PhasePlanning PhaseExecution; MSet PhaseExecution;
             MCall H_Execute]
            ++ match stage with
               | ExecutionFailed _ => [MError "Execution failed"]
               | _ =>
                 [MChanged PhaseExecution PhaseReview; MSet PhaseReview;
                  MCall H_runReview]
                 ++ match stage with
                    | ReviewFailed _ => []
                    | _ =>
                      [MChanged PhaseReview PhaseDelivery; MSet PhaseDelivery;
                       MCall H_deliver; MSet PhaseComplete; MComplete;
                       MCall H_printSummary]
                    end
               end
          end
     end.

Definition gate_of (opts : Options) : bool :=
  negb (String.eqb (CheckpointLevel opts) Checkpoint.CheckpointNone).
Definition dir_of (opts : Options) : bool :=
  negb (String.eqb (OutputDir opts) "").

(** A computation that adds the marks [l] to the trace, whatever the
    state it starts from. *)
Definition adds {A} (m : M A) (l : list Mark) : Prop :=
  forall st, marks (trace (snd (m st))) = marks (trace st) ++ l.

(** The check behind the ordering properties: walking a list of marks,
    every assignment of a phase other than Complete and every helper of
    such a phase must find the phase-changed mark into that phase among
    the marks [seen] before it, and every assignment of Complete must be
    followed at once by the session-complete mark. *)
Definition announced (seen : list Mark) (p : Phase) : bool :=
  bool_decide (MChanged (p - 1) p ∈ seen).

Fixpoint well_announced (seen rest : list Mark) : bool :=
  match rest with
  | [] => true
  | k :: rest' =>
      match k with
      | MSet p =>
          if p =? PhaseComplete then
            match rest' with MComplete :: _ => true | _ => false end
          else announced seen p
      | MCall h =>
          match helper_phase h with
          | Some p => if p =? PhaseComplete then true else announced seen p
          | None => true
          end
      | MChanged _ newPhase => negb (newPhase =? PhaseComplete)
      | MError message => negb (String.eqb message "PM selection failed")
      | MComplete => true
      end
      && well_announced (seen ++ [k]) rest'
  end.

(** The ordering property of the specification, as it is worded: every
    assignment to the session's phase has its phase-changed event,
    carrying the old and the new phase, earlier in the run. *)
Definition every_transition_announced : Prop :=
  forall (env : Env) (opts : Options) (l1 l2 : list Action) (p : Phase),
    trace (snd (Run env opts start)) = l1 ++ SetPhase p :: l2 ->
    In (Emit (phase_changed (p - 1) p)) l1.

(** *** Failure policy of the mode executors *)

(** The [n]-th invocation of the run succeeds, or fails with [err],
    whoever is invoked with whatever request. *)
Definition call_ok (env : Env) (n : nat) : Prop :=
  forall aiID req, is_Ok (invoke env n aiID req) = true.
Definition call_fails (env : Env) (n : nat) (err : error) : Prop :=
  forall aiID req, invoke env n aiID req = Err err.


(** An environment in which every invocation answers [reply], except
    the invocations numbered in [failing], which fail with "boom". *)
Definition scripted (failing : list nat) (reply : string) : Env :=
  {| invoke := fun n _ _ =>
       if bool_decide (n ∈ failing) then Err "boom"
       else Ok {| Content := reply; Model := "model"; FinishReason := "stop";
                  TokensUsed := 0 |};
     stream := fun i _ _ =>
       Ok [ {| ChunkContent := reply; ChunkDone := false; ChunkError := None |} ];
     displayNames := ∅;
     mkdirAll := fun _ => None;
     saveArtifact := fun _ _ => None;
     writeSummary := fun _ => None;
     joinPath := fun dir name => dir +:+ "/" +:+ name;
     parsePlanResponse := fun _ opts =>
       ({| Summary := "Task execution plan"; Steps := [];
           Assignments := ∅; EstDuration := "" |},
        if String.eqb (Mode opts) "" then ModeFreeForm else Mode opts);
     elapsed := "0s" |}.

Definition example_options (mode : WorkMode) : Options :=
  {| Task := "Build a REST API"; PM := ""; Mode := mode;
     Members := ["gpt"; "claude"]; IncludeArbiter := false;
     CheckpointLevel := Checkpoint.CheckpointMajor; ShowCosts := false;
     OutputDir := ""; Verbose := false |}.

Definition example_session (mode : WorkMode) : Session :=
  {| sTask := "Build a REST API"; sPM := "gpt"; sMode := mode;
     sMembers := ["gpt"; "claude"]; sPhase := PhaseExecution;
     sProjectDir := ""; sArtifacts := []; sPlan := None |}.

End EngineSpec.

(** ** Mode executors: vocabulary *)

Module ModesSpec.
Import Team Engine.

(** The members a consultation asks: everyone but the PM. *)
Definition consulted (pm : string) (members : list string) : nat :=
  length (List.filter (fun member => negb (String.eqb member pm)) members).

(** A computation only appends to the trace. *)
Definition grows {A} (m : M A) : Prop :=
  forall st a, In a (trace st) -> In a (trace (m st).2).

(** Who was invoked, in order. *)
Definition invoked_id (a : Action) : option string :=
  match a with Invoked aiID _ => Some aiID | _ => None end.
Definition invoked_ids (tr : list Action) : list string := omap invoked_id tr.

(** The events a list of actions emits, in order. *)
Definition emitted_event (a : Action) : option Event :=
  match a with Emit event => Some event | _ => None end.
Definition emitted (tr : list Action) : list Event := omap emitted_event tr.

(** A computation that adds [l] to what [f] picks from the trace,
    whatever the state it starts from. *)
Definition yields {A B} (f : Action -> option B) (m : M A) (l : list B)
    : Prop :=
  forall st, omap f (trace (m st).2) = omap f (trace st) ++ l.

(** Who is invoked over the turns of pair programming: the driver, then
    the navigator, the two changing places after every turn. *)
Fixpoint turn_ids (turns : nat) (driver navigator : string) : list string :=
  match turns with
  | O => []
  | S turns => driver :: navigator :: turn_ids turns navigator driver
  end.

(** The [task-started] events of divide and conquer. *)
Definition started_events (members : list string) : list Event :=
  imap (fun i member => NewTaskEvent EventTaskStarted (taskID_of i) member NilData)
       members.

(** The name of the artifact of each mode. *)
Definition output_name (mode : WorkMode) : string :=
  if String.eqb mode ModePairProgramming then "pair_output.md"
  else if String.eqb mode ModeConsultation then "consultation_output.md"
  else if String.eqb mode ModeRoundRobin then "round_robin_output.md"
  else if String.eqb mode ModeDivideConquer then "merged_output.md"
  else "freeform_output.md".

(** An environment in which every invocation answers "ok" and every
    stream sends [chunks]. *)
Definition streaming (chunks : list StreamChunk) : Env :=
  let env := EngineSpec.scripted [] "ok" in
  {| invoke := invoke env;
     stream := fun _ _ _ => Ok chunks;
     displayNames := displayNames env;
     mkdirAll := mkdirAll env;
     saveArtifact := saveArtifact env;
     writeSummary := writeSummary env;
     joinPath := joinPath env;
     parsePlanResponse := parsePlanResponse env;
     elapsed := elapsed env |}.

(** The invocations, in order: who was asked what. *)
Definition invoked_call (a : Action) : option (string * Request) :=
  match a with Invoked aiID req => Some (aiID, req) | _ => None end.
Definition invoked_calls (tr : list Action) : list (string * Request) :=
  omap invoked_call tr.

(** The results of the workers that left no error, in roster order,
    each followed by an empty line. *)
Definition successes (workers : list (string * option error * list Action))
    : string :=
  foldr (fun w rest => w.1.1 +:+ nl +:+ nl +:+ rest) ""
    (List.filter (fun w => bool_decide (w.1.2 = None)) workers).

(** An environment in which every invocation answers "ok", the stream
    of the second worker cannot be opened and every other stream sends
    one chunk. *)
Definition one_stream_down : Env :=
  let env := EngineSpec.scripted [] "ok" in
  {| invoke := invoke env;
     stream := fun i _ _ =>
       if (i =? 1)%nat then Err "down"
       else Ok [ {| ChunkContent := "part"; ChunkDone := false;
                    ChunkError := None |} ];
     displayNames := displayNames env;
     mkdirAll := mkdirAll env;
     saveArtifact := saveArtifact env;
     writeSummary := writeSummary env;
     joinPath := joinPath env;
     parsePlanResponse := parsePlanResponse env;
     elapsed := elapsed env |}.

(** A session of three members, in pair programming, led by [pm]. *)
Definition example_trio (pm : string) : Session :=
  {| sTask := "Build a REST API"; sPM := pm; sMode := ModePairProgramming;
     sMembers := ["gpt"; "claude"; "gemini"]; sPhase := PhaseExecution;
     sProjectDir := ""; sArtifacts := []; sPlan := None |}.

End ModesSpec.

(** ** The parser of the PM's plan: vocabulary *)

Module PlanSpec.
Import Strings Team Engine PlanParser.

Definition known_modes : list WorkMode :=
  [ModePairProgramming; ModeConsultation; ModeRoundRobin; ModeDivideConquer;
   ModeFreeForm].

(** The mode the options allow: the forced one, or one of the five. *)
Definition mode_allowed (opts : Options) (mode : WorkMode) : Prop :=
  if String.eqb (Mode opts) "" then mode ∈ known_modes else mode = Mode opts.

(** Steps numbered from 1 in the order they were read, all pending and
    without dependencies. *)
Definition numbered (steps : list PlanStep) : Prop :=
  forall i step, steps !! i = Some step ->
    StepID step = "step_" +:+ pretty (i + 1)%nat /\
    StepStatus step = "pending" /\ StepDependsOn step = [].

(** A reply of the PM: a summary, a mode, three numbered steps, the
    last of them numbered 7. *)
Definition example_reply : string :=
  String.concat (String newline "")
    [ "SUMMARY: Build the service";
      "MODE: round_robin";
      "STEPS:";
      "1. Design the API [ASSIGNED: claude]";
      "2. Write the handlers [ASSIGNED: gpt]";
      "7. Test" ].

End PlanSpec.

(** ** The keyboard of the Kanban board: vocabulary *)

Module KeysSpec.
Import Team Board Keys.

(** The cursor names a column of the board and no negative row. *)
Definition cursor_ok (u : UI) : Prop :=
  0 <= selectedCol u <= 3 /\ 0 <= selectedRow u.

(** An overlay is open: the card popup, the help or the debug log. *)
Definition overlay (u : UI) : bool :=
  showPopup u || showHelp u || showDebugLog u.

(** The debug log holds at most 100 entries. *)
Definition log_ok (m : KanbanModel) : Prop :=
  (length (debugLog m) <= 100)%nat.

(** A board for the examples: a task of the user and a task of an AI,
    both created, the second one started. *)
Definition user_task (id : string) : Event :=
  NewTaskEvent EventUserTaskCreated id "pm"
    (TaskCreatedData id id "user" true []).

Definition example_ui : UI :=
  run 64 [TeamEventMsg (user_task "t1");
       TeamEventMsg (BoardSpec.task_created "t2" []);
       TeamEventMsg (BoardSpec.task_event EventTaskStarted "t2")] NewUI.

End KeysSpec.

(** ** Facts about strings *)

Module StringFacts.

Lemma append_cons c (s1 s2 : string) :
  String c s1 +:+ s2 = String c (s1 +:+ s2).
Proof. reflexivity. Qed.


Lemma append_assoc (s1 s2 s3 : string) :
  (s1 +:+ s2) +:+ s3 = s1 +:+ (s2 +:+ s3).
Proof.
  induction s1 as [|c s1 IH]; [done|]. rewrite !append_cons. by rewrite IH.
Qed.

Lemma append_nil_r (s : string) : s +:+ "" = s.
Proof.
  induction s as [|c s IH]; [done|]. rewrite append_cons. by rewrite IH.
Qed.


End StringFacts.

(** ** Board properties: proofs *)

Module BoardProps.
Import Team Board BoardSpec.

Lemma set_column_eq cols col l : set_column cols col l col = l.
Proof. unfold set_column. by rewrite decide_True. Qed.

Lemma set_column_ne cols col l col' :
  col' <> col -> set_column cols col l col' = cols col'.
Proof. intros. unfold set_column. by rewrite decide_False. Qed.

(** Changes outside [heap], [cards] and [columns] keep the invariant. *)
Lemma board_inv_frame m m' :
  heap m' = heap m -> cards m' = cards m -> columns m' = columns m ->
  board_inv m -> board_inv m'.
Proof.
  intros Hh Hc Hl [H1 H2 H3]. split; rewrite ?Hh, ?Hc, ?Hl; auto.
Qed.

Lemma board_inv_addDebugLog m t a s :
  board_inv m -> board_inv (addDebugLog m t a s).
Proof. by apply board_inv_frame. Qed.

Lemma board_inv_init : board_inv NewKanbanModel.
Proof.
  split; simpl.
  - intros id a H. by rewrite lookup_empty in H.
  - intros col a H. by apply elem_of_nil in H.
  - intros _. constructor.
Qed.

(** A write through a pointer that keeps [ID] and [Column]. *)
Lemma board_inv_update_card m a f :
  (forall c, ID (f c) = ID c /\ CardColumn (f c) = CardColumn c) ->
  board_inv m -> board_inv (update_card m a f).
Proof.
  intros Hf [H1 H2 H3]. unfold update_card.
  destruct (heap m !! a) as [c|] eqn:Ha; [|by split].
  destruct (Hf c) as [Hid Hcol].
  assert (Hlt : (a < length (heap m))%nat) by by eapply lookup_lt_Some.
  split; simpl.
  - intros id b Hb. destruct (H1 id b Hb) as (cb & Hcb & Hidb & Hin).
    destruct (decide (b = a)) as [->|Hne].
    + exists (f c). rewrite list_lookup_insert_eq by done.
      assert (cb = c) by congruence. subst cb.
      by rewrite Hid, Hcol.
    + exists cb. by rewrite list_lookup_insert_ne.
  - intros col b Hb. destruct (H2 col b Hb) as (cb & Hcb & Hcolb).
    destruct (decide (b = a)) as [->|Hne].
    + exists (f c). rewrite list_lookup_insert_eq by done.
      assert (cb = c) by congruence. subst cb. by rewrite Hcol.
    + exists cb. by rewrite list_lookup_insert_ne.
  - done.
Qed.

(** Listed pointers are allocated. *)
Lemma listed_lt m col a :
  board_inv m -> a ∈ columns m col -> (a < length (heap m))%nat.
Proof.
  intros Hinv Hin. destruct (inv_listed m Hinv col a Hin) as (c & Hc & _).
  by eapply lookup_lt_Some.
Qed.

(** Card creation: a fresh object, registered and appended to Backlog. *)
Lemma board_inv_create_card m id c :
  ID c = id -> CardColumn c = ColumnBacklog ->
  board_inv m -> board_inv (create_card m id c).
Proof.
  intros Hid Hcol Hinv. pose proof Hinv as [H1 H2 H3].
  unfold create_card. split; simpl.
  - intros id' b Hb.
    destruct (decide (id = id')) as [<-|Hne].
    + rewrite lookup_insert_eq in Hb. inversion Hb; subst b.
      exists c. rewrite list_lookup_middle by done.
      rewrite Hcol, set_column_eq. split_and!; [done..|].
      apply elem_of_app. right. by apply list_elem_of_singleton.
    + rewrite lookup_insert_ne in Hb by done.
      destruct (H1 id' b Hb) as (cb & Hcb & Hidb & Hin).
      exists cb. rewrite lookup_app_l by by eapply lookup_lt_Some.
      split_and!; [done..|].
      destruct (decide (CardColumn cb = ColumnBacklog)) as [Heq|Hneq].
      * rewrite Heq, set_column_eq. apply elem_of_app. left. by rewrite <- Heq.
      * by rewrite set_column_ne.
  - intros col b Hb.
    destruct (decide (col = ColumnBacklog)) as [->|Hneq].
    + rewrite set_column_eq in Hb. apply elem_of_app in Hb as [Hb|Hb].
      * destruct (H2 _ _ Hb) as (cb & Hcb & Hcolb). exists cb.
        by rewrite lookup_app_l by by eapply lookup_lt_Some.
      * apply list_elem_of_singleton in Hb. subst b. exists c.
        by rewrite list_lookup_middle.
    + rewrite set_column_ne in Hb by done.
      destruct (H2 _ _ Hb) as (cb & Hcb & Hcolb). exists cb.
      by rewrite lookup_app_l by by eapply lookup_lt_Some.
  - intros col. destruct (decide (col = ColumnBacklog)) as [->|Hneq].
    + rewrite set_column_eq. apply NoDup_app. split_and!; [done| |].
      * intros b Hb Hb'. apply list_elem_of_singleton in Hb'. subst b.
        pose proof (listed_lt _ _ _ Hinv Hb). lia.
      * apply NoDup_singleton.
    + by rewrite set_column_ne.
Qed.

Lemma other_card_true h id a :
  other_card h id a <-> exists c, h !! a = Some c /\ ID c <> id.
Proof.
  unfold other_card. destruct (h !! a) as [c|]; simpl.
  - destruct (String.eqb_spec (ID c) id); simpl; split.
    + intros [].
    + intros (c' & Hc' & Hne). congruence.
    + intros _. eauto.
    + done.
  - split; [intros []|]. by intros (c & Hc & _).
Qed.

(** [moveCard] on a registered card: remove, retarget, append. *)
Lemma board_inv_moveCard m id a toColumn :
  cards m !! id = Some a ->
  board_inv m -> board_inv (moveCard m a toColumn).
Proof.
  intros Hreg Hinv. pose proof Hinv as [H1 H2 H3].
  destruct (H1 id a Hreg) as (c & Hc & Hidc & Hinc).
  unfold moveCard. rewrite Hc.
  assert (Hlt : (a < length (heap m))%nat) by by eapply lookup_lt_Some.
  set (old := CardColumn c).
  set (kept := filter (fun b => other_card (heap m) (ID c) b) (columns m old)).
  assert (Hkept : forall b, b ∈ kept -> b ∈ columns m old /\ b <> a).
  { intros b Hb. apply list_elem_of_filter in Hb as [Hb1 Hb2]. split; [done|].
    intros ->. apply other_card_true in Hb1 as (c' & Hc' & Hne). congruence. }
  assert (Hkeep : forall b cb, b ∈ columns m old -> heap m !! b = Some cb ->
                    ID cb <> ID c -> b ∈ kept).
  { intros b cb Hb Hcb Hne. apply list_elem_of_filter. split; [|done].
    apply other_card_true. eauto. }
  split; simpl.
  - (* registered pointers *)
    intros id' b Hb. destruct (H1 id' b Hb) as (cb & Hcb & Hidb & Hinb).
    destruct (decide (b = a)) as [->|Hne].
    + exists (set_Column c toColumn). rewrite list_lookup_insert_eq by done.
      assert (cb = c) by congruence. subst cb. simpl.
      split_and!; [done..|]. rewrite set_column_eq.
      apply elem_of_app. right. by apply list_elem_of_singleton.
    + exists cb. rewrite list_lookup_insert_ne by done.
      split_and!; [done..|].
      assert (Hidne : ID cb <> ID c).
      { intros Heq. apply Hne. rewrite Hidb, Hidc in Heq. subst id'. congruence. }
      assert (Hmid : b ∈ set_column (columns m) old kept (CardColumn cb)).
      { destruct (decide (CardColumn cb = old)) as [Heq|Hneq].
        - rewrite Heq, set_column_eq. eapply Hkeep; [|done..]. by rewrite <- Heq.
        - by rewrite set_column_ne. }
      destruct (decide (CardColumn cb = toColumn)) as [Heq|Hneq].
      * rewrite Heq, set_column_eq. apply elem_of_app. left. by rewrite <- Heq.
      * by rewrite set_column_ne.
  - (* listed pointers *)
    intros col b Hb.
    assert (Hcase : b = a /\ col = toColumn \/
                    b <> a /\ b ∈ columns m col).
    { destruct (decide (col = toColumn)) as [->|Hneq].
      - rewrite set_column_eq in Hb. apply elem_of_app in Hb as [Hb|Hb].
        + right. destruct (decide (toColumn = old)) as [Heq|Hneq].
          * rewrite Heq, set_column_eq in Hb. apply Hkept in Hb as [? ?].
            by rewrite Heq.
          * rewrite set_column_ne in Hb by done. split; [|done].
            intros ->. destruct (H2 _ _ Hb) as (c' & Hc' & Hcol').
            apply Hneq. unfold old. congruence.
        + apply list_elem_of_singleton in Hb. by left.
      - rewrite set_column_ne in Hb by done. right.
        destruct (decide (col = old)) as [->|Hneq'].
        + rewrite set_column_eq in Hb. apply Hkept in Hb as [? ?]. done.
        + rewrite set_column_ne in Hb by done. split; [|done].
          intros ->. destruct (H2 _ _ Hb) as (c' & Hc' & Hcol').
          apply Hneq'. unfold old. congruence. }
    destruct Hcase as [[-> ->]|[Hne Hin]].
    + exists (set_Column c toColumn). by rewrite list_lookup_insert_eq.
    + destruct (H2 _ _ Hin) as (cb & Hcb & Hcolb). exists cb.
      by rewrite list_lookup_insert_ne.
  - (* no duplicates *)
    intros col.
    assert (Hmid : forall col', NoDup (set_column (columns m) old kept col')).
    { intros col'. destruct (decide (col' = old)) as [->|Hneq].
      - rewrite set_column_eq. by apply NoDup_filter.
      - by rewrite set_column_ne. }
    destruct (decide (col = toColumn)) as [->|Hneq].
    + rewrite set_column_eq. apply NoDup_app. split_and!; [done| |].
      * intros b Hb Hb'. apply list_elem_of_singleton in Hb'. subst b.
        destruct (decide (toColumn = old)) as [Heq|Hneq].
        -- rewrite Heq, set_column_eq in Hb. by apply Hkept in Hb as [_ ?].
        -- rewrite set_column_ne in Hb by done.
           destruct (H2 _ _ Hb) as (c' & Hc' & Hcol').
           apply Hneq. unfold old. congruence.
      * apply NoDup_singleton.
    + by rewrite set_column_ne.
Qed.

Lemma moveCard_cards m a col : cards (moveCard m a col) = cards m.
Proof. unfold moveCard. by destruct (heap m !! a). Qed.

Lemma update_card_cards m a f : cards (update_card m a f) = cards m.
Proof. unfold update_card. by destruct (heap m !! a). Qed.

Lemma board_inv_set_activityStatus m s :
  board_inv m -> board_inv (set_activityStatus m s).
Proof. by apply board_inv_frame. Qed.

Lemma board_inv_set_header m p ph wm ps :
  board_inv m -> board_inv (set_header m p ph wm ps).
Proof. by apply board_inv_frame. Qed.

Lemma board_inv_set_activeCardID m id :
  board_inv m -> board_inv (set_activeCardID m id).
Proof. by apply board_inv_frame. Qed.

Lemma board_inv_set_complete m b :
  board_inv m -> board_inv (set_complete m b).
Proof. by apply board_inv_frame. Qed.

(** Strip the assignments that do not touch the board structures. *)
Ltac board_frame :=
  repeat first
    [ apply board_inv_addDebugLog | apply board_inv_set_activityStatus
    | apply board_inv_set_header | apply board_inv_set_activeCardID
    | apply board_inv_set_complete ].

(** Every event keeps the invariant. *)
Lemma board_inv_handle m e :
  board_inv m -> board_inv (handleTeamEventCopy m e).
Proof.
  intros Hinv. unfold handleTeamEventCopy.
  match goal with
  | |- context [addDebugLog m ?t ?a ?s] =>
      pose proof (board_inv_addDebugLog m t a s Hinv) as H0;
      set (m0 := addDebugLog m t a s) in *
  end.
  clearbody m0. clear Hinv m.
  destruct (EvType e); try done.
  - destruct (Data e); try done. by board_frame.
  - destruct (Data e); try done. by board_frame.
  - destruct (Data e); try done; by board_frame.
  - destruct (Data e); try done. board_frame.
    by apply board_inv_create_card.
  - destruct (cards m0 !! TaskID e) as [a|] eqn:Ha; [|done].
    board_frame. by eapply board_inv_moveCard.
  - board_frame.
    destruct (cards m0 !! TaskID e) as [a|] eqn:Ha; [|done].
    destruct (Data e) as [| | content progress | | | | | | ]; try done.
    assert (board_inv (update_card m0 a (fun c => set_progress c content progress))).
    { by apply board_inv_update_card. }
    destruct (50 <? String.length content)%nat; [|done].
    by board_frame.
  - destruct (cards m0 !! TaskID e) as [a|] eqn:Ha; [|done].
    board_frame.
    eapply (board_inv_moveCard _ (TaskID e)).
    + by rewrite update_card_cards.
    + by apply board_inv_update_card.
  - destruct (cards m0 !! TaskID e) as [a|] eqn:Ha; [|done].
    board_frame. by eapply board_inv_moveCard.
  - destruct (cards m0 !! TaskID e) as [a|] eqn:Ha; [|done].
    board_frame. by eapply board_inv_moveCard.
  - destruct (Data e); try done. board_frame.
    by apply board_inv_create_card.
  - destruct (Data e) as [| | | | | | err taskID message | | ]; try done.
    board_frame.
    destruct (cards m0 !! taskID) as [a|]; [|done].
    by apply board_inv_update_card.
  - by board_frame.
Qed.

Lemma board_inv_process events m :
  board_inv m -> board_inv (process events m).
Proof.
  revert m. induction events as [|e events IH]; intros m Hinv; [done|].
  simpl. apply IH. by apply board_inv_handle.
Qed.

(** *** Columns of registered cards *)

Lemma process_snoc events e m :
  process (events ++ [e]) m = handleTeamEventCopy (process events m) e.
Proof. unfold process. by rewrite fold_left_app. Qed.

Lemma column_of_frame m m' id :
  heap m' = heap m -> cards m' = cards m -> column_of m' id = column_of m id.
Proof. intros Hh Hc. unfold column_of, card_of. by rewrite Hh, Hc. Qed.

Lemma column_of_update_card m a f id :
  (forall c, CardColumn (f c) = CardColumn c) ->
  column_of (update_card m a f) id = column_of m id.
Proof.
  intros Hf. unfold update_card.
  destruct (heap m !! a) as [c|] eqn:Ha; [|done].
  unfold column_of, card_of. simpl.
  destruct (cards m !! id) as [b|]; [|done].
  destruct (decide (b = a)) as [->|Hne].
  - rewrite list_lookup_insert_eq by by eapply lookup_lt_Some.
    rewrite Ha. simpl. by rewrite Hf.
  - by rewrite list_lookup_insert_ne.
Qed.

Lemma column_of_moveCard_same m id a toColumn :
  cards m !! id = Some a -> is_Some (heap m !! a) ->
  column_of (moveCard m a toColumn) id = Some toColumn.
Proof.
  intros Hreg [c Hc]. unfold moveCard. rewrite Hc.
  unfold column_of, card_of. simpl. rewrite Hreg.
  by rewrite list_lookup_insert_eq by by eapply lookup_lt_Some.
Qed.

Lemma column_of_moveCard_other m id a toColumn :
  cards m !! id <> Some a ->
  column_of (moveCard m a toColumn) id = column_of m id.
Proof.
  intros Hreg. unfold moveCard.
  destruct (heap m !! a) as [c|] eqn:Hc; [|done].
  unfold column_of, card_of. simpl.
  destruct (cards m !! id) as [b|]; [|done].
  rewrite list_lookup_insert_ne; [done|]. congruence.
Qed.

Lemma column_of_create_card m id c id' :
  board_inv m ->
  column_of (create_card m id c) id'
  = if decide (id = id') then Some (CardColumn c) else column_of m id'.
Proof.
  intros Hinv. unfold column_of, card_of, create_card. simpl.
  case_decide as Hid.
  - subst id'. rewrite lookup_insert_eq. by rewrite list_lookup_middle.
  - rewrite lookup_insert_ne by done.
    destruct (cards m !! id') as [b|] eqn:Hb; [|done].
    destruct (inv_cards m Hinv id' b Hb) as (cb & Hcb & _).
    by rewrite lookup_app_l by by eapply lookup_lt_Some.
Qed.

(** A card is registered under its own [ID] only. *)
Lemma registered_once m id id' a :
  board_inv m -> cards m !! id = Some a -> cards m !! id' = Some a -> id = id'.
Proof.
  intros Hinv H1 H2.
  destruct (inv_cards m Hinv _ _ H1) as (c1 & Hc1 & Hid1 & _).
  destruct (inv_cards m Hinv _ _ H2) as (c2 & Hc2 & Hid2 & _).
  congruence.
Qed.

Lemma column_of_Some m id col :
  board_inv m -> column_of m id = Some col ->
  exists a, cards m !! id = Some a /\ is_Some (heap m !! a).
Proof.
  intros Hinv. unfold column_of, card_of.
  destruct (cards m !! id) as [a|] eqn:Ha; [|done].
  intros _. destruct (inv_cards m Hinv _ _ Ha) as (c & Hc & _). eauto.
Qed.

Lemma column_of_None m id :
  board_inv m -> column_of m id = None -> cards m !! id = None.
Proof.
  intros Hinv. unfold column_of, card_of.
  destruct (cards m !! id) as [a|] eqn:Ha; [|done].
  destruct (inv_cards m Hinv _ _ Ha) as (c & Hc & _). by rewrite Hc.
Qed.

(** A move of the card registered under [tid], seen from [id]. *)
Lemma column_of_move_registered m tid a toColumn id :
  board_inv m -> cards m !! tid = Some a ->
  column_of (moveCard m a toColumn) id
  = if String.eqb tid id then Some toColumn else column_of m id.
Proof.
  intros Hinv Ha. destruct (String.eqb_spec tid id) as [->|Hne].
  - apply column_of_moveCard_same; [done|].
    destruct (inv_cards m Hinv _ _ Ha) as (c & Hc & _). eauto.
  - apply column_of_moveCard_other. intros Hb.
    apply Hne. symmetry. by eapply registered_once.
Qed.

Lemma column_of_addDebugLog m t a s id :
  column_of (addDebugLog m t a s) id = column_of m id.
Proof. done. Qed.
Lemma column_of_set_activityStatus m s id :
  column_of (set_activityStatus m s) id = column_of m id.
Proof. done. Qed.
Lemma column_of_set_header m p ph wm ps id :
  column_of (set_header m p ph wm ps) id = column_of m id.
Proof. done. Qed.
Lemma column_of_set_activeCardID m a id :
  column_of (set_activeCardID m a) id = column_of m id.
Proof. done. Qed.
Lemma column_of_set_complete m b id :
  column_of (set_complete m b) id = column_of m id.
Proof. done. Qed.

Ltac column_frame :=
  rewrite ?column_of_addDebugLog, ?column_of_set_activityStatus,
    ?column_of_set_header, ?column_of_set_activeCardID,
    ?column_of_set_complete.

(** What one event does to the column of the card under [id]. *)
Lemma column_of_handle m e id :
  board_inv m ->
  column_of (handleTeamEventCopy m e) id = next_column e id (column_of m id).
Proof.
  intros Hinv. unfold handleTeamEventCopy, next_column, target_column.
  set (m0 := addDebugLog m "event" (Actor e) _).
  assert (H0 : board_inv m0) by (subst m0; by apply board_inv_addDebugLog).
  change (column_of m id) with (column_of m0 id).
  clearbody m0. clear Hinv m.
  assert (Hskip : forall c : option Column,
             (if String.eqb (TaskID e) id then c else c) = c).
  { intros c. by destruct (String.eqb (TaskID e) id). }
  destruct (EvType e) eqn:Hty; simpl.
  - rewrite Hskip. destruct (Data e); try done; by column_frame.
  - rewrite Hskip. destruct (Data e); try done; by column_frame.
  - rewrite Hskip. destruct (Data e); try done; by column_frame.
  - destruct (Data e); rewrite ?Hskip; try done.
    column_frame.
    rewrite column_of_create_card by done. simpl.
    case_decide as Hid; destruct (String.eqb_spec (TaskID e) id); done.
  - destruct (cards m0 !! TaskID e) as [a|] eqn:Ha.
    + column_frame.
      rewrite (column_of_move_registered _ (TaskID e)) by done.
      destruct (String.eqb_spec (TaskID e) id) as [Heq|Hne]; [|done].
      subst id. unfold column_of, card_of. rewrite Ha.
      destruct (inv_cards m0 H0 _ _ Ha) as (c & Hc & _). by rewrite Hc.
    + destruct (String.eqb_spec (TaskID e) id) as [Heq|Hne]; [|done].
      subst id. unfold column_of, card_of. by rewrite Ha.
  - rewrite Hskip. column_frame.
    destruct (cards m0 !! TaskID e) as [a|] eqn:Ha; [|done].
    destruct (Data e) as [| | content progress | | | | | | ]; try done.
    destruct (50 <? String.length content)%nat.
    + column_frame.
      by apply column_of_update_card.
    + by apply column_of_update_card.
  - destruct (cards m0 !! TaskID e) as [a|] eqn:Ha.
    + column_frame.
      rewrite (column_of_move_registered _ (TaskID e)).
      * rewrite column_of_update_card by done.
        destruct (String.eqb_spec (TaskID e) id) as [Heq|Hne]; [|done].
        subst id. unfold column_of, card_of. rewrite Ha.
        destruct (inv_cards m0 H0 _ _ Ha) as (c & Hc & _). by rewrite Hc.
      * by apply board_inv_update_card.
      * by rewrite update_card_cards.
    + destruct (String.eqb_spec (TaskID e) id) as [Heq|Hne]; [|done].
      subst id. unfold column_of, card_of. by rewrite Ha.
  - destruct (cards m0 !! TaskID e) as [a|] eqn:Ha.
    + column_frame.
      rewrite (column_of_move_registered _ (TaskID e)) by done.
      destruct (String.eqb_spec (TaskID e) id) as [Heq|Hne]; [|done].
      subst id. unfold column_of, card_of. rewrite Ha.
      destruct (inv_cards m0 H0 _ _ Ha) as (c & Hc & _). by rewrite Hc.
    + destruct (String.eqb_spec (TaskID e) id) as [Heq|Hne]; [|done].
      subst id. unfold column_of, card_of. by rewrite Ha.
  - destruct (cards m0 !! TaskID e) as [a|] eqn:Ha.
    + column_frame.
      rewrite (column_of_move_registered _ (TaskID e)) by done.
      destruct (String.eqb_spec (TaskID e) id) as [Heq|Hne]; [|done].
      subst id. unfold column_of, card_of. rewrite Ha.
      destruct (inv_cards m0 H0 _ _ Ha) as (c & Hc & _). by rewrite Hc.
    + destruct (String.eqb_spec (TaskID e) id) as [Heq|Hne]; [|done].
      subst id. unfold column_of, card_of. by rewrite Ha.
  - destruct (Data e); rewrite ?Hskip; try done.
    column_frame.
    rewrite column_of_create_card by done. simpl.
    case_decide as Hid; destruct (String.eqb_spec (TaskID e) id); done.
  - by rewrite Hskip.
  - by rewrite Hskip.
  - rewrite Hskip.
    destruct (Data e) as [| | | | | | err taskID message | | ]; try done.
    column_frame.
    destruct (cards m0 !! taskID) as [a|]; [|done].
    by apply column_of_update_card.
  - rewrite Hskip. by column_frame.
Qed.

Lemma reachable_inv events : board_inv (process events NewKanbanModel).
Proof. apply board_inv_process, board_inv_init. Qed.

(** The column of a registered card is the stage of some event that
    named it. *)
Lemma column_has_source events id col :
  column_of (process events NewKanbanModel) id = Some col ->
  exists i e, events !! i = Some e /\ TaskID e = id /\
              target_column e = Some col.
Proof.
  revert col. induction events as [|e events IH] using rev_ind; intros col.
  - done.
  - rewrite process_snoc, column_of_handle by apply reachable_inv.
    unfold next_column.
    assert (Hold : column_of (process events NewKanbanModel) id = Some col ->
              exists i e0, (events ++ [e]) !! i = Some e0 /\ TaskID e0 = id /\
                           target_column e0 = Some col).
    { intros H. destruct (IH _ H) as (i & e0 & Hi & Hid & Ht).
      exists i, e0. split_and!; [|done..]. by apply lookup_app_l_Some. }
    assert (Hnew : TaskID e = id -> target_column e = Some col ->
              exists i e0, (events ++ [e]) !! i = Some e0 /\ TaskID e0 = id /\
                           target_column e0 = Some col).
    { intros Hid Ht. exists (length events), e.
      split_and!; [|done..]. by rewrite list_lookup_middle. }
    destruct (String.eqb_spec (TaskID e) id) as [Hid|Hid]; [|done].
    destruct (target_column e) as [[]|] eqn:Ht; [| | | |done].
    + intros [= <-]. by apply Hnew.
    + destruct (column_of (process events NewKanbanModel) id); [|done].
      intros [= <-]. by apply Hnew.
    + destruct (column_of (process events NewKanbanModel) id); [|done].
      intros [= <-]. by apply Hnew.
    + destruct (column_of (process events NewKanbanModel) id); [|done].
      intros [= <-]. by apply Hnew.
Qed.

(** C2, as worded, fails: a task-started event that names a card in
    Done moves the card back to In Progress. *)
Lemma done_card_moves_back : ~ never_regresses.
Proof.
  intros H.
  specialize (H [task_created "t1" []; task_event EventPMApproved "t1"]
                (task_event EventTaskStarted "t1") "t1"
                ColumnDone ColumnInProgress).
  assert (Hle : (column_index ColumnDone <= column_index ColumnInProgress)%nat).
  { apply H; vm_compute; reflexivity. }
  simpl in Hle. lia.
Qed.

(** C2 (amended).  Each event sends the card it names to the column
    fixed by the event's type, whatever the card's current column, and
    leaves every other registered card where it is; so a task-started or
    a task-completed event that names a card in Done does move it back,
    to In Progress and to Review; but over event sequences in which the
    events naming one task arrive in workflow order (created, started,
    completed or moved to review, approved), a registered card stays
    registered and its column never moves backward. *)
Theorem column_monotone_in_workflow_order
    (events : list Event) (e : Event) (id : string) :
  column_of (process (events ++ [e]) NewKanbanModel) id
    = next_column e id (column_of (process events NewKanbanModel) id) /\
  (forall col col',
     column_of (process events NewKanbanModel) id = Some col ->
     (TaskID e = id -> target_column e = Some col' ->
      column_of (process (events ++ [e]) NewKanbanModel) id = Some col') /\
     (TaskID e <> id ->
      column_of (process (events ++ [e]) NewKanbanModel) id = Some col)) /\
  (column_of (process events NewKanbanModel) id = Some ColumnDone ->
   TaskID e = id ->
   (EvType e = EventTaskStarted ->
    column_of (process (events ++ [e]) NewKanbanModel) id
    = Some ColumnInProgress) /\
   (EvType e = EventTaskCompleted ->
    column_of (process (events ++ [e]) NewKanbanModel) id
    = Some ColumnReview)) /\
  (forall col,
     in_workflow_order (events ++ [e]) ->
     column_of (process events NewKanbanModel) id = Some col ->
     exists col',
       column_of (process (events ++ [e]) NewKanbanModel) id = Some col' /\
       (column_index col <= column_index col')%nat).
Proof.
  assert (Hstep : column_of (process (events ++ [e]) NewKanbanModel) id
            = next_column e id (column_of (process events NewKanbanModel) id)).
  { rewrite process_snoc. apply column_of_handle, reachable_inv. }
  split_and!; [exact Hstep| | |].
  - intros col col' Hcol. rewrite Hstep, Hcol. unfold next_column. split.
    + intros Hid Htarget. rewrite Htarget.
      destruct (String.eqb_spec (TaskID e) id); [by destruct col'|done].
    + intros Hid. by destruct (String.eqb_spec (TaskID e) id).
  - intros Hdone Hid. rewrite Hstep, Hdone. unfold next_column, target_column.
    destruct (String.eqb_spec (TaskID e) id); [|done].
    split; by intros ->.
  - intros col Hord Hcol. rewrite Hstep, Hcol.
    destruct (column_has_source _ _ _ Hcol) as (i & e1 & Hi & Hid & Ht).
    unfold next_column.
    destruct (String.eqb_spec (TaskID e) id) as [Heq|Hne]; [|by eauto].
    destruct (target_column e) as [c2|] eqn:Ht2; [|by eauto].
    assert (Hle : (column_index col <= column_index c2)%nat).
    { eapply (Hord i (length events) e1 e).
      - by eapply lookup_lt_Some.
      - by apply lookup_app_l_Some.
      - by rewrite list_lookup_middle.
      - congruence.
      - done.
      - done. }
    exists c2. split; [|done]. by destruct c2.
Qed.

Lemma column_monotone_in_workflow_order_witness :
  (exists col',
     column_of (process ([task_created "t1" []; task_event EventTaskStarted "t1"]
                         ++ [task_event EventTaskCompleted "t1"])
                  NewKanbanModel) "t1" = Some col' /\
     (column_index ColumnInProgress <= column_index col')%nat) /\
  column_of (process ([task_created "t1" []; task_event EventPMApproved "t1"]
                      ++ [task_event EventTaskCompleted "t1"])
               NewKanbanModel) "t1" = Some ColumnReview.
Proof.
  split.
  - refine (proj2 (proj2 (proj2 (column_monotone_in_workflow_order
              [task_created "t1" []; task_event EventTaskStarted "t1"]
              (task_event EventTaskCompleted "t1") "t1")))
              ColumnInProgress _ _).
    + intros i j e1 e2 c1 c2 Hij H1 H2 _.
      destruct j as [|[|[|j]]]; [lia| | |done];
        destruct i as [|[|i]]; try lia;
        simpl in H1, H2; injection H1 as <-; injection H2 as <-;
        vm_compute; intros [= <-] [= <-]; lia.
    + vm_compute. reflexivity.
  - refine (proj2 (proj1 (proj2 (proj2 (column_monotone_in_workflow_order
              [task_created "t1" []; task_event EventPMApproved "t1"]
              (task_event EventTaskCompleted "t1") "t1"))) _ _) _).
    + vm_compute. reflexivity.
    + reflexivity.
    + reflexivity.
Defined.

(** *** The blocked flag *)

(** No event handler writes [BlockedBy]. *)
Definition never_blocked (m : KanbanModel) : Prop :=
  Forall (fun c => BlockedBy c = []) (heap m).

Lemma never_blocked_update_card m a f :
  (forall c, BlockedBy (f c) = BlockedBy c) ->
  never_blocked m -> never_blocked (update_card m a f).
Proof.
  intros Hf H. unfold update_card, never_blocked in *.
  destruct (heap m !! a) as [c|] eqn:Ha; [|done]. simpl.
  apply Forall_insert; [done|]. rewrite Hf.
  by eapply (Forall_lookup_1 _ _ _ _ H).
Qed.

Lemma never_blocked_moveCard m a col :
  never_blocked m -> never_blocked (moveCard m a col).
Proof.
  intros H. unfold moveCard, never_blocked in *.
  destruct (heap m !! a) as [c|] eqn:Ha; [|done]. simpl.
  apply Forall_insert; [done|]. simpl.
  by eapply (Forall_lookup_1 _ _ _ _ H).
Qed.

Lemma never_blocked_create_card m id c :
  BlockedBy c = [] -> never_blocked m -> never_blocked (create_card m id c).
Proof.
  intros Hc H. unfold create_card, never_blocked in *. simpl.
  apply Forall_app. split; [done|]. by constructor.
Qed.

Lemma never_blocked_handle m e :
  never_blocked m -> never_blocked (handleTeamEventCopy m e).
Proof.
  intros H. unfold handleTeamEventCopy.
  set (m0 := addDebugLog m "event" (Actor e) _).
  assert (H0 : never_blocked m0) by done.
  clearbody m0. clear H m.
  destruct (EvType e); try done.
  - by destruct (Data e).
  - by destruct (Data e).
  - by destruct (Data e).
  - destruct (Data e); try done.
    change (never_blocked (create_card m0 (TaskID e)
              (set_created (NewKanbanCard (TaskID e) Title0 AssignedTo0)
                 Description0 DependsOn0 IsBlocking0
                 (String.eqb AssignedTo0 "user")))).
    by apply never_blocked_create_card.
  - destruct (cards m0 !! TaskID e) as [a|]; [|done].
    change (never_blocked (moveCard m0 a ColumnInProgress)).
    by apply never_blocked_moveCard.
  - destruct (cards m0 !! TaskID e) as [a|]; [|done].
    destruct (Data e) as [| | content progress | | | | | | ]; try done.
    assert (never_blocked (update_card m0 a (fun c => set_progress c content progress))).
    { by apply never_blocked_update_card. }
    by destruct (50 <? String.length content)%nat.
  - destruct (cards m0 !! TaskID e) as [a|]; [|done].
    change (never_blocked
              (moveCard (update_card m0 a (fun c => set_Done c true)) a ColumnReview)).
    by apply never_blocked_moveCard, never_blocked_update_card.
  - destruct (cards m0 !! TaskID e) as [a|]; [|done].
    change (never_blocked (moveCard m0 a ColumnReview)).
    by apply never_blocked_moveCard.
  - destruct (cards m0 !! TaskID e) as [a|]; [|done].
    change (never_blocked (moveCard m0 a ColumnDone)).
    by apply never_blocked_moveCard.
  - destruct (Data e); try done.
    change (never_blocked (create_card m0 (TaskID e)
              (set_created (NewKanbanCard (TaskID e) Title0 "user")
                 Description0 DependsOn0 IsBlocking0 true))).
    by apply never_blocked_create_card.
  - destruct (Data e) as [| | | | | | err taskID message | | ]; try done.
    destruct (cards m0 !! taskID) as [a|]; [|done].
    change (never_blocked (update_card m0 a (fun c => set_Error c err))).
    by apply never_blocked_update_card.
Qed.

(** After any sequence of events no card on the board is blocked,
    whatever its dependencies. *)
Lemma IsBlocked_always_false events id c :
  card_of (process events NewKanbanModel) id = Some c -> IsBlocked c = false.
Proof.
  assert (H : never_blocked (process events NewKanbanModel)).
  { generalize NewKanbanModel (Forall_nil_2 (fun c => BlockedBy c = [])
                                : never_blocked NewKanbanModel).
    induction events as [|e events IH]; intros m Hm; [done|].
    simpl. by apply IH, never_blocked_handle. }
  unfold card_of. destruct (cards _ !! id) as [a|]; [|done].
  intros Ha. unfold IsBlocked.
  by rewrite (Forall_lookup_1 _ _ _ _ H Ha).
Qed.

(** C3, at the failing input: a card created with two dependencies,
    neither of them in Done, is stored with an empty [BlockedBy] and
    so reads as not blocked, where the specified flag is set. *)
Theorem two_dependencies_not_blocked :
  let m := process [task_created "d1" []; task_created "d2" [];
                    task_created "t" ["d1"; "d2"]] NewKanbanModel in
  exists c, card_of m "t" = Some c /\
            DependsOn c = ["d1"; "d2"] /\
            column_of m "d1" = Some ColumnBacklog /\
            column_of m "d2" = Some ColumnBacklog /\
            blocked_as_specified m c = true /\
            IsBlocked c = false.
Proof. vm_compute. eexists. repeat split. Qed.

(** *** One column per card *)

Lemma count_absent (l : list addr) a :
  a ∉ l -> length (filter (fun b => b = a) l) = 0%nat.
Proof.
  induction l as [|b l IH]; intros Hnin; [done|].
  apply not_elem_of_cons in Hnin as [Hne Hnin].
  rewrite filter_cons_False by congruence. by apply IH.
Qed.

Lemma count_present (l : list addr) a :
  NoDup l -> a ∈ l -> length (filter (fun b => b = a) l) = 1%nat.
Proof.
  induction 1 as [|b l Hnin Hnd IH]; intros Hin.
  - by apply elem_of_nil in Hin.
  - destruct (decide (b = a)) as [->|Hne].
    + rewrite filter_cons_True by done. simpl. by rewrite count_absent.
    + rewrite filter_cons_False by done. apply IH.
      apply elem_of_cons in Hin as [Heq|Hin]; [congruence|done].
Qed.

Lemma listed_in_exactly m a col :
  board_inv m -> a ∈ columns m col -> in_exactly m a col.
Proof.
  intros Hinv Hin. split.
  - apply count_present; [apply Hinv|done].
  - intros col' Hne. apply count_absent. intros Hin'.
    destruct (inv_listed m Hinv _ _ Hin) as (c & Hc & Hcol).
    destruct (inv_listed m Hinv _ _ Hin') as (c' & Hc' & Hcol').
    congruence.
Qed.

(** C9.  After any sequence of events, every card registered in
    [m.cards] is held by exactly one column list, once, and that list
    is the one named by its [Column] field; the same goes for every
    card object held by a column list.  [moveCard] on a registered card
    removes it from its list and appends it to the target list in one
    step: afterwards the card carries the target column, sits in that
    list only, and every registered card is still in exactly the list
    its [Column] field names. *)
Theorem card_in_exactly_one_column (events : list Event) :
  let m := process events NewKanbanModel in
  (forall id a, cards m !! id = Some a ->
     exists c, heap m !! a = Some c /\ ID c = id /\
               in_exactly m a (CardColumn c)) /\
  (forall col a, a ∈ columns m col ->
     exists c, heap m !! a = Some c /\ CardColumn c = col /\
               in_exactly m a col) /\
  (forall id a toColumn, cards m !! id = Some a ->
     let m' := moveCard m a toColumn in
     (exists c, heap m' !! a = Some c /\ ID c = id /\
                CardColumn c = toColumn /\ in_exactly m' a toColumn) /\
     (forall id' b, cards m' !! id' = Some b ->
        exists c, heap m' !! b = Some c /\ ID c = id' /\
                  in_exactly m' b (CardColumn c))).
Proof.
  intros m. pose proof (reachable_inv events) as Hinv. fold m in Hinv.
  assert (Hreg : forall m0, board_inv m0 -> forall id a,
             cards m0 !! id = Some a ->
             exists c, heap m0 !! a = Some c /\ ID c = id /\
                       in_exactly m0 a (CardColumn c)).
  { intros m0 H0 id a Ha.
    destruct (inv_cards m0 H0 _ _ Ha) as (c & Hc & Hid & Hin).
    exists c. split_and!; [done..|]. by apply listed_in_exactly. }
  split_and!.
  - by apply Hreg.
  - intros col a Hin.
    destruct (inv_listed m Hinv _ _ Hin) as (c & Hc & Hcol).
    exists c. split_and!; [done..|]. by apply listed_in_exactly.
  - intros id a toColumn Ha m'.
    assert (Hinv' : board_inv m') by by eapply board_inv_moveCard.
    split; [|by apply Hreg].
    assert (Ha' : cards m' !! id = Some a).
    { unfold m'. by rewrite moveCard_cards. }
    destruct (Hreg m' Hinv' id a Ha') as (c & Hc & Hid & Hex).
    assert (Hcol : column_of m' id = Some toColumn).
    { apply column_of_moveCard_same; [done|].
      destruct (inv_cards m Hinv _ _ Ha) as (c0 & Hc0 & _). eauto. }
    unfold column_of, card_of in Hcol. rewrite Ha', Hc in Hcol.
    injection Hcol as Hcol. exists c. rewrite Hcol in Hex. done.
Qed.

Lemma card_in_exactly_one_column_witness :
  let m := process [task_created "t1" []; task_created "t2" ["t1"];
                    task_event EventTaskStarted "t1"] NewKanbanModel in
  (exists c, heap m !! 0%nat = Some c /\ ID c = "t1" /\
             in_exactly m 0%nat (CardColumn c)) /\
  (exists c, heap m !! 1%nat = Some c /\ CardColumn c = ColumnBacklog /\
             in_exactly m 1%nat ColumnBacklog) /\
  (exists c, heap (moveCard m 0%nat ColumnReview) !! 0%nat = Some c /\
             ID c = "t1" /\ CardColumn c = ColumnReview /\
             in_exactly (moveCard m 0%nat ColumnReview) 0%nat ColumnReview).
Proof.
  intros m.
  destruct (card_in_exactly_one_column
              [task_created "t1" []; task_created "t2" ["t1"];
               task_event EventTaskStarted "t1"]) as (H1 & H2 & H3).
  split_and!.
  - apply (H1 "t1" 0%nat). vm_compute. reflexivity.
  - apply (H2 ColumnBacklog 1%nat). vm_compute. apply list_elem_of_here.
  - apply (H3 "t1" 0%nat ColumnReview). vm_compute. reflexivity.
Defined.

End BoardProps.

(** ** PM selector properties: proofs *)

Module PMProps.
Import Strings PMSelector PMSpec.

Lemma hits_cons taskLower w l :
  hits taskLower (w :: l)
  = (if Contains taskLower w then 1 else 0) + hits taskLower l.
Proof.
  unfold hits. simpl. destruct (Contains taskLower w); simpl length; lia.
Qed.

Lemma hits_app taskLower l1 l2 :
  hits taskLower (l1 ++ l2) = hits taskLower l1 + hits taskLower l2.
Proof.
  unfold hits. rewrite List.filter_app, length_app. lia.
Qed.

Lemma hits_nonneg taskLower l : 0 <= hits taskLower l.
Proof. unfold hits. lia. Qed.

(** The two scoring loops in closed form. *)
Lemma word_loop_hits taskLower words score :
  word_loop taskLower words score = score + hits taskLower words.
Proof.
  revert score. induction words as [|w words IH]; intros score.
  - unfold hits. simpl. lia.
  - unfold word_loop in *. simpl. rewrite IH, hits_cons.
    destruct (Contains taskLower w); lia.
Qed.

Lemma strength_loop_hits taskLower strengths score :
  strength_loop taskLower strengths score
  = score + 2 * hits taskLower strengths
    + hits taskLower (concat (map Fields strengths)).
Proof.
  revert score. induction strengths as [|s strengths IH]; intros score.
  - unfold hits. simpl. lia.
  - unfold strength_loop in *. simpl.
    rewrite IH, word_loop_hits, hits_cons, hits_app.
    destruct (Contains taskLower s); lia.
Qed.

Lemma category_bonus_closed task keywords favoured bonus :
  category_bonus task keywords favoured bonus
  = bonus + category task keywords favoured.
Proof.
  unfold category.
  induction keywords as [|kw keywords IH]; simpl.
  - rewrite andb_false_r. lia.
  - destruct (Contains task kw); simpl.
    + rewrite andb_true_r. destruct favoured; lia.
    + apply IH.
Qed.

Lemma getTaskTypeBonus_closed task aiID :
  getTaskTypeBonus task aiID = bonus_of task aiID.
Proof.
  unfold getTaskTypeBonus, bonus_of.
  rewrite !category_bonus_closed. lia.
Qed.

Lemma candidate_score_closed taskLower pm :
  candidate_score taskLower pm
  = 2 * hits taskLower (Strengths pm)
    + hits taskLower (concat (map Fields (Strengths pm)))
    + bonus_of taskLower (AIID pm).
Proof.
  unfold candidate_score.
  rewrite strength_loop_hits, getTaskTypeBonus_closed. lia.
Qed.

Lemma category_nonneg task keywords favoured :
  0 <= category task keywords favoured.
Proof. unfold category. case_match; lia. Qed.

Lemma candidate_score_nonneg taskLower pm : 0 <= candidate_score taskLower pm.
Proof.
  rewrite candidate_score_closed. unfold bonus_of.
  pose proof (hits_nonneg taskLower (Strengths pm)).
  pose proof (hits_nonneg taskLower (concat (map Fields (Strengths pm)))).
  pose proof (category_nonneg taskLower codingKeywords (String.eqb (AIID pm) "gpt")).
  pose proof (category_nonneg taskLower writingKeywords (String.eqb (AIID pm) "claude")).
  pose proof (category_nonneg taskLower researchKeywords (String.eqb (AIID pm) "gemini")).
  pose proof (category_nonneg taskLower quickKeywords (String.eqb (AIID pm) "groq")).
  lia.
Qed.

(** The main loop skips the unavailable entries: it is a loop over the
    candidates. *)
Lemma select_loop_candidates taskLower availableMembers strengths best :
  select_loop taskLower availableMembers strengths best
  = fold_left (challenge taskLower)
      (List.filter (fun pm => is_available availableMembers (AIID pm)) strengths)
      best.
Proof.
  revert best. unfold select_loop.
  induction strengths as [|pm strengths IH]; intros best; [done|].
  simpl. destruct (is_available availableMembers (AIID pm)); simpl; apply IH.
Qed.

(** The loop keeps the best so far, or ends on the first candidate that
    reaches the highest score. *)
Lemma challenge_loop taskLower cands best :
  let r := fold_left (challenge taskLower) cands best in
  (r = best /\
   forall j pm, cands !! j = Some pm -> candidate_score taskLower pm <= best.2) \/
  (exists i pm,
     cands !! i = Some pm /\
     r = (AIID pm, candidate_score taskLower pm) /\
     best.2 < candidate_score taskLower pm /\
     (forall j pm', cands !! j = Some pm' ->
        candidate_score taskLower pm' <= candidate_score taskLower pm) /\
     (forall j pm', (j < i)%nat -> cands !! j = Some pm' ->
        candidate_score taskLower pm' < candidate_score taskLower pm)).
Proof.
  revert best. induction cands as [|c cands IH]; intros best r.
  - left. split; [done|]. intros j pm Hj. by rewrite lookup_nil in Hj.
  - subst r. simpl.
    replace (challenge taskLower best c)
      with (if best.2 <? candidate_score taskLower c
            then (AIID c, candidate_score taskLower c) else best) by done.
    destruct (Z.ltb_spec best.2 (candidate_score taskLower c)) as [Hlt|Hge].
    + destruct (IH (AIID c, candidate_score taskLower c))
        as [[Hr Hall]|(i & pm & Hi & Hr & Hbest & Hall & Hbefore)]; simpl in *.
      * right. exists 0%nat, c. split_and!; [done..| |].
        -- intros [|j] pm' Hj; simpl in Hj; [injection Hj as <-; lia|by eauto].
        -- intros j pm' Hj. lia.
      * right. exists (S i), pm. split_and!; [done|done|lia| |].
        -- intros [|j] pm' Hj; simpl in Hj; [injection Hj as <-; lia|by eauto].
        -- intros [|j] pm' Hlt' Hj; simpl in Hj; [injection Hj as <-; lia|].
           apply (Hbefore j); [lia|done].
    + destruct (IH best)
        as [[Hr Hall]|(i & pm & Hi & Hr & Hbest & Hall & Hbefore)].
      * left. split; [done|].
        intros [|j] pm Hj; simpl in Hj; [injection Hj as <-; lia|by eauto].
      * right. exists (S i), pm. split_and!; [done..| |].
        -- intros [|j] pm' Hj; simpl in Hj; [injection Hj as <-; lia|by eauto].
        -- intros [|j] pm' Hlt' Hj; simpl in Hj; [injection Hj as <-; lia|].
           apply (Hbefore j); [lia|done].
Qed.

Lemma candidate_named availableMembers i pm :
  candidates availableMembers !! i = Some pm -> String.eqb (AIID pm) "" = false.
Proof.
  intros Hi. apply list_elem_of_lookup_2, list_elem_of_In in Hi.
  apply List.filter_In in Hi as [Hin _].
  simpl in Hin. by repeat (destruct Hin as [<-|Hin]; [done|]).
Qed.

(** With a candidate available the loop ends on a candidate. *)
Lemma select_loop_winner taskLower availableMembers :
  candidates availableMembers <> [] ->
  exists i pm,
    candidates availableMembers !! i = Some pm /\
    select_loop taskLower availableMembers GetPMStrengths ("", -1)
    = (AIID pm, candidate_score taskLower pm) /\
    (forall j pm', candidates availableMembers !! j = Some pm' ->
       candidate_score taskLower pm' <= candidate_score taskLower pm) /\
    (forall j pm', (j < i)%nat -> candidates availableMembers !! j = Some pm' ->
       candidate_score taskLower pm' < candidate_score taskLower pm).
Proof.
  intros Hne. rewrite select_loop_candidates. fold (candidates availableMembers).
  destruct (challenge_loop taskLower (candidates availableMembers) ("", -1))
    as [[_ Hall]|(i & pm & Hi & Hr & _ & Hall & Hbefore)].
  - destruct (candidates availableMembers) as [|c cands]; [done|].
    specialize (Hall 0%nat c eq_refl). simpl in Hall.
    pose proof (candidate_score_nonneg taskLower c). lia.
  - exists i, pm. by split_and!.
Qed.

(** The fallback on "claude" inside [Select] is never taken: when
    "claude" is available the loop has already chosen somebody. *)
Lemma claude_fallback_unreachable taskLower availableMembers :
  is_available availableMembers "claude" = true ->
  (select_loop taskLower availableMembers GetPMStrengths ("", -1)).1 <> "".
Proof.
  intros Hclaude.
  destruct (select_loop_winner taskLower availableMembers)
    as (i & pm & Hi & -> & _).
  - unfold candidates. simpl. by rewrite Hclaude.
  - simpl. apply candidate_named in Hi. by apply String.eqb_neq.
Qed.




(** C7, at the failing input: no roster member scores above zero and
    "claude" is absent, yet [Select] returns "gpt", the earlier entry
    of the strength table, where the first available member is
    "gemini". *)
Theorem first_available_not_returned :
  let availableMembers := ["gemini"; "gpt"] in
  (forall pm, pm ∈ candidates availableMembers ->
     candidate_score (ToLower "hello") pm = 0) /\
  is_available availableMembers "claude" = false /\
  head availableMembers = Some "gemini" /\
  Select "hello" availableMembers = ("gpt", None).
Proof.
  intros availableMembers. split_and!; try done.
  intros pm Hpm. vm_compute in Hpm.
  apply elem_of_cons in Hpm as [->|Hpm]; [by vm_compute|].
  apply elem_of_cons in Hpm as [->|Hpm]; [by vm_compute|].
  by apply elem_of_nil in Hpm.
Qed.

End PMProps.

(** ** Event bus properties *)

Module BusProps.
Import Team Bus.

(** On an open channel of capacity 100, [send_case] is decided by the
    fill level alone. *)
Lemma Runner_emit_open buf event :
  Runner_emit (OpenChan 100 buf) event
  = Returns (if (length buf <? 100)%nat then OpenChan 100 (buf ++ [event])
             else OpenChan 100 buf).
Proof. unfold Runner_emit, send_case. by destruct (length buf <? 100)%nat. Qed.

Lemma ModeExecutor_emit_open buf event :
  ModeExecutor_emit (OpenChan 100 buf) event
  = Returns (if (length buf <? 100)%nat then OpenChan 100 (buf ++ [event])
             else OpenChan 100 buf).
Proof.
  unfold ModeExecutor_emit, send_case. by destruct (length buf <? 100)%nat.
Qed.

(** While [Run] is active the channel is open, of capacity 100, and
    holds at most 100 events. *)
Lemma session_chan_open ch :
  session_chan ch ->
  exists buf, ch = OpenChan 100 buf /\ (length buf <= 100)%nat.
Proof.
  induction 1 as [|ch event ch' _ (buf & -> & Hlen) Hemit
                  |ch event ch' _ (buf & -> & Hlen) Hemit
                  |ch event ch' _ (buf & -> & Hlen) Hrecv].
  - exists []. split; [done|]. simpl. lia.
  - rewrite Runner_emit_open in Hemit. injection Hemit as <-.
    destruct (Nat.ltb_spec (length buf) 100); [|by eauto].
    eexists. split; [done|]. rewrite length_app. simpl. lia.
  - rewrite ModeExecutor_emit_open in Hemit. injection Hemit as <-.
    destruct (Nat.ltb_spec (length buf) 100); [|by eauto].
    eexists. split; [done|]. rewrite length_app. simpl. lia.
  - destruct buf as [|first buf]; [done|]. injection Hrecv as <- <-.
    eexists. split; [done|]. simpl in Hlen. lia.
Qed.

(** With nobody receiving, the first 100 events stay and the rest is
    dropped. *)
Lemma emit_all_open buf events :
  (length buf <= 100)%nat ->
  emit_all (OpenChan 100 buf) events
  = Returns (OpenChan 100 (take 100 (buf ++ events))).
Proof.
  revert buf. induction events as [|event events IH]; intros buf Hlen.
  - simpl. rewrite app_nil_r. by rewrite take_ge.
  - simpl. rewrite Runner_emit_open.
    destruct (Nat.ltb_spec (length buf) 100) as [Hlt|Hge].
    + rewrite IH by (rewrite length_app; simpl; lia).
      by rewrite <- app_assoc.
    + rewrite IH by done.
      by rewrite !take_app_le by lia.
Qed.

(** C4.  In every state the session's channel can be in while [Run] is
    active (an open channel of capacity 100 holding at most 100 events),
    [emit], of the runner and of the mode executor alike, returns at
    once: with room in the buffer the event is appended to it, and with
    a full buffer the event is dropped and the channel is left as it
    was; the executor's [emit] on a nil channel drops the event too.
    Without a consumer the first 100 events are kept and all later ones
    dropped. *)
Theorem emit_never_blocks (event : Event) :
  (forall ch, session_chan ch ->
     exists buf,
       ch = OpenChan 100 buf /\ (length buf <= 100)%nat /\
       Runner_emit ch event
       = Returns (if (length buf <? 100)%nat then OpenChan 100 (buf ++ [event])
                  else ch) /\
       ModeExecutor_emit ch event = Runner_emit ch event) /\
  ModeExecutor_emit NilChan event = Returns NilChan /\
  Runner_emit NilChan event = Returns NilChan /\
  (forall events,
     emit_all NewRunner_Events events = Returns (OpenChan 100 (take 100 events))).
Proof.
  split_and!; try done.
  - intros ch Hch. destruct (session_chan_open ch Hch) as (buf & -> & Hlen).
    exists buf. split_and!; [done..| |].
    + apply Runner_emit_open.
    + by rewrite Runner_emit_open, ModeExecutor_emit_open.
  - intros events. unfold NewRunner_Events.
    by rewrite (emit_all_open [] events) by (simpl; lia).
Qed.

Lemma emit_never_blocks_witness :
  exists buf,
    NewRunner_Events = OpenChan 100 buf /\ (length buf <= 100)%nat /\
    Runner_emit NewRunner_Events (NewEvent EventSessionComplete "system" NilData)
    = Returns (if (length buf <? 100)%nat
               then OpenChan 100
                      (buf ++ [NewEvent EventSessionComplete "system" NilData])
               else NewRunner_Events) /\
    ModeExecutor_emit NewRunner_Events
      (NewEvent EventSessionComplete "system" NilData)
    = Runner_emit NewRunner_Events
        (NewEvent EventSessionComplete "system" NilData).
Proof.
  apply (proj1 (emit_never_blocks
                  (NewEvent EventSessionComplete "system" NilData))
           NewRunner_Events).
  apply chan_new.
Defined.

End BusProps.

(** ** Engine properties: proofs *)

Module EngineProps.
Import Team Engine EngineSpec.

Lemma marks_app l1 l2 : marks (l1 ++ l2) = marks l1 ++ marks l2.
Proof. apply omap_app. Qed.

(** *** Which marks a computation adds *)

Lemma adds_ret {A} (a : A) : adds (mret a) [].
Proof. intros st. simpl. by rewrite app_nil_r. Qed.

Lemma adds_bind {A B} (m : M A) (f : A -> M B) l1 l2 :
  adds m l1 -> (forall a, adds (f a) l2) -> adds (m ≫= f) (l1 ++ l2).
Proof.
  intros Hm Hf st. unfold mbind, M_bind.
  specialize (Hm st). destruct (m st) as [a st']. simpl in Hm.
  rewrite (Hf a st'), Hm. by rewrite app_assoc.
Qed.

Lemma adds_bind_nil {A B} (m : M A) (f : A -> M B) :
  adds m [] -> (forall a, adds (f a) []) -> adds (m ≫= f) [].
Proof. intros. by apply (adds_bind m f [] []). Qed.

Lemma adds_act a :
  adds (act a) (match mark a with Some k => [k] | None => [] end).
Proof. intros st. simpl. rewrite marks_app. simpl. by destruct (mark a). Qed.

Lemma adds_print text : adds (print text) [].
Proof. apply (adds_act (Print text)). Qed.

Lemma adds_println text : adds (println text) [].
Proof. apply (adds_act (Print _)). Qed.

Lemma adds_registry_Invoke env aiID req : adds (registry_Invoke env aiID req) [].
Proof. intros st. simpl. by rewrite marks_app. Qed.

Lemma adds_emitTask_started tid actor :
  adds (emitTask EventTaskStarted tid actor NilData) [].
Proof.
  apply (adds_act (Emit (NewTaskEvent EventTaskStarted tid actor NilData))).
Qed.

(** Peel a computation that adds no mark, by the shape of its head. *)
Ltac quiet_step :=
  lazymatch goal with
  | |- adds (mret _) _ => apply adds_ret
  | |- adds (print _) _ => apply adds_print
  | |- adds (println _) _ => apply adds_println
  | |- adds (registry_Invoke _ _ _) _ => apply adds_registry_Invoke
  | |- adds (emitTask EventTaskStarted _ _ _) _ => apply adds_emitTask_started
  | |- adds (_ ≫= _) _ => apply adds_bind_nil; [|intros ?]
  | |- adds (match ?r with _ => _ end) _ => destruct r
  | |- adds _ _ => match goal with H : _ |- _ => apply H end
  end.

Ltac quiet := repeat quiet_step.

Section Quiet.
Variable env : Env.

Lemma adds_pair_turns s turns driver navigator currentWork :
  adds (pair_turns env s turns driver navigator currentWork) [].
Proof.
  revert driver navigator currentWork.
  induction turns as [|i turns IH]; intros; simpl; quiet.
Qed.

Lemma adds_executePairProgramming s : adds (executePairProgramming env s) [].
Proof.
  unfold executePairProgramming.
  pose proof (adds_pair_turns s). quiet.
Qed.

Lemma adds_consult_members s members context :
  adds (consult_members env s members context) [].
Proof.
  revert context.
  induction members as [|member members IH]; intros; simpl; quiet.
Qed.

Lemma adds_executeConsultation s : adds (executeConsultation env s) [].
Proof.
  unfold executeConsultation.
  pose proof (adds_consult_members s). quiet.
Qed.

Lemma adds_round_members s round members accumulated :
  adds (round_members env s round members accumulated) [].
Proof.
  revert accumulated.
  induction members as [|member members IH]; intros; simpl; quiet.
Qed.

Lemma adds_rounds s rs accumulated : adds (rounds env s rs accumulated) [].
Proof.
  revert accumulated. pose proof (adds_round_members s).
  induction rs as [|round rs IH]; intros; simpl; quiet.
Qed.

Lemma adds_executeRoundRobin s : adds (executeRoundRobin env s) [].
Proof.
  unfold executeRoundRobin. pose proof (adds_rounds s). quiet.
Qed.

Lemma adds_spawn i members : adds (spawn i members) [].
Proof.
  revert i. induction members as [|member members IH]; intros; simpl; quiet.
Qed.

Lemma adds_report_errors i errors : adds (report_errors i errors) [].
Proof.
  revert i. induction errors as [|[err|] errors IH]; intros; simpl; quiet.
Qed.

Lemma adds_workers ws : adds (act (Workers ws)) [].
Proof. apply (adds_act (Workers ws)). Qed.

Lemma adds_executeDivideConquer s : adds (executeDivideConquer env s) [].
Proof.
  unfold executeDivideConquer.
  pose proof adds_spawn. pose proof adds_report_errors.
  pose proof adds_workers. quiet.
Qed.

Lemma adds_brainstorm s members discussion :
  adds (brainstorm env s members discussion) [].
Proof.
  revert discussion.
  induction members as [|member members IH]; intros; simpl; quiet.
Qed.

Lemma adds_executeFreeForm s : adds (executeFreeForm env s) [].
Proof.
  unfold executeFreeForm. pose proof (adds_brainstorm s). quiet.
Qed.

Lemma adds_Execute s : adds (Execute env s) [MCall H_Execute].
Proof.
  unfold Execute.
  apply (adds_bind _ _ [MCall H_Execute] []); [apply (adds_act (Call _))|].
  intros _.
  pose proof (adds_executePairProgramming s).
  pose proof (adds_executeConsultation s).
  pose proof (adds_executeRoundRobin s).
  pose proof (adds_executeDivideConquer s).
  pose proof (adds_executeFreeForm s).
  quiet.
Qed.

End Quiet.

(** *** The helpers of [Run] *)

Lemma adds_eq {A} (m : M A) l l' : adds m l -> l = l' -> adds m l'.
Proof. by intros H <-. Qed.

(** Collect the marks of a straight-line computation. *)
Ltac collect_step :=
  lazymatch goal with
  | |- adds (mret _) _ => apply adds_ret
  | |- adds (print _) _ => apply adds_print
  | |- adds (println _) _ => apply adds_println
  | |- adds (registry_Invoke _ _ _) _ => apply adds_registry_Invoke
  | |- adds (act _) _ => apply adds_act
  | |- adds (_ ≫= _) _ => eapply adds_bind; [|intros ?]
  | |- adds (match ?r with _ => _ end) _ => destruct r
  | |- adds _ _ => match goal with H : _ |- _ => apply H end
  end.

Ltac collect := repeat collect_step.

Ltac adds_by_collect := eapply adds_eq; [collect | reflexivity].

Lemma adds_printHeader opts : adds (printHeader opts) [MCall H_printHeader].
Proof. unfold printHeader. adds_by_collect. Qed.

Lemma adds_selectPM opts session :
  adds (selectPM opts session) [MCall H_selectPM].
Proof. unfold selectPM. adds_by_collect. Qed.

Lemma adds_createPlan env opts session :
  adds (createPlan env opts session) [MCall H_createPlan].
Proof. unfold createPlan. adds_by_collect. Qed.

Lemma adds_requestApproval checkpoint description :
  adds (requestApproval checkpoint description) [MCall H_requestApproval].
Proof. unfold requestApproval. adds_by_collect. Qed.

Lemma adds_runReview env session :
  adds (runReview env session) [MCall H_runReview].
Proof. unfold runReview. adds_by_collect. Qed.

Lemma adds_save_artifacts env dir artifacts :
  adds (save_artifacts env dir artifacts) [].
Proof.
  induction artifacts as [|artifact artifacts IH]; simpl; quiet.
Qed.

Lemma adds_deliver env session opts :
  adds (deliver env session opts) [MCall H_deliver].
Proof.
  unfold deliver. pose proof (adds_save_artifacts env).
  adds_by_collect.
Qed.

Lemma adds_printSummary env session :
  adds (printSummary env session) [MCall H_printSummary].
Proof. unfold printSummary. adds_by_collect. Qed.

Lemma adds_set_Phase session p : adds (set_Phase session p) [MSet p].
Proof. unfold set_Phase. adds_by_collect. Qed.

Lemma adds_emit_steps pm steps : adds (emit_steps pm steps) [].
Proof.
  induction steps as [|step steps IH]; simpl; [quiet|].
  apply adds_bind_nil; [|done].
  apply (adds_act (Emit (NewTaskEvent EventTaskCreated _ _ _))).
Qed.

Lemma adds_emit event :
  adds (emit event) (match mark_event event with Some k => [k] | None => [] end).
Proof. apply (adds_act (Emit event)). Qed.

(** *** The selector never fails *)

Lemma Select_no_error task members : (PMSelector.Select task members).2 = None.
Proof.
  unfold PMSelector.Select.
  destruct (PMSelector.select_loop _ _ _ _) as [bestPM bestScore].
  destruct (String.eqb bestPM ""); [|done].
  destruct (PMSelector.is_available members "claude"); [done|].
  by destruct members.
Qed.

Lemma selectPM_no_error opts session st :
  (selectPM opts session st).1.2 = None.
Proof.
  unfold selectPM. simpl.
  destruct (negb (String.eqb (PM opts) "")); simpl; [done|].
  apply Select_no_error.
Qed.

Lemma requestApproval_true checkpoint description st :
  (requestApproval checkpoint description st).1 = true.
Proof. done. Qed.

Lemma deliver_no_error env session opts st :
  (deliver env session opts st).1 = None.
Proof.
  unfold deliver, mbind, M_bind. simpl.
  repeat (match goal with
          | |- context [match ?x with _ => _ end] => destruct x
          end; simpl); done.
Qed.

(** *** Where a run can end *)

Section Ends.
Variables gate dir : bool.

(** From a trace with marks [pre], the computation ends the run at
    some stage, returning its error and leaving its marks. *)
Definition ends (m : M (option error)) (pre : list Mark) : Prop :=
  forall st, marks (trace st) = pre ->
    exists stage, (m st).1 = stage_error stage /\
                  marks (trace (m st).2) = expected_marks gate dir stage.

Lemma ends_bind {A} (m : M A) (f : A -> M (option error)) l
    (Q : A -> Prop) pre pre' :
  adds m l -> (forall st, Q (m st).1) -> pre ++ l = pre' ->
  (forall a, Q a -> ends (f a) pre') -> ends (m ≫= f) pre.
Proof.
  intros Hm HQ <- Hf st Hpre. unfold mbind, M_bind.
  specialize (Hm st). specialize (HQ st).
  destruct (m st) as [a st']. simpl in *.
  apply (Hf a HQ st'). by rewrite Hm, Hpre.
Qed.

Lemma ends_ret r pre stage :
  r = stage_error stage -> pre = expected_marks gate dir stage ->
  ends (mret r) pre.
Proof. intros -> -> st Hst. exists stage. by split. Qed.
End Ends.

(** One statement of [Run]: its marks, what is known of its result,
    and the rest of the run. *)
Ltac adds_of m :=
  lazymatch m with
  | printHeader _ => apply adds_printHeader
  | selectPM _ _ => apply adds_selectPM
  | createPlan _ _ _ => apply adds_createPlan
  | requestApproval _ _ => apply adds_requestApproval
  | runReview _ _ => apply adds_runReview
  | deliver _ _ _ => apply adds_deliver
  | printSummary _ _ => apply adds_printSummary
  | set_Phase _ _ => apply adds_set_Phase
  | emit_steps _ _ => apply adds_emit_steps
  | Execute _ _ => apply adds_Execute
  | print _ => apply adds_print
  | mret _ => apply adds_ret
  | emit _ => apply adds_emit
  end.

Ltac run_step Q :=
  lazymatch goal with
  | |- ends _ _ (?m ≫= _) _ =>
      eapply (ends_bind _ _ _ _ _ Q); [adds_of m | | lazy; reflexivity | ]
  end.

Ltac next := cbv beta zeta iota delta [negb].

Ltac run_plain :=
  run_step (fun _ : unit => True); [intros; exact I | intros _ _; next].

Ltac run_any :=
  run_step (fun _ : Session => True); [intros; exact I | intros ? _; next].

Lemma Run_ends env opts : ends (gate_of opts) (dir_of opts) (Run env opts) [].
Proof.
  unfold Run, gate_of, dir_of.
  destruct (negb (String.eqb (CheckpointLevel opts) _)) eqn:Hgate;
    destruct (negb (String.eqb (OutputDir opts) "")) eqn:Hdir.
  all: next; run_plain; run_plain.
  all: run_step (fun sel : string * option error => sel.2 = None);
    [intros; apply selectPM_no_error | intros [pm err] Herr].
  all: simpl in Herr; subst err; next.
  all: do 3 run_plain.
  all: run_any.
  all: run_step (fun _ : result (Plan * WorkMode) => True);
    [intros; exact I | intros [[plan mode]|err] _; next].
  all: try (run_plain; apply (ends_ret _ _ _ _ (PlanningFailed err)); reflexivity).
  all: do 4 run_plain.
  all: run_step (fun approved : bool => approved = true);
    [intros; reflexivity | intros approved ->; next].
  all: first
    [ eapply (ends_bind _ _ _ _ [MCall H_MkdirAll] (fun _ => True));
      [ eapply adds_eq;
        [ eapply adds_bind; [apply (adds_act (Call H_MkdirAll))|intros ?; apply adds_ret]
        | reflexivity ]
      | intros; exact I | lazy; reflexivity | intros made _; next ]
    | run_step (fun made : option error => made = None);
      [intros; reflexivity | intros made ->; next] ].
  all: try (destruct made as [err|];
            [apply (ends_ret _ _ _ _ (DirectoryFailed err)); reflexivity|]).
  all: run_plain.
  all: run_any.
  all: run_step (fun _ : result (list Artifact) => True);
    [intros; exact I | intros [artifacts|err] _; next].
  all: try (run_plain; apply (ends_ret _ _ _ _ (ExecutionFailed err)); reflexivity).
  all: run_plain.
  all: run_any.
  all: run_step (fun _ : option error => True);
    [intros; exact I | intros [err|] _; next].
  all: try (apply (ends_ret _ _ _ _ (ReviewFailed err)); reflexivity).
  all: run_plain.
  all: run_any.
  all: run_step (fun delivered : option error => delivered = None);
    [intros; apply deliver_no_error | intros delivered ->; next].
  all: run_any.
  all: do 2 run_plain.
  all: apply (ends_ret _ _ _ _ Finished); reflexivity.
Qed.

(** Every run ends at one of the five stages, with that stage's error
    and marks. *)
Lemma run_cases env opts :
  exists stage,
    (Run env opts start).1 = stage_error stage /\
    marks (trace (Run env opts start).2)
    = expected_marks (gate_of opts) (dir_of opts) stage.
Proof. by apply Run_ends. Qed.

(** *** From marks back to the trace *)

Lemma marks_split tr l1 a l2 k :
  tr = l1 ++ a :: l2 -> mark a = Some k ->
  marks tr = marks l1 ++ k :: marks l2.
Proof. intros -> Hk. rewrite marks_app. simpl. by rewrite Hk. Qed.

Lemma mark_changed_inv a oldPhase newPhase :
  mark a = Some (MChanged oldPhase newPhase) ->
  a = Emit (phase_changed oldPhase newPhase).
Proof.
  destruct a as [[ty tid actor data]| | | | |]; try done.
  unfold mark, mark_event. simpl.
  destruct ty, data; try done;
    destruct (String.eqb_spec tid ""), (String.eqb_spec actor "system");
    simpl; try done.
  intros [= -> ->]. by subst.
Qed.

Lemma mark_complete_inv a :
  mark a = Some MComplete -> a = Emit session_complete.
Proof.
  destruct a as [[ty tid actor data]| | | | |]; try done.
  unfold mark, mark_event. simpl.
  destruct ty, data; try done;
    destruct (String.eqb_spec tid ""), (String.eqb_spec actor "system");
    simpl; try done.
  all: by subst.
Qed.

Lemma marks_elem tr k :
  k ∈ marks tr -> exists a, In a tr /\ mark a = Some k.
Proof.
  intros Hk. apply list_elem_of_omap in Hk as (a & Ha & Hm).
  exists a. split; [|done]. by apply list_elem_of_In.
Qed.

Lemma changed_in_trace tr oldPhase newPhase :
  MChanged oldPhase newPhase ∈ marks tr ->
  In (Emit (phase_changed oldPhase newPhase)) tr.
Proof.
  intros H. apply marks_elem in H as (a & Ha & Hm).
  by rewrite <- (mark_changed_inv _ _ _ Hm).
Qed.

Lemma in_marks tr a k : In a tr -> mark a = Some k -> k ∈ marks tr.
Proof.
  intros Ha Hk. apply list_elem_of_omap. exists a.
  split; [|done]. by apply list_elem_of_In.
Qed.

Lemma phases_marks tr :
  phases tr
  = omap (fun k => match k with MSet p => Some p | _ => None end) (marks tr).
Proof.
  induction tr as [|a tr IH]; [done|].
  unfold phases, marks in *.
  destruct a as [ev| | | | |]; simpl; try exact IH.
  - destruct (mark_event ev) as [k|] eqn:Hev; simpl; [|exact IH].
    assert (Hk : match k with MSet _ => False | _ => True end).
    { unfold mark_event in Hev. repeat case_match; by simplify_eq. }
    destruct k; [done|exact IH..].
  - f_equal. exact IH.
Qed.

(** *** The check is sound *)

Lemma well_announced_sound seen rest :
  well_announced seen rest = true ->
  forall A k B, rest = A ++ k :: B ->
    match k with
    | MSet p =>
        if p =? PhaseComplete then exists B', B = MComplete :: B'
        else MChanged (p - 1) p ∈ seen ++ A
    | MCall h =>
        match helper_phase h with
        | Some p => p = PhaseComplete \/ MChanged (p - 1) p ∈ seen ++ A
        | None => True
        end
    | MChanged _ newPhase => newPhase <> PhaseComplete
    | MError message => message <> "PM selection failed"
    | MComplete => True
    end.
Proof.
  revert seen. induction rest as [|k0 rest IH]; intros seen Hok A k B Hsplit.
  - by destruct A.
  - simpl in Hok. apply andb_true_iff in Hok as [Hhead Htail].
    destruct A as [|a A]; simpl in Hsplit; injection Hsplit as <- ->.
    + rewrite app_nil_r. destruct k0 as [p|h|o n|message|]; [| | | |done].
      * destruct (p =? PhaseComplete); [|by apply bool_decide_eq_true in Hhead].
        destruct B as [|[] B]; try done. eauto.
      * destruct (helper_phase h) as [p|]; [|done].
        destruct (Z.eqb_spec p PhaseComplete); [by left|right].
        by apply bool_decide_eq_true in Hhead.
      * apply negb_true_iff in Hhead. by apply Z.eqb_neq.
      * apply negb_true_iff in Hhead. by apply String.eqb_neq.
    + specialize (IH _ Htail A k B eq_refl).
      by rewrite <- app_assoc in IH.
Qed.

Lemma expected_well_announced gate dir stage :
  well_announced [] (expected_marks gate dir stage) = true.
Proof. by destruct gate, dir, stage. Qed.

(** The marks of a run satisfy every clause of the check. *)
Lemma run_marks_split env opts A k B :
  marks (trace (Run env opts start).2) = A ++ k :: B ->
  match k with
  | MSet p =>
      if p =? PhaseComplete then exists B', B = MComplete :: B'
      else MChanged (p - 1) p ∈ A
  | MCall h =>
      match helper_phase h with
      | Some p => p = PhaseComplete \/ MChanged (p - 1) p ∈ A
      | None => True
      end
  | MChanged _ newPhase => newPhase <> PhaseComplete
  | MError message => message <> "PM selection failed"
  | MComplete => True
  end.
Proof.
  destruct (run_cases env opts) as (stage & _ & Hmarks). rewrite Hmarks.
  apply (well_announced_sound [] _ (expected_well_announced _ _ stage)).
Qed.

Lemma run_marks_elem env opts k :
  k ∈ marks (trace (Run env opts start).2) ->
  match k with
  | MChanged _ newPhase => newPhase <> PhaseComplete
  | MError message => message <> "PM selection failed"
  | _ => True
  end.
Proof.
  intros Hk. apply list_elem_of_split in Hk as (A & B & Hsplit).
  pose proof (run_marks_split env opts A k B Hsplit) as H.
  by destruct k.
Qed.

Lemma run_phases env opts :
  exists n,
    phases (trace (Run env opts start).2)
    = take n [PhasePlanning; PhaseExecution; PhaseReview; PhaseDelivery;
              PhaseComplete] /\
    ((Run env opts start).1 = None <-> n = 5%nat).
Proof.
  destruct (run_cases env opts) as (stage & Herr & Hmarks).
  rewrite phases_marks, Hmarks, Herr.
  destruct stage, (gate_of opts), (dir_of opts); simpl;
    first [ by exists 1%nat | by exists 2%nat | by exists 3%nat
          | by exists 5%nat ].
Qed.

(** *** The phase machine *)

Lemma complete_is_set :
  In (SetPhase PhaseComplete)
     (trace (Run (scripted [] "ok") (example_options ModeRoundRobin) start).2).
Proof. vm_compute. repeat (first [left; reflexivity | right]). Qed.

Lemma complete_unannounced env opts :
  In (SetPhase PhaseComplete) (trace (Run env opts start).2) ->
  ~ (forall l1 l2 p, trace (Run env opts start).2 = l1 ++ SetPhase p :: l2 ->
       In (Emit (phase_changed (p - 1) p)) l1).
Proof.
  intros Ha H.
  apply in_split in Ha as (l1 & l2 & Hsplit).
  specialize (H l1 l2 PhaseComplete Hsplit).
  assert (Hin : In (Emit (phase_changed (PhaseComplete - 1) PhaseComplete))
                   (trace (Run env opts start).2)).
  { rewrite Hsplit. apply in_or_app. by left. }
  eapply in_marks in Hin; [|reflexivity].
  by apply run_marks_elem in Hin.
Qed.

(** C1, as worded, fails: the assignment of [PhaseComplete] has no
    phase-changed event before it. *)
Lemma completion_not_announced : ~ every_transition_announced.
Proof.
  intros H.
  apply (complete_unannounced (scripted [] "ok")
           (example_options ModeRoundRobin)).
  - apply complete_is_set.
  - apply H.
Qed.

(** C1 (amended).  In every run of [Run] the session's phase, which
    starts at Analysis, is assigned Planning, Execution, Review,
    Delivery and Complete in this order, one after the other, up to the
    point where the run ends, and all five exactly when the run returns
    no error.  Every assignment of a phase other than Complete has the
    phase-changed event carrying its old and new phase earlier in the
    run, and so has every helper doing the work of such a phase.  The
    assignment of Complete has no phase-changed event: no event into
    Complete is ever emitted; the session-complete event follows the
    assignment. *)
Theorem phases_forward_and_announced (env : Env) (opts : Options) :
  let tr := trace (Run env opts start).2 in
  (exists n,
     phases tr = take n [PhasePlanning; PhaseExecution; PhaseReview;
                         PhaseDelivery; PhaseComplete] /\
     ((Run env opts start).1 = None <-> n = 5%nat)) /\
  (forall l1 l2 p, tr = l1 ++ SetPhase p :: l2 -> p <> PhaseComplete ->
     In (Emit (phase_changed (p - 1) p)) l1) /\
  (forall l1 l2 h p, tr = l1 ++ Call h :: l2 ->
     helper_phase h = Some p -> p <> PhaseComplete ->
     In (Emit (phase_changed (p - 1) p)) l1) /\
  (forall oldPhase, ~ In (Emit (phase_changed oldPhase PhaseComplete)) tr) /\
  (forall l1 l2, tr = l1 ++ SetPhase PhaseComplete :: l2 ->
     In (Emit session_complete) l2).
Proof.
  intros tr. split_and!.
  - apply run_phases.
  - intros l1 l2 p Hsplit Hp.
    pose proof (run_marks_split env opts _ _ _
                  (marks_split _ _ _ _ (MSet p) Hsplit eq_refl)) as H.
    simpl in H. destruct (Z.eqb_spec p PhaseComplete); [done|].
    by apply changed_in_trace.
  - intros l1 l2 h p Hsplit Hh Hp.
    pose proof (run_marks_split env opts _ _ _
                  (marks_split _ _ _ _ (MCall h) Hsplit eq_refl)) as H.
    simpl in H. rewrite Hh in H. destruct H as [|H]; [done|].
    by apply changed_in_trace.
  - intros oldPhase Hin.
    eapply in_marks in Hin; [|reflexivity].
    by apply run_marks_elem in Hin.
  - intros l1 l2 Hsplit.
    pose proof (run_marks_split env opts _ _ _
                  (marks_split _ _ _ _ (MSet PhaseComplete) Hsplit eq_refl)) as H.
    simpl in H. destruct H as [B' HB].
    assert (Hc : MComplete ∈ marks l2) by (rewrite HB; apply list_elem_of_here).
    apply marks_elem in Hc as (a & Ha & Hm).
    by rewrite <- (mark_complete_inv _ Hm).
Qed.

Lemma phases_forward_and_announced_witness :
  In (Emit (phase_changed (PhaseExecution - 1) PhaseExecution))
     (take 26 (trace (Run (scripted [] "ok") (example_options ModeRoundRobin)
                        start).2)).
Proof.
  refine (proj1 (proj2 (phases_forward_and_announced (scripted [] "ok")
                          (example_options ModeRoundRobin)))
            _ (drop 27 (trace (Run (scripted [] "ok")
                                 (example_options ModeRoundRobin) start).2))
            PhaseExecution _ _).
  - vm_compute. reflexivity.
  - discriminate.
Defined.

(** *** PM selection and the approval gate inside [Run] *)

(** C10.  [Select] returns a nil error for every task and every list of
    members; for the empty list it returns the empty string.  So
    [selectPM] never fails, with or without a forced PM, and no run of
    [Run] takes the branch that reports a failed PM selection: no run
    returns that error or emits that error event. *)
Theorem Select_never_fails :
  (forall task members, (PMSelector.Select task members).2 = None) /\
  (forall task, PMSelector.Select task [] = ("", None)) /\
  (forall opts session st, (selectPM opts session st).1.2 = None) /\
  (forall env opts err,
     (Run env opts start).1 <> Some ("PM selection failed: " +:+ err) /\
     ~ In (Emit (error_event err "PM selection failed"))
          (trace (Run env opts start).2)).
Proof.
  split_and!.
  - apply Select_no_error.
  - done.
  - apply selectPM_no_error.
  - intros env opts err. split.
    + destruct (run_cases env opts) as (stage & -> & _).
      by destruct stage.
    + intros Hin. eapply in_marks in Hin; [|reflexivity].
      by apply run_marks_elem in Hin.
Qed.

Lemma requestApproval_gated env opts :
  In (Call H_requestApproval) (trace (Run env opts start).2) ->
  gate_of opts = true.
Proof.
  intros Hin. eapply in_marks in Hin; [|reflexivity].
  destruct (run_cases env opts) as (stage & _ & Hmarks).
  rewrite Hmarks in Hin. destruct (gate_of opts); [done|].
  apply list_elem_of_In in Hin.
  destruct stage, (dir_of opts); simpl in Hin;
    repeat (destruct Hin as [Hin|Hin]; [discriminate|]); done.
Qed.

(** C8.  At level none no checkpoint type requires approval; at level
    all every type does; at level major exactly plan-approval and
    delivery do, so a milestone checkpoint is granted without approval
    and a delivery checkpoint needs it.  The gate of [Run] before
    execution is the plan-approval case of this rule: [Run] asks for
    approval only at a level at which plan-approval requires it. *)
Theorem RequiresApproval_by_level :
  (forall t, Checkpoint.RequiresApproval Checkpoint.CheckpointNone t = false) /\
  (forall t, Checkpoint.RequiresApproval Checkpoint.CheckpointAll t = true) /\
  (forall t, Checkpoint.RequiresApproval Checkpoint.CheckpointMajor t = true <->
             t = Checkpoint.CheckpointPlanApproval \/
             t = Checkpoint.CheckpointDelivery) /\
  Checkpoint.RequiresApproval Checkpoint.CheckpointMajor
    Checkpoint.CheckpointMilestone = false /\
  Checkpoint.RequiresApproval Checkpoint.CheckpointMajor
    Checkpoint.CheckpointDelivery = true /\
  (forall opts,
     gate_of opts
     = Checkpoint.RequiresApproval (CheckpointLevel opts)
         Checkpoint.CheckpointPlanApproval) /\
  (forall env opts,
     In (Call H_requestApproval) (trace (Run env opts start).2) ->
     Checkpoint.RequiresApproval (CheckpointLevel opts)
       Checkpoint.CheckpointPlanApproval = true).
Proof.
  assert (Hgate : forall opts,
            gate_of opts
            = Checkpoint.RequiresApproval (CheckpointLevel opts)
                Checkpoint.CheckpointPlanApproval).
  { intros opts. unfold gate_of, Checkpoint.RequiresApproval.
    destruct (String.eqb (CheckpointLevel opts) Checkpoint.CheckpointNone);
      [done|].
    by repeat case_match. }
  split_and!; try done.
  - intros t. unfold Checkpoint.RequiresApproval. simpl.
    rewrite orb_true_iff.
    by rewrite !String.eqb_eq.
  - intros env opts Hin. rewrite <- Hgate. by eapply requestApproval_gated.
Qed.

Lemma RequiresApproval_by_level_witness :
  Checkpoint.RequiresApproval
    (CheckpointLevel (example_options ModeRoundRobin))
    Checkpoint.CheckpointPlanApproval = true.
Proof.
  refine (proj2 (proj2 (proj2 (proj2 (proj2 (proj2
            RequiresApproval_by_level)))))
            (scripted [] "ok") (example_options ModeRoundRobin) _).
  vm_compute. repeat (first [left; reflexivity | right]).
Defined.

End EngineProps.

(** ** Mode executors: who is invoked, and which failures end a mode *)

Module ModesProps.
Import Team Engine EngineSpec ModesSpec.

Local Arguments lines : simpl never.
Local Arguments truncateOutput : simpl never.
Local Arguments String.append : simpl never.

(** Unfold the state passing of a straight-line computation. *)
Ltac run := unfold mbind, M_bind, mret, M_ret, println, print, emitTask, emit,
              act, registry_Invoke; simpl.

(** The same without unfolding the loops. *)
Ltac run0 := unfold mbind, M_bind, mret, M_ret, println, print, emitTask, emit,
               act, registry_Invoke;
             cbn [ncalls trace fst snd].

Ltac red0 := cbn [ncalls trace fst snd].

Lemma grows_ret {A} (a : A) : grows (mret a).
Proof. by intros st b Hb. Qed.

Lemma grows_bind {A B} (m : M A) (f : A -> M B) :
  grows m -> (forall a, grows (f a)) -> grows (m ≫= f).
Proof.
  intros Hm Hf st b Hb. unfold mbind, M_bind.
  specialize (Hm st b Hb). destruct (m st) as [a st']. by apply Hf.
Qed.

Lemma grows_act a : grows (act a).
Proof. intros st b Hb. simpl. apply in_or_app. by left. Qed.

Lemma grows_registry_Invoke env aiID req : grows (registry_Invoke env aiID req).
Proof. intros st b Hb. simpl. apply in_or_app. by left. Qed.

Ltac grows_step :=
  lazymatch goal with
  | |- grows (mret _) => apply grows_ret
  | |- grows (print _) => apply grows_act
  | |- grows (println _) => apply grows_act
  | |- grows (act _) => apply grows_act
  | |- grows (emitTask _ _ _ _) => apply grows_act
  | |- grows (registry_Invoke _ _ _) => apply grows_registry_Invoke
  | |- grows (_ ≫= _) => apply grows_bind; [|intros ?]
  | |- grows (match ?r with _ => _ end) => destruct r
  | |- grows _ => match goal with H : _ |- _ => apply H end
  end.

Section Modes.
Variable env : Env.

(** *** Round robin *)








(** *** Free form *)

Lemma grows_brainstorm s members discussion :
  grows (brainstorm env s members discussion).
Proof.
  revert discussion.
  induction members as [|member members IH]; intros; simpl; repeat grows_step.
Qed.

Lemma brainstorm_ncalls s members discussion st :
  ncalls (brainstorm env s members discussion st).2
  = (ncalls st + length members)%nat.
Proof.
  revert discussion st.
  induction members as [|member members IH]; intros discussion st.
  - simpl. lia.
  - simpl. run. destruct (invoke env (ncalls st) member _); run;
      rewrite IH; simpl; lia.
Qed.

Lemma brainstorm_logged s members discussion st k err :
  (k < length members)%nat -> call_fails env (ncalls st + k) err ->
  In (Print ("Failed: " +:+ err +:+ nl))
     (trace (brainstorm env s members discussion st).2).
Proof.
  revert discussion st k.
  induction members as [|member members IH]; intros discussion st k Hk Hfail.
  - simpl in Hk. lia.
  - simpl. run. destruct k as [|k].
    + rewrite Nat.add_0_r in Hfail. rewrite Hfail. run.
      apply grows_brainstorm. simpl. apply in_or_app. right. by left.
    + destruct (invoke env (ncalls st) member _); run;
        (apply (IH _ _ k); [simpl in Hk; lia|];
         match goal with
         | |- call_fails _ ?n _ =>
             by replace n with (ncalls st + S k)%nat by (simpl; lia)
         end).
Qed.

(** Use what is known of the invocation numbered [n]. *)
Ltac invoke_ok H :=
  red0;
  match goal with
  | |- context [invoke env ?n ?aiID ?req] =>
      let Hi := fresh "Hi" in
      let Hx := fresh "Hx" in
      destruct (invoke env n aiID req) eqn:Hi;
      [|exfalso; pose proof (H aiID req) as Hx; rewrite Hi in Hx;
        discriminate Hx]
  end.

Lemma executeFreeForm_policy s st :
  let n := (ncalls st + length (sMembers s))%nat in
  (call_ok env n -> call_ok env (S n) ->
   is_Ok (executeFreeForm env s st).1 = true) /\
  (forall err, call_fails env n err ->
     (executeFreeForm env s st).1 = Err err) /\
  (forall err, call_ok env n -> call_fails env (S n) err ->
     (executeFreeForm env s st).1 = Err err) /\
  (forall k err,
     (k < length (sMembers s))%nat -> call_fails env (ncalls st + k) err ->
     In (Print ("Failed: " +:+ err +:+ nl))
        (trace (executeFreeForm env s st).2)).
Proof.
  intros n. unfold executeFreeForm. run0.
  match goal with
  | |- context [brainstorm env s ?ms ?acc ?st0] =>
      pose proof (brainstorm_ncalls s ms acc st0) as Hn;
      pose proof (fun k err => brainstorm_logged s ms acc st0 k err) as Hlog;
      destruct (brainstorm env s ms acc st0) as [discussion st1]
  end.
  simpl in Hn, Hlog. fold n in Hn. red0. rewrite Hn. split_and!.
  - intros Hok1 Hok2. invoke_ok Hok1. by invoke_ok Hok2.
  - intros err Hfail. by rewrite Hfail.
  - intros err Hok1 Hfail. invoke_ok Hok1. red0. by rewrite Hfail.
  - intros k err Hk Hfail. specialize (Hlog k err Hk Hfail).
    destruct (invoke env n (sPM s) _); red0;
      [destruct (invoke env (S n) (sPM s) _)|]; red0;
      repeat (apply in_or_app; left); done.
Qed.

(** *** Consultation *)

Lemma grows_consult_members s members context :
  grows (consult_members env s members context).
Proof.
  revert context.
  induction members as [|member members IH]; intros; simpl; repeat grows_step.
Qed.

Lemma consult_members_ncalls s members context st :
  ncalls (consult_members env s members context st).2
  = (ncalls st + consulted (sPM s) members)%nat.
Proof.
  revert context st. unfold consulted.
  induction members as [|member members IH]; intros context st.
  - simpl. lia.
  - simpl. destruct (String.eqb member (sPM s)); simpl; [apply IH|].
    run. destruct (invoke env (ncalls st) member _); run;
      rewrite IH; simpl; lia.
Qed.

Lemma consult_members_logged s members context st k err :
  (k < consulted (sPM s) members)%nat -> call_fails env (ncalls st + k) err ->
  In (Print ("Consultation failed: " +:+ err +:+ nl))
     (trace (consult_members env s members context st).2).
Proof.
  revert context st k. unfold consulted.
  induction members as [|member members IH]; intros context st k Hk Hfail.
  - simpl in Hk. lia.
  - simpl in *. destruct (String.eqb member (sPM s)); simpl in *;
      [by apply (IH _ _ k)|].
    run. destruct k as [|k].
    + rewrite Nat.add_0_r in Hfail. rewrite Hfail. run.
      apply grows_consult_members. simpl. apply in_or_app. right. by left.
    + destruct (invoke env (ncalls st) member _); run;
        (apply (IH _ _ k); [lia|];
         match goal with
         | |- call_fails _ ?n _ =>
             by replace n with (ncalls st + S k)%nat by (simpl; lia)
         end).
Qed.

Lemma executeConsultation_policy s st :
  let n := ncalls st in
  let final := (n + 1 + consulted (sPM s) (sMembers s))%nat in
  (call_ok env n -> call_ok env final ->
   is_Ok (executeConsultation env s st).1 = true) /\
  (forall err, call_fails env n err ->
     (executeConsultation env s st).1 = Err err) /\
  (forall err, call_ok env n -> call_fails env final err ->
     (executeConsultation env s st).1 = Err err) /\
  (forall k err,
     call_ok env n -> (k < consulted (sPM s) (sMembers s))%nat ->
     call_fails env (n + 1 + k) err ->
     In (Print ("Consultation failed: " +:+ err +:+ nl))
        (trace (executeConsultation env s st).2)).
Proof.
  intros n final. unfold executeConsultation. run0. fold n.
  assert (Hfinal : (S n + consulted (sPM s) (sMembers s))%nat = final)
    by (unfold final; lia).
  split_and!.
  - intros Hok1 Hok2. invoke_ok Hok1.
    match goal with
    | |- context [consult_members env s ?ms ?acc ?st0] =>
        pose proof (consult_members_ncalls s ms acc st0) as Hn;
        destruct (consult_members env s ms acc st0) as [context st1]
    end.
    cbn [ncalls trace fst snd] in Hn. red0. rewrite Hn, Hfinal.
    by invoke_ok Hok2.
  - intros err Hfail. by rewrite Hfail.
  - intros err Hok1 Hfail. invoke_ok Hok1.
    match goal with
    | |- context [consult_members env s ?ms ?acc ?st0] =>
        pose proof (consult_members_ncalls s ms acc st0) as Hn;
        destruct (consult_members env s ms acc st0) as [context st1]
    end.
    cbn [ncalls trace fst snd] in Hn. red0. rewrite Hn, Hfinal.
    by rewrite Hfail.
  - intros k err Hok1 Hk Hfail. invoke_ok Hok1.
    match goal with
    | |- context [consult_members env s ?ms ?acc ?st0] =>
        pose proof (consult_members_logged s ms acc st0 k err Hk) as Hlog;
        destruct (consult_members env s ms acc st0) as [context st1]
    end.
    cbn [ncalls trace fst snd] in Hlog. red0.
    assert (Hin : In (Print ("Consultation failed: " +:+ err +:+ nl)) (trace st1)).
    { apply Hlog. by replace (S n + k)%nat with (n + 1 + k)%nat by lia. }
    destruct (invoke env (ncalls st1) (sPM s) _); red0;
      repeat (apply in_or_app; left); done.
Qed.

(** *** Divide and conquer *)

Lemma grows_spawn i members : grows (spawn i members).
Proof.
  revert i. induction members as [|member members IH]; intros; simpl;
    repeat grows_step.
Qed.

Lemma spawn_ncalls i members st : ncalls (spawn i members st).2 = ncalls st.
Proof.
  revert i st. induction members as [|member members IH]; intros i st; [done|].
  simpl. run. by rewrite IH.
Qed.

Lemma grows_report_errors i errors : grows (report_errors i errors).
Proof.
  revert i. induction errors as [|[err|] errors IH]; intros; simpl;
    repeat grows_step.
Qed.

Lemma report_errors_ncalls i errors st :
  ncalls (report_errors i errors st).2 = ncalls st.
Proof.
  revert i st. induction errors as [|[err|] errors IH]; intros i st; [done|..].
  - simpl. run. by rewrite IH.
  - simpl. by rewrite IH.
Qed.

Lemma report_errors_logged j errors st i err :
  errors !! i = Some (Some err) ->
  In (Print ("Subtask " +:+ pretty (j + i + 1)%nat +:+ " failed: " +:+ err +:+ nl))
     (trace (report_errors j errors st).2).
Proof.
  revert j st i. induction errors as [|e errors IH]; intros j st i Hi; [done|].
  destruct i as [|i].
  - injection Hi as ->. simpl. run. apply grows_report_errors. simpl.
    apply in_or_app. right. left.
    by replace (j + 0 + 1)%nat with (j + 1)%nat by lia.
  - simpl in Hi. replace (j + S i + 1)%nat with (S j + i + 1)%nat by lia.
    destruct e as [err'|]; simpl; [run|]; exact (IH (S j) _ i Hi).
Qed.

Lemma worker_stream_error s divided i m tid err :
  (forall req, stream env i m req = Err err) ->
  (worker env s divided i m tid).1.2 = Some err.
Proof. intros Hfail. unfold worker. by rewrite Hfail. Qed.

Lemma workers_errors s divided i m err :
  sMembers s !! i = Some m ->
  (forall req, stream env i m req = Err err) ->
  map (fun w : string * option error * list Action => w.1.2)
      (run_workers env s divided) !! i = Some (Some err).
Proof.
  intros Hm Hfail. unfold run_workers.
  rewrite list_lookup_fmap, list_lookup_imap, Hm. simpl.
  by rewrite (worker_stream_error _ _ _ _ _ err).
Qed.

(** Run the spawning loop and the error report, keeping what is known
    of the states they leave. *)
Ltac past_workers :=
  let Hs := fresh "Hspawn" in
  let Hr := fresh "Hreport" in
  let Hl := fresh "Hlogged" in
  match goal with
  | |- context [spawn ?i ?ms ?st0] =>
      pose proof (spawn_ncalls i ms st0) as Hs;
      destruct (spawn i ms st0) as [[] ?st];
      cbn [ncalls trace fst snd] in Hs; red0
  end;
  match goal with
  | |- context [report_errors ?i ?errs ?st0] =>
      pose proof (report_errors_ncalls i errs st0) as Hr;
      pose proof (fun k err => report_errors_logged i errs st0 k err) as Hl;
      destruct (report_errors i errs st0) as [[] ?st];
      cbn [ncalls trace fst snd] in Hr, Hl; red0;
      rewrite Hr, Hs
  end.

Lemma executeDivideConquer_policy s st :
  let n := ncalls st in
  (call_ok env n -> call_ok env (S n) ->
   is_Ok (executeDivideConquer env s st).1 = true) /\
  (forall err, call_fails env n err ->
     (executeDivideConquer env s st).1 = Err err) /\
  (forall err, call_ok env n -> call_fails env (S n) err ->
     (executeDivideConquer env s st).1 = Err err) /\
  (forall i m err,
     call_ok env n -> sMembers s !! i = Some m ->
     (forall req, stream env i m req = Err err) ->
     In (Print ("Subtask " +:+ pretty (i + 1)%nat +:+ " failed: " +:+ err +:+ nl))
        (trace (executeDivideConquer env s st).2)).
Proof.
  intros n. unfold executeDivideConquer. run0. fold n. split_and!.
  - intros Hok1 Hok2. invoke_ok Hok1. past_workers. by invoke_ok Hok2.
  - intros err Hfail. by rewrite Hfail.
  - intros err Hok1 Hfail. invoke_ok Hok1. past_workers. by rewrite Hfail.
  - intros i m err Hok1 Hm Hfail. invoke_ok Hok1. past_workers.
    match goal with
    | Hl : forall k err, _ !! k = Some (Some err) -> _ |- _ =>
        pose proof (Hl i err (workers_errors _ _ _ _ _ Hm Hfail)) as Hin
    end.
    simpl in Hin.
    destruct (invoke env (S n) (sPM s) _); red0;
      repeat (apply in_or_app; left); done.
Qed.

(** *** Pair programming *)








End Modes.
(** *** The failure policy of each mode *)



(** Free form: with [n] the number of the call that follows the
    brainstorm, the mode succeeds when the PM's synthesis (call [n]) and
    final output (call [n + 1]) succeed; a failure of either is returned
    as it is; a failed brainstorm contribution is only reported. *)
Theorem free_form_failure_policy env s st :
  let n := (ncalls st + length (sMembers s))%nat in
  (call_ok env n -> call_ok env (S n) ->
   is_Ok (executeFreeForm env s st).1 = true) /\
  (forall err, call_fails env n err ->
     (executeFreeForm env s st).1 = Err err) /\
  (forall err, call_ok env n -> call_fails env (S n) err ->
     (executeFreeForm env s st).1 = Err err) /\
  (forall k err,
     (k < length (sMembers s))%nat -> call_fails env (ncalls st + k) err ->
     In (Print ("Failed: " +:+ err +:+ nl))
        (trace (executeFreeForm env s st).2)).
Proof. exact (executeFreeForm_policy env s st). Qed.

Lemma free_form_failure_policy_witness :
  let env := scripted [0%nat; 3%nat] "ok" in
  let s := example_session ModeFreeForm in
  (executeFreeForm env s start).1 = Err "boom" /\
  In (Print ("Failed: boom" +:+ nl)) (trace (executeFreeForm env s start).2).
Proof.
  destruct (free_form_failure_policy (scripted [0%nat; 3%nat] "ok")
              (example_session ModeFreeForm) start) as (_ & _ & Hfinal & Hlog).
  split.
  - apply Hfinal; intros aiID req; reflexivity.
  - apply (Hlog 0%nat "boom"); [simpl; lia|]. intros aiID req. reflexivity.
Defined.

(** Consultation: with [n] the number of its first call, the mode
    succeeds when the PM's initial approach (call [n]) and final output
    (the call after the consultations) succeed; a failure of either is
    returned as it is; a failed consultation is only reported. *)
Theorem consultation_failure_policy env s st :
  let n := ncalls st in
  let final := (n + 1 + consulted (sPM s) (sMembers s))%nat in
  (call_ok env n -> call_ok env final ->
   is_Ok (executeConsultation env s st).1 = true) /\
  (forall err, call_fails env n err ->
     (executeConsultation env s st).1 = Err err) /\
  (forall err, call_ok env n -> call_fails env final err ->
     (executeConsultation env s st).1 = Err err) /\
  (forall k err,
     call_ok env n -> (k < consulted (sPM s) (sMembers s))%nat ->
     call_fails env (n + 1 + k) err ->
     In (Print ("Consultation failed: " +:+ err +:+ nl))
        (trace (executeConsultation env s st).2)).
Proof. exact (executeConsultation_policy env s st). Qed.

Lemma consultation_failure_policy_witness :
  let env := scripted [1%nat] "ok" in
  let s := example_session ModeConsultation in
  is_Ok (executeConsultation env s start).1 = true /\
  In (Print ("Consultation failed: boom" +:+ nl))
     (trace (executeConsultation env s start).2).
Proof.
  destruct (consultation_failure_policy (scripted [1%nat] "ok")
              (example_session ModeConsultation) start) as (Hok & _ & _ & Hlog).
  split.
  - apply Hok; intros aiID req; reflexivity.
  - apply (Hlog 0%nat "boom"); [|vm_compute; lia|]; intros aiID req; reflexivity.
Defined.

(** Divide and conquer: with [n] the number of its first call, the mode
    succeeds when the PM's division (call [n]) and merge (call [n + 1])
    succeed, whatever the workers do; a failure of either is returned as
    it is; a worker whose stream cannot be opened is only reported. *)
Theorem divide_conquer_failure_policy env s st :
  let n := ncalls st in
  (call_ok env n -> call_ok env (S n) ->
   is_Ok (executeDivideConquer env s st).1 = true) /\
  (forall err, call_fails env n err ->
     (executeDivideConquer env s st).1 = Err err) /\
  (forall err, call_ok env n -> call_fails env (S n) err ->
     (executeDivideConquer env s st).1 = Err err) /\
  (forall i m err,
     call_ok env n -> sMembers s !! i = Some m ->
     (forall req, stream env i m req = Err err) ->
     In (Print ("Subtask " +:+ pretty (i + 1)%nat +:+ " failed: " +:+ err +:+ nl))
        (trace (executeDivideConquer env s st).2)).
Proof. exact (executeDivideConquer_policy env s st). Qed.

Lemma divide_conquer_failure_policy_witness :
  let env := scripted [1%nat] "ok" in
  let s := example_session ModeDivideConquer in
  (executeDivideConquer env s start).1 = Err "boom".
Proof.
  destruct (divide_conquer_failure_policy (scripted [1%nat] "ok")
              (example_session ModeDivideConquer) start) as (_ & _ & Hmerge & _).
  apply Hmerge; intros aiID req; reflexivity.
Defined.



(** *** The policy of the specification *)




End ModesProps.

(** ** Mode executors: who is asked, in which order, and what is emitted *)

Module ModesOrder.
Import Team Engine EngineSpec ModesSpec.

Local Arguments lines : simpl never.
Local Arguments truncateOutput : simpl never.
Local Arguments String.append : simpl never.

Section Yields.
Context {B : Type} (f : Action -> option B).

Lemma yields_ret {A} (a : A) : yields f (mret a) [].
Proof. intros st. simpl. by rewrite app_nil_r. Qed.

Lemma yields_bind {A C} (m : M A) (k : A -> M C) l1 l2 :
  yields f m l1 -> (forall a, yields f (k a) l2) -> yields f (m ≫= k) (l1 ++ l2).
Proof.
  intros Hm Hk st. unfold mbind, M_bind. specialize (Hm st).
  destruct (m st) as [a st']. rewrite Hk. simpl in Hm. by rewrite Hm, app_assoc.
Qed.

Lemma yields_bind_nil {A C} (m : M A) (k : A -> M C) l :
  yields f m [] -> (forall a, yields f (k a) l) -> yields f (m ≫= k) l.
Proof. intros Hm Hk. by apply (yields_bind m k [] l). Qed.

Lemma yields_bind_one {A C} (m : M A) (k : A -> M C) b l :
  yields f m [b] -> (forall a, yields f (k a) l) -> yields f (m ≫= k) (b :: l).
Proof. intros Hm Hk. by apply (yields_bind m k [b] l). Qed.

Lemma yields_act_none a : f a = None -> yields f (act a) [].
Proof. intros Ha st. simpl. rewrite omap_app. simpl. by rewrite Ha. Qed.

Lemma yields_act_some a b : f a = Some b -> yields f (act a) [b].
Proof. intros Ha st. simpl. rewrite omap_app. simpl. by rewrite Ha. Qed.

Lemma yields_registry_Invoke_none env aiID req :
  f (Invoked aiID req) = None -> yields f (registry_Invoke env aiID req) [].
Proof. intros Ha st. simpl. rewrite omap_app. simpl. by rewrite Ha. Qed.

Lemma yields_registry_Invoke_some env aiID req b :
  f (Invoked aiID req) = Some b -> yields f (registry_Invoke env aiID req) [b].
Proof. intros Ha st. simpl. rewrite omap_app. simpl. by rewrite Ha. Qed.

End Yields.

(** One step of a computation that yields nothing. *)
Ltac silent_step :=
  lazymatch goal with
  | |- yields _ (mret _) _ => apply yields_ret
  | |- yields _ (print _) _ => apply yields_act_none; reflexivity
  | |- yields _ (println _) _ => apply yields_act_none; reflexivity
  | |- yields _ (act _) _ => apply yields_act_none; reflexivity
  | |- yields _ (registry_Invoke _ _ _) _ =>
      apply yields_registry_Invoke_none; reflexivity
  | |- yields _ (_ ≫= _) _ => apply yields_bind_nil; [|intros ?]
  | |- yields _ (match ?r with _ => _ end) _ => destruct r
  end.

(** Unfold the state passing of a straight-line computation, keeping
    the loops folded. *)
Ltac straight :=
  unfold mbind, M_bind, mret, M_ret, println, print, emitTask, emit, act,
    registry_Invoke;
  cbn [ncalls trace fst snd].

(** Use that the next invocation succeeds. *)
Ltac next_ok env H :=
  cbn [ncalls trace fst snd];
  match goal with
  | |- context [invoke env ?n ?aiID ?req] =>
      let Hi := fresh "Hi" in
      let Hx := fresh "Hx" in
      destruct (invoke env n aiID req) eqn:Hi;
      [|exfalso; pose proof (H aiID req) as Hx; rewrite Hi in Hx;
        discriminate Hx]
  end.

Section Order.
Variable env : Env.

(** *** Round robin *)

Lemma asks_round_members s round members accumulated :
  yields invoked_id (round_members env s round members accumulated) members.
Proof.
  revert accumulated.
  induction members as [|member members IH]; intros accumulated; simpl.
  - apply yields_ret.
  - silent_step; [silent_step|].
    apply yields_bind_one; [by apply yields_registry_Invoke_some|].
    intros [resp|err].
    + do 2 (silent_step; [silent_step|]). apply IH.
    + silent_step; [silent_step|]. apply IH.
Qed.

Lemma asks_rounds s rs accumulated :
  yields invoked_id (rounds env s rs accumulated)
         (concat (map (fun _ => sMembers s) rs)).
Proof.
  revert accumulated. induction rs as [|round rs IH]; intros accumulated; simpl.
  - apply yields_ret.
  - silent_step; [silent_step|].
    apply yields_bind; [apply asks_round_members|]. intros acc. apply IH.
Qed.

(** Round robin asks every member twice: the whole roster in order,
    then the whole roster in order again, whatever fails. *)
Theorem round_robin_asks_everyone_twice s st :
  invoked_ids (trace (executeRoundRobin env s st).2)
  = invoked_ids (trace st) ++ sMembers s ++ sMembers s.
Proof.
  revert st. change (yields invoked_id (executeRoundRobin env s)
                       (sMembers s ++ sMembers s)).
  unfold executeRoundRobin. do 2 (silent_step; [silent_step|]).
  replace (sMembers s ++ sMembers s)
    with (concat (map (fun _ => sMembers s) [1; 2]%nat) ++ [])
    by (simpl; by rewrite !app_nil_r).
  apply yields_bind; [apply asks_rounds|]. intros acc. apply yields_ret.
Qed.

(** *** Consultation *)

Lemma asks_consult_members s members context :
  yields invoked_id (consult_members env s members context)
         (List.filter (fun member => negb (String.eqb member (sPM s))) members).
Proof.
  revert context.
  induction members as [|member members IH]; intros context; simpl.
  - apply yields_ret.
  - destruct (String.eqb member (sPM s)); simpl; [apply IH|].
    silent_step; [silent_step|].
    apply yields_bind_one; [by apply yields_registry_Invoke_some|].
    intros [resp|err].
    + do 2 (silent_step; [silent_step|]). apply IH.
    + silent_step; [silent_step|]. apply IH.
Qed.

(** *** Pair programming *)

Lemma asks_pair_turns s turns driver navigator currentWork st :
  (forall j, (j < length turns)%nat -> call_ok env (ncalls st + 2 * j)) ->
  invoked_ids (trace (pair_turns env s turns driver navigator currentWork st).2)
  = invoked_ids (trace st) ++ turn_ids (length turns) driver navigator.
Proof.
  revert driver navigator currentWork st.
  induction turns as [|i turns IH]; intros driver navigator currentWork st Hok.
  - simpl. by rewrite app_nil_r.
  - simpl. ModesProps.run.
    pose proof (Hok 0%nat ltac:(simpl; lia)) as Hok0.
    rewrite Nat.add_0_r in Hok0. next_ok env Hok0. ModesProps.run.
    destruct (invoke env (S (ncalls st)) navigator _); ModesProps.run;
      (rewrite IH;
       [cbn [trace]; unfold invoked_ids; rewrite !omap_app; simpl;
        by rewrite <- !app_assoc
       |intros j Hj; cbn [ncalls];
        (replace (S (S (ncalls st)) + 2 * j)%nat
           with (ncalls st + 2 * S j)%nat by lia);
        apply Hok; simpl; lia]).
Qed.

(** *** Divide and conquer *)

Lemma emits_spawn i members :
  yields emitted_event (spawn i members)
    (imap (fun j member =>
             NewTaskEvent EventTaskStarted (taskID_of (i + j)) member NilData)
          members).
Proof.
  revert i. induction members as [|member members IH]; intros i; simpl.
  - apply yields_ret.
  - unfold emitTask, emit. apply yields_bind_one.
    + apply yields_act_some. simpl. by rewrite Nat.add_0_r.
    + intros []. specialize (IH (S i)).
      erewrite imap_ext; [exact IH|]. intros j m _. simpl. f_equal. f_equal. lia.
Qed.

Lemma emits_report_errors i errors :
  yields emitted_event (report_errors i errors) [].
Proof.
  revert i. induction errors as [|[err|] errors IH]; intros i; simpl.
  - apply yields_ret.
  - silent_step; [silent_step|]. apply IH.
  - apply IH.
Qed.

Lemma asks_spawn i members : yields invoked_id (spawn i members) [].
Proof.
  revert i. induction members as [|member members IH]; intros i; simpl.
  - apply yields_ret.
  - unfold emitTask, emit. silent_step; [silent_step|]. apply IH.
Qed.

Lemma asks_report_errors i errors : yields invoked_id (report_errors i errors) [].
Proof.
  revert i. induction errors as [|[err|] errors IH]; intros i; simpl.
  - apply yields_ret.
  - silent_step; [silent_step|]. apply IH.
  - apply IH.
Qed.

Lemma read_chunks_acts tid m chunks content acts :
  exists progress,
    (read_chunks tid m chunks content acts).2 = acts ++ progress /\
    (length progress <= length chunks)%nat /\
    (is_Ok (read_chunks tid m chunks content acts).1 = true ->
     length progress = length chunks) /\
    Forall (fun a => exists text,
              a = Emit (NewTaskEvent EventTaskProgress tid m
                          (TaskProgressData text (1 # 2)))) progress.
Proof.
  revert content acts.
  induction chunks as [|chunk chunks IH]; intros content acts; simpl.
  - exists []. by rewrite app_nil_r.
  - destruct (ChunkError chunk) as [err|]; simpl.
    + exists []. rewrite app_nil_r. split_and!; [done|simpl; lia|done|done].
    + destruct (IH (content +:+ ChunkContent chunk)
                  (acts ++ [Emit (NewTaskEvent EventTaskProgress tid m
                              (TaskProgressData (ChunkContent chunk) (1 # 2)))]))
        as (progress & Hacts & Hlen & Hall & Hprog).
      eexists (_ :: progress). rewrite Hacts, <- app_assoc. simpl.
      split_and!; [done|simpl; lia|intros H; simpl; by rewrite Hall|].
      constructor; [by eexists|done].
Qed.

End Order.

(** A consultation whose first call succeeds asks the PM, then every
    member that is not the PM, in roster order, then the PM again: the PM
    is never consulted, however often it is listed. *)
Theorem consultation_never_consults_pm env s st :
  call_ok env (ncalls st) ->
  invoked_ids (trace (executeConsultation env s st).2)
  = invoked_ids (trace st)
    ++ [sPM s]
    ++ List.filter (fun member => negb (String.eqb member (sPM s))) (sMembers s)
    ++ [sPM s].
Proof.
  intros Hok. unfold executeConsultation. straight. next_ok env Hok.
  match goal with
  | |- context [consult_members env s ?ms ?acc ?st0] =>
      pose proof (asks_consult_members env s ms acc st0) as Hasks;
      destruct (consult_members env s ms acc st0) as [context st1]
  end.
  cbn [ncalls trace fst snd] in Hasks |- *. fold invoked_ids in Hasks.
  destruct (invoke env (ncalls st1) (sPM s) _); cbn [ncalls trace fst snd];
    unfold invoked_ids in *; rewrite !omap_app, Hasks, !omap_app; simpl;
    rewrite !app_nil_r; by rewrite <- !app_assoc.
Qed.

Lemma consultation_never_consults_pm_witness :
  let env := scripted [] "ok" in
  let s := example_session ModeConsultation in
  invoked_ids (trace (executeConsultation env s start).2)
  = ["gpt"; "claude"; "gpt"].
Proof.
  apply (consultation_never_consults_pm (scripted [] "ok")
           (example_session ModeConsultation) start).
  intros aiID req. reflexivity.
Defined.

(** In pair programming the driver and the navigator change places
    after every turn: when the three driver calls succeed, the first
    member is asked first, then the navigator twice in a row, then the
    first member twice, then the navigator.  The navigator is the third
    member when the first member is the PM and there is a third member,
    and the second member otherwise. *)
Theorem pair_programming_roles_swap env s st m0 m1 others :
  sMembers s = m0 :: m1 :: others ->
  call_ok env (ncalls st) -> call_ok env (ncalls st + 2) ->
  call_ok env (ncalls st + 4) ->
  let navigator :=
    match others with
    | m2 :: _ => if String.eqb m0 (sPM s) then m2 else m1
    | [] => m1
    end in
  invoked_ids (trace (executePairProgramming env s st).2)
  = invoked_ids (trace st)
    ++ [m0; navigator; navigator; m0; m0; navigator].
Proof.
  intros Hmembers H0 H2 H4 navigator. unfold executePairProgramming.
  rewrite Hmembers. straight. fold navigator.
  match goal with
  | |- context [pair_turns env s ?ts ?d ?nv ?cw ?st0] =>
      pose proof (asks_pair_turns env s ts d nv cw st0) as Hasks;
      destruct (pair_turns env s ts d nv cw st0) as [r st1]
  end.
  cbn [ncalls trace fst snd length] in Hasks.
  destruct r; cbn [ncalls trace fst snd]; rewrite Hasks.
  all: try (unfold invoked_ids; rewrite !omap_app; simpl;
            by rewrite !app_nil_r).
  all: intros [|[|[|j]]] Hj; try lia.
  all: first [ by rewrite Nat.add_0_r
             | by replace (ncalls st + 2 * 1)%nat with (ncalls st + 2)%nat by lia
             | by replace (ncalls st + 2 * 2)%nat with (ncalls st + 4)%nat by lia ].
Qed.

Lemma pair_programming_roles_swap_witness :
  invoked_ids (trace (executePairProgramming (scripted [1%nat] "ok")
                        (example_trio "gpt") start).2)
  = ["gpt"; "gemini"; "gemini"; "gpt"; "gpt"; "gemini"] /\
  invoked_ids (trace (executePairProgramming (scripted [1%nat] "ok")
                        (example_trio "claude") start).2)
  = ["gpt"; "claude"; "claude"; "gpt"; "gpt"; "claude"].
Proof.
  split.
  - apply (pair_programming_roles_swap (scripted [1%nat] "ok")
             (example_trio "gpt") start "gpt" "claude" ["gemini"]);
      [reflexivity|..]; intros aiID req; reflexivity.
  - apply (pair_programming_roles_swap (scripted [1%nat] "ok")
             (example_trio "claude") start "gpt" "claude" ["gemini"]);
      [reflexivity|..]; intros aiID req; reflexivity.
Defined.

(** Divide and conquer, once the PM has divided the task: the
    executor itself emits one [task-started] event per member, in roster
    order, numbered from [subtask_1], and nothing else; and it invokes
    the PM twice and nobody else (the members are streamed). *)
Theorem divide_conquer_starts_every_member env s st :
  call_ok env (ncalls st) ->
  emitted (trace (executeDivideConquer env s st).2)
  = emitted (trace st) ++ started_events (sMembers s) /\
  invoked_ids (trace (executeDivideConquer env s st).2)
  = invoked_ids (trace st) ++ [sPM s; sPM s].
Proof.
  intros Hok. unfold executeDivideConquer. straight. next_ok env Hok.
  match goal with
  | |- context [spawn ?i ?ms ?st0] =>
      pose proof (emits_spawn i ms st0) as Hemits;
      pose proof (asks_spawn i ms st0) as Hasks;
      destruct (spawn i ms st0) as [[] st1]
  end.
  cbn [ncalls trace fst snd] in Hemits, Hasks |- *.
  match goal with
  | |- context [report_errors ?i ?errs ?st0] =>
      pose proof (emits_report_errors i errs st0) as Hemits';
      pose proof (asks_report_errors i errs st0) as Hasks';
      destruct (report_errors i errs st0) as [[] st2]
  end.
  cbn [ncalls trace fst snd] in Hemits', Hasks' |- *.
  destruct (invoke env (ncalls st2) (sPM s) _); cbn [ncalls trace fst snd];
    unfold emitted, invoked_ids, started_events in *;
    rewrite !omap_app, ?Hemits', ?Hasks', !omap_app, ?Hemits, ?Hasks, !omap_app;
    simpl; rewrite !app_nil_r; split; by rewrite <- ?app_assoc.
Qed.

Lemma divide_conquer_starts_every_member_witness :
  let env := scripted [] "ok" in
  let s := example_session ModeDivideConquer in
  emitted (trace (executeDivideConquer env s start).2)
  = [NewTaskEvent EventTaskStarted "subtask_1" "gpt" NilData;
     NewTaskEvent EventTaskStarted "subtask_2" "claude" NilData] /\
  invoked_ids (trace (executeDivideConquer env s start).2) = ["gpt"; "gpt"].
Proof.
  apply (divide_conquer_starts_every_member (scripted [] "ok")
           (example_session ModeDivideConquer) start).
  intros aiID req. reflexivity.
Defined.

(** A worker of divide and conquer leaves a result exactly when it leaves
    no error, and emits [task-completed] exactly then; besides that it
    emits progress events for its own task, or one error event when its
    stream could not be opened. *)
Theorem worker_completes_iff_no_error env s divided idx m tid :
  let w := worker env s divided idx m tid in
  (w.1.2 = None <->
   In (Emit (NewTaskEvent EventTaskCompleted tid m NilData)) w.2) /\
  (w.1.2 = None <-> w.1.1 <> "").
Proof.
  unfold worker.
  destruct (stream env idx m _) as [chunks|err]; cbn [fst snd].
  - match goal with
    | |- context [read_chunks ?t ?mm ?cs ?c ?a] =>
        destruct (read_chunks_acts t mm cs c a)
          as (progress & Hacts & _ & _ & Hprog);
        destruct (read_chunks t mm cs c a) as [[content|err] acts]
    end; cbn [fst snd] in *; subst acts.
    + split; split; try done.
      * intros _. apply in_or_app. right. by left.
    + split; split; try done.
      intros [[Hin|[]]|Hin]%in_app_or; [done|].
      apply (proj1 (List.Forall_forall _ _) Hprog) in Hin.
      by destruct Hin as [text Hin].
  - split; split; try done.
    intros [[Hin|[]]|[Hin|[]]]%in_app_or; done.
Qed.

Lemma read_chunks_error tid m chunks content acts :
  Exists (fun c => ChunkError c <> None) chunks ->
  is_Ok (read_chunks tid m chunks content acts).1 = false.
Proof.
  revert content acts.
  induction chunks as [|chunk chunks IH]; intros content acts Hex.
  - by apply Exists_nil in Hex.
  - simpl. destruct (ChunkError chunk) as [err|] eqn:Herr; [done|].
    apply IH. apply Exists_cons in Hex as [Hex|Hex]; [|done].
    by rewrite Herr in Hex.
Qed.

(** A chunk that carries an error ends its worker without a word: the
    error is kept for the report, no result is left, and the worker has
    emitted nothing but progress events: neither [task-completed] nor an
    error event. *)
Theorem worker_chunk_error_is_silent env s divided idx m tid chunks :
  (forall req, stream env idx m req = Ok chunks) ->
  Exists (fun c => ChunkError c <> None) chunks ->
  let w := worker env s divided idx m tid in
  w.1.1 = "" /\ w.1.2 <> None /\
  forall e, In (Emit e) w.2 -> EvType e = EventTaskProgress.
Proof.
  intros Hstream Hex. unfold worker. rewrite Hstream.
  match goal with
  | |- context [read_chunks ?t ?mm ?cs ?c ?a] =>
      pose proof (read_chunks_error t mm cs c a Hex) as Herr;
      destruct (read_chunks_acts t mm cs c a)
        as (progress & Hacts & _ & _ & Hprog);
      destruct (read_chunks t mm cs c a) as [[content|err] acts]
  end; cbn [fst snd] in *; [done|]. subst acts.
  split_and!; [done|done|].
  intros e [[Hin|[]]|Hin]%in_app_or; [done|].
  apply (proj1 (List.Forall_forall _ _) Hprog) in Hin.
  destruct Hin as [text Hin]. by injection Hin as ->.
Qed.

Lemma worker_chunk_error_is_silent_witness :
  let chunks :=
    [ {| ChunkContent := "half"; ChunkDone := false; ChunkError := None |};
      {| ChunkContent := ""; ChunkDone := false; ChunkError := Some "reset" |} ] in
  let w := worker (streaming chunks) (example_session ModeDivideConquer)
             "1. a 2. b" 0 "gpt" "subtask_1" in
  w.1.1 = "" /\ w.1.2 <> None /\
  forall e, In (Emit e) w.2 -> EvType e = EventTaskProgress.
Proof.
  apply (worker_chunk_error_is_silent
           (streaming
              [ {| ChunkContent := "half"; ChunkDone := false; ChunkError := None |};
                {| ChunkContent := ""; ChunkDone := false;
                   ChunkError := Some "reset" |} ])
           (example_session ModeDivideConquer) "1. a 2. b" 0 "gpt" "subtask_1"
           [ {| ChunkContent := "half"; ChunkDone := false; ChunkError := None |};
             {| ChunkContent := ""; ChunkDone := false;
                ChunkError := Some "reset" |} ]).
  - intros req. reflexivity.
  - apply Exists_cons_tl, Exists_cons_hd. discriminate.
Defined.

Lemma worker_result env s divided idx m tid :
  let w := worker env s divided idx m tid in
  w.1.2 = None <-> w.1.1 <> "".
Proof.
  unfold worker. destruct (stream env idx m _) as [chunks|err]; [|done].
  destruct (read_chunks _ _ _ _ _) as [[content|err] acts]; done.
Qed.

Lemma all_results_app results acc :
  all_results results acc
  = acc +:+ foldr (fun r rest => r +:+ nl +:+ nl +:+ rest) ""
              (List.filter (fun r => negb (String.eqb r "")) results).
Proof.
  revert acc. induction results as [|r results IH]; intros acc; simpl.
  - by rewrite StringFacts.append_nil_r.
  - destruct (String.eqb r ""); simpl; [apply IH|].
    rewrite IH. by rewrite !StringFacts.append_assoc.
Qed.

Lemma all_results_successes env s divided :
  all_results (map (fun w => w.1.1) (run_workers env s divided)) ""
  = successes (run_workers env s divided).
Proof.
  unfold successes. rewrite all_results_app. change ("" +:+ ?x) with x.
  assert (Hall : Forall (fun w : string * option error * list Action =>
                           w.1.2 = None <-> w.1.1 <> "")
                   (run_workers env s divided)).
  { unfold run_workers. apply Forall_forall. intros w Hw.
    apply elem_of_lookup_imap in Hw as (i & member & -> & _).
    apply worker_result. }
  induction Hall as [|w ws Hw _ IH]; [done|]. simpl.
  destruct (String.eqb_spec w.1.1 "") as [Hempty|Hfull].
  - rewrite bool_decide_false; [exact IH|]. intros Hnone. by apply Hw in Hnone.
  - rewrite bool_decide_true by (by apply Hw). simpl. by rewrite IH.
Qed.

Lemma calls_spawn i members : yields invoked_call (spawn i members) [].
Proof.
  revert i. induction members as [|member members IH]; intros i; simpl.
  - apply yields_ret.
  - unfold emitTask, emit. silent_step; [silent_step|]. apply IH.
Qed.

Lemma calls_report_errors i errors :
  yields invoked_call (report_errors i errors) [].
Proof.
  revert i. induction errors as [|[err|] errors IH]; intros i; simpl.
  - apply yields_ret.
  - silent_step; [silent_step|]. apply IH.
  - apply IH.
Qed.

(** What the PM is given to merge.  When the divide call answers
    [resp], divide and conquer makes two invocations, both of the PM: the
    divide request, and the merge request, whose prompt holds the results
    of exactly the workers that left no error, in roster order, each
    followed by an empty line; a worker that failed contributes nothing
    to it. *)
Theorem merge_leaves_out_failed_workers env s st resp :
  (forall aiID req, invoke env (ncalls st) aiID req = Ok resp) ->
  invoked_calls (trace (executeDivideConquer env s st).2)
  = invoked_calls (trace st)
    ++ [ (sPM s,
          {| Prompt := lines [
               "Divide this task into " +:+ pretty (length (sMembers s))
                 +:+ " independent subtasks:";
               "Task: " +:+ sTask s; "";
               "List each subtask clearly numbered." ];
             SystemPrompt := "" |});
         (sPM s,
          {| Prompt := lines [
               "Merge these subtask results into a cohesive deliverable:";
               successes (run_workers env s (Content resp)); "";
               "Original task: " +:+ sTask s ];
             SystemPrompt := "" |}) ].
Proof.
  intros Hresp. unfold executeDivideConquer. straight. rewrite Hresp.
  cbn [ncalls trace fst snd].
  match goal with
  | |- context [spawn ?i ?ms ?st0] =>
      pose proof (calls_spawn i ms st0) as Hspawn;
      destruct (spawn i ms st0) as [[] st1]
  end.
  cbn [ncalls trace fst snd] in Hspawn |- *.
  match goal with
  | |- context [report_errors ?i ?errs ?st0] =>
      pose proof (calls_report_errors i errs st0) as Hreport;
      destruct (report_errors i errs st0) as [[] st2]
  end.
  cbn [ncalls trace fst snd] in Hreport |- *.
  rewrite all_results_successes.
  destruct (invoke env (ncalls st2) (sPM s) _); cbn [ncalls trace fst snd];
    unfold invoked_calls in *;
    rewrite !omap_app, ?Hreport, !omap_app, ?Hspawn, !omap_app;
    simpl; rewrite !app_nil_r; by rewrite <- ?app_assoc.
Qed.

Lemma merge_leaves_out_failed_workers_witness :
  let s := example_session ModeDivideConquer in
  invoked_calls (trace (executeDivideConquer one_stream_down s start).2)
  = invoked_calls (trace start)
    ++ [ (sPM s,
          {| Prompt := lines [
               "Divide this task into " +:+ pretty (length (sMembers s))
                 +:+ " independent subtasks:";
               "Task: " +:+ sTask s; "";
               "List each subtask clearly numbered." ];
             SystemPrompt := "" |});
         (sPM s,
          {| Prompt := lines [
               "Merge these subtask results into a cohesive deliverable:";
               "### gpt (Subtask 1):" +:+ nl +:+ "part" +:+ nl +:+ nl; "";
               "Original task: " +:+ sTask s ];
             SystemPrompt := "" |}) ].
Proof.
  intros s.
  rewrite (merge_leaves_out_failed_workers one_stream_down s start
             {| Content := "ok"; Model := "model"; FinishReason := "stop";
                TokensUsed := 0 |});
    [|intros aiID req; reflexivity].
  vm_compute. reflexivity.
Defined.

(** Run an executor to its end, whatever its calls answer. *)
Ltac to_the_end env s :=
  straight;
  repeat match goal with
    | |- context [invoke env ?n ?a ?r] =>
        destruct (invoke env n a r); cbn [ncalls trace fst snd]
    | |- context [consult_members env s ?ms ?acc ?st0] =>
        destruct (consult_members env s ms acc st0) as [? ?];
        cbn [ncalls trace fst snd]
    | |- context [brainstorm env s ?ms ?acc ?st0] =>
        destruct (brainstorm env s ms acc st0) as [? ?];
        cbn [ncalls trace fst snd]
    | |- context [rounds env s ?rs ?acc ?st0] =>
        destruct (rounds env s rs acc st0) as [? ?];
        cbn [ncalls trace fst snd]
    | |- context [pair_turns env s ?ts ?d ?nv ?cw ?st0] =>
        destruct (pair_turns env s ts d nv cw st0) as [[?|?] ?];
        cbn [ncalls trace fst snd]
    | |- context [spawn ?i ?ms ?st0] =>
        destruct (spawn i ms st0) as [[] ?]; cbn [ncalls trace fst snd]
    | |- context [report_errors ?i ?errs ?st0] =>
        destruct (report_errors i errs st0) as [[] ?];
        cbn [ncalls trace fst snd]
    end;
  intros Harts; try discriminate Harts; injection Harts as <-; by eexists.

Lemma one_executePairProgramming env s st arts :
  (executePairProgramming env s st).1 = Ok arts ->
  exists a, arts = [a] /\ Name a = "pair_output.md".
Proof.
  unfold executePairProgramming.
  destruct (sMembers s) as [|m0 [|m1 others]]; to_the_end env s.
Qed.

Lemma one_executeConsultation env s st arts :
  (executeConsultation env s st).1 = Ok arts ->
  exists a, arts = [a] /\ Name a = "consultation_output.md".
Proof. unfold executeConsultation. to_the_end env s. Qed.

Lemma one_executeRoundRobin env s st arts :
  (executeRoundRobin env s st).1 = Ok arts ->
  exists a, arts = [a] /\ Name a = "round_robin_output.md".
Proof. unfold executeRoundRobin. to_the_end env s. Qed.

Lemma one_executeDivideConquer env s st arts :
  (executeDivideConquer env s st).1 = Ok arts ->
  exists a, arts = [a] /\ Name a = "merged_output.md".
Proof. unfold executeDivideConquer. to_the_end env s. Qed.

Lemma one_executeFreeForm env s st arts :
  (executeFreeForm env s st).1 = Ok arts ->
  exists a, arts = [a] /\ Name a = "freeform_output.md".
Proof. unfold executeFreeForm. to_the_end env s. Qed.

(** A mode that succeeds returns exactly one artifact, named after the
    mode; a mode that is none of the five is run as free form. *)
Theorem Execute_returns_one_artifact env s st arts :
  (Execute env s st).1 = Ok arts ->
  exists a, arts = [a] /\ Name a = output_name (sMode s).
Proof.
  unfold Execute, output_name. straight.
  destruct (String.eqb (sMode s) ModePairProgramming);
    [apply one_executePairProgramming|].
  destruct (String.eqb (sMode s) ModeConsultation);
    [apply one_executeConsultation|].
  destruct (String.eqb (sMode s) ModeRoundRobin);
    [apply one_executeRoundRobin|].
  destruct (String.eqb (sMode s) ModeDivideConquer);
    [apply one_executeDivideConquer|].
  destruct (String.eqb (sMode s) ModeFreeForm); apply one_executeFreeForm.
Qed.

Lemma Execute_returns_one_artifact_witness :
  let env := scripted [] "ok" in
  let s := example_session "brainstorm" in
  exists a,
    (Execute env s start).1 = Ok [a] /\ Name a = "freeform_output.md".
Proof.
  destruct (Execute_returns_one_artifact (scripted [] "ok")
              (example_session "brainstorm") start
              match (Execute (scripted [] "ok") (example_session "brainstorm")
                       start).1 with
              | Ok arts => arts
              | Err _ => []
              end) as (a & Harts & Hname).
  - vm_compute. reflexivity.
  - exists a. split; [|exact Hname]. rewrite <- Harts. vm_compute. reflexivity.
Defined.


End ModesOrder.

(** ** The parser of the PM's plan *)

Module PlanProps.
Import Strings Team Engine EngineSpec PlanParser PlanSpec.

Lemma index_of_drop s substr i :
  index_of s substr = Some i ->
  HasPrefix (drop_bytes i s) substr = true /\ (i <= String.length s)%nat.
Proof.
  revert i. induction s as [|c s IH]; intros i.
  - destruct substr; simpl; [|done]. intros [= <-]. by split.
  - cbn [index_of]. destruct (HasPrefix (String c s) substr) eqn:Hp.
    + intros [= <-]. split; [done|simpl; lia].
    + destruct (index_of s substr) as [j|]; [|done].
      intros [= <-]. destruct (IH j eq_refl) as [H1 H2].
      split; [done|simpl; lia].
Qed.

Lemma substring_drop i s :
  (i <= String.length s)%nat ->
  String.substring i (String.length s - i) s = drop_bytes i s.
Proof.
  revert s. induction i as [|i IH]; intros s Hi; simpl.
  - rewrite Nat.sub_0_r. clear Hi. induction s as [|c s IHs]; simpl; [done|].
    by rewrite IHs.
  - destruct s as [|c s]; simpl in *; [lia|]. apply IH. lia.
Qed.

Lemma length_drop_bytes i s :
  (i <= String.length s)%nat ->
  String.length (drop_bytes i s) = (String.length s - i)%nat.
Proof.
  revert s. induction i as [|i IH]; intros s Hi; simpl; [lia|].
  destruct s as [|c s]; simpl in *; [lia|]. apply IH. lia.
Qed.

(** The closing bracket found after ["[ASSIGNED:"] lies behind it. *)
Lemma bracket_after_tag rest e :
  HasPrefix rest "[ASSIGNED:" = true ->
  index_of rest "]" = Some e ->
  (10 <= e <= String.length rest)%nat.
Proof.
  intros Hp He. split; [|by apply index_of_drop in He as [_ ?]].
  revert e He.
  do 10 (destruct rest as [|? rest]; [done|];
         cbn [HasPrefix] in Hp;
         match type of Hp with
         | (if Ascii.eqb ?a ?c then _ else _) = true =>
             destruct (Ascii.eqb_spec a c); [subst|done]
         end;
         intros e He; cbn [index_of HasPrefix] in He;
         match type of He with
         | context [Ascii.eqb ?a ?c] =>
             change (Ascii.eqb a c) with false in He
         end;
         destruct e as [|e]; [by destruct (index_of rest "]")|];
         apply Nat.succ_le_mono;
         assert (index_of rest "]" = Some e)
           by (destruct (index_of rest "]"); by simplify_eq/=);
         clear He; revert e H).
  intros. lia.
Qed.

Lemma Index_Some s substr :
  Index s substr <> -1 ->
  exists i, index_of s substr = Some i /\ Index s substr = Z.of_nat i.
Proof.
  unfold Index. destruct (index_of s substr) as [i|]; [|done]. by exists i.
Qed.

Lemma slice_Some s lo hi :
  0 <= lo <= hi -> hi <= len s -> is_Some (slice s lo hi).
Proof.
  intros Hlo Hhi. unfold slice, len in *.
  destruct (Z.leb_spec 0 lo); [|lia].
  destruct (Z.leb_spec lo hi); [|lia].
  destruct (Z.leb_spec hi (Z.of_nat (String.length s))); [|lia]. by eexists.
Qed.

Lemma slice_tail s i :
  (i <= String.length s)%nat ->
  slice s (Z.of_nat i) (len s) = Some (drop_bytes i s).
Proof.
  intros Hi. unfold slice, len.
  destruct (Z.leb_spec 0 (Z.of_nat i)); [|lia].
  destruct (Z.leb_spec (Z.of_nat i) (Z.of_nat (String.length s))); [|lia].
  rewrite Z.leb_refl. simpl. rewrite Nat2Z.id.
  replace (Z.to_nat (Z.of_nat (String.length s) - Z.of_nat i))
    with (String.length s - i)%nat by lia.
  by rewrite substring_drop.
Qed.

(** What a numbered line turns into: the slices are within bounds, and
    only the description and the assignee depend on the line. *)
Lemma parse_step_shape line steps :
  exists description assignedTo,
    parse_step line steps
    = Some {| StepID := "step_" +:+ pretty (length steps + 1)%nat;
              StepDescription := description; StepAssignedTo := assignedTo;
              StepDependsOn := []; StepStatus := "pending" |}.
Proof.
  unfold parse_step.
  destruct (Z.eqb_spec (Index line "[ASSIGNED:") (-1)) as [|Hidx];
    [by eexists _, _|].
  apply Index_Some in Hidx as (i & Hi & ->). cbn [negb].
  destruct (index_of_drop _ _ _ Hi) as [Hprefix Hle].
  rewrite slice_tail by done. simpl.
  destruct (Z.eqb_spec (Index (drop_bytes i line) "]") (-1)) as [|Hend];
    [by eexists _, _|].
  apply Index_Some in Hend as (e & He & ->). cbn [negb].
  destruct (bracket_after_tag _ _ Hprefix He) as [H10 Hlen].
  rewrite length_drop_bytes in Hlen by done.
  destruct (slice_Some line (Z.of_nat i + 10) (Z.of_nat i + Z.of_nat e))
    as [assigned ->]; [lia|unfold len; lia|].
  destruct (slice_Some line 0 (Z.of_nat i)) as [description ->];
    [lia|unfold len; lia|].
  simpl. by eexists _, _.
Qed.

Lemma read_mode_allowed modeStr mode :
  mode ∈ known_modes -> read_mode modeStr mode ∈ known_modes.
Proof.
  intros Hmode. unfold read_mode.
  destruct (String.eqb modeStr "pair_programming"); [by left|].
  destruct (String.eqb modeStr "consultation"); [by right; left|].
  destruct (String.eqb modeStr "round_robin"); [by do 2 right; left|].
  destruct (String.eqb modeStr "divide_conquer"); [by do 3 right; left|].
  destruct (String.eqb modeStr "free_form"); [by do 4 right; left|done].
Qed.

Lemma numbered_snoc steps step :
  numbered steps ->
  StepID step = "step_" +:+ pretty (length steps + 1)%nat ->
  StepStatus step = "pending" -> StepDependsOn step = [] ->
  numbered (steps ++ [step]).
Proof.
  intros Hsteps Hid Hstatus Hdeps i step' Hi.
  apply lookup_app_Some in Hi as [Hi|[Hlen Hi]]; [by apply Hsteps|].
  apply list_lookup_singleton_Some in Hi as [Hi <-].
  replace i with (length steps) by lia. done.
Qed.

Lemma parse_line_inv opts plan mode line :
  exists plan' mode',
    parse_line opts (plan, mode) line = Some (plan', mode') /\
    (mode_allowed opts mode -> mode_allowed opts mode') /\
    (numbered (Steps plan) -> numbered (Steps plan')) /\
    Assignments plan' = Assignments plan.
Proof.
  unfold parse_line.
  destruct (HasPrefix (TrimSpace line) "SUMMARY:"); [by eexists _, _|].
  destruct (HasPrefix (TrimSpace line) "MODE:").
  { unfold mode_allowed.
    destruct (String.eqb (Mode opts) ""); eexists _, _;
      (split_and!; [done| |done|done]); [|done].
    apply read_mode_allowed. }
  destruct (is_step (TrimSpace line)); [|by eexists _, _].
  destruct (parse_step_shape (TrimSpace line) (Steps plan))
    as (description & assignedTo & ->).
  simpl. eexists _, _. split_and!; [done|done| |done].
  intros Hsteps. by apply numbered_snoc.
Qed.

Lemma parse_lines_inv opts lines plan mode :
  exists plan' mode',
    parse_lines opts (plan, mode) lines = Some (plan', mode') /\
    (mode_allowed opts mode -> mode_allowed opts mode') /\
    (numbered (Steps plan) -> numbered (Steps plan')) /\
    Assignments plan' = Assignments plan.
Proof.
  revert plan mode. induction lines as [|line lines IH]; intros plan mode.
  - by eexists _, _.
  - cbn [parse_lines].
    destruct (parse_line_inv opts plan mode line)
      as (plan1 & mode1 & -> & Hm1 & Hs1 & Ha1).
    cbn [mbind option_bind]. destruct (IH plan1 mode1) as (plan2 & mode2 & -> & Hm2 & Hs2 & Ha2).
    eexists _, _. split_and!; [done|auto|auto|congruence].
Qed.

(** The parser of the PM's plan cannot panic: whatever the reply, the
    slice that takes the assignee out of a step lies within the line. *)
Theorem parsePlanResponse_never_panics content opts :
  is_Some (parsePlanResponse content opts).
Proof.
  unfold parsePlanResponse.
  match goal with
  | |- is_Some (parse_lines opts (?plan, ?mode) ?ls) =>
      destruct (parse_lines_inv opts ls plan mode) as (plan' & mode' & -> & _)
  end.
  by eexists.
Qed.

(** The work mode of a plan: a mode given in the options is kept
    whatever the PM answers; without one, the mode is one of the five
    modes, whatever the PM answers. *)
Theorem parsePlanResponse_mode content opts plan mode :
  parsePlanResponse content opts = Some (plan, mode) ->
  (Mode opts <> "" -> mode = Mode opts) /\
  (Mode opts = "" -> mode ∈ known_modes).
Proof.
  unfold parsePlanResponse.
  match goal with
  | |- parse_lines opts (?plan0, ?mode0) ?ls = _ -> _ =>
      destruct (parse_lines_inv opts ls plan0 mode0)
        as (plan' & mode' & -> & Hmode & _)
  end.
  intros [= <- <-]. unfold mode_allowed in Hmode.
  destruct (String.eqb_spec (Mode opts) "") as [Hnone|Hforced]; simpl in Hmode.
  - split; [done|]. intros _. apply Hmode. by do 4 right; left.
  - split; [|done]. intros _. by apply Hmode.
Qed.

Lemma parsePlanResponse_mode_witness :
  exists plan,
    parsePlanResponse example_reply (example_options ModeConsultation)
    = Some (plan, ModeConsultation).
Proof.
  destruct (parsePlanResponse example_reply (example_options ModeConsultation))
    as [[plan mode]|] eqn:Hparse; [|vm_compute in Hparse; discriminate].
  exists plan.
  destruct (parsePlanResponse_mode _ _ _ _ Hparse) as [Hforced _].
  rewrite Hforced; [reflexivity|discriminate].
Defined.

(** The steps of a plan are numbered [step_1], [step_2], ... in the
    order of their lines, whatever numbers the lines carry; every step is
    pending and has no dependency, and the plan's assignment table stays
    empty. *)
Theorem parsePlanResponse_steps content opts plan mode :
  parsePlanResponse content opts = Some (plan, mode) ->
  numbered (Steps plan) /\ Assignments plan = ∅.
Proof.
  unfold parsePlanResponse.
  match goal with
  | |- parse_lines opts (?plan0, ?mode0) ?ls = _ -> _ =>
      destruct (parse_lines_inv opts ls plan0 mode0)
        as (plan' & mode' & -> & _ & Hsteps & Hassign)
  end.
  intros [= <- <-]. split; [|done]. apply Hsteps. by intros i step Hi.
Qed.

Lemma parsePlanResponse_steps_witness :
  exists plan mode,
    parsePlanResponse example_reply (example_options "") = Some (plan, mode) /\
    length (Steps plan) = 3%nat /\ numbered (Steps plan).
Proof.
  destruct (parsePlanResponse example_reply (example_options ""))
    as [[plan mode]|] eqn:Hparse; [|vm_compute in Hparse; discriminate].
  exists plan, mode. split; [reflexivity|]. split.
  - vm_compute in Hparse. by injection Hparse as <- <-.
  - exact (proj1 (parsePlanResponse_steps _ _ _ _ Hparse)).
Defined.

End PlanProps.

(** ** The keyboard of the Kanban board *)

Module KeysProps.
Import Team Board BoardSpec BoardProps Keys KeysSpec.

(** *** The debug log *)

Lemma log_ok_addDebugLog m t a s : log_ok (addDebugLog m t a s).
Proof.
  unfold log_ok, addDebugLog. simpl.
  destruct (Nat.ltb_spec 100 (length (debugLog m ++ [{| LogType := t; LogActor := a; Message := s |}])))
    as [Hlt|Hle]; [|done].
  rewrite length_drop. lia.
Qed.

Lemma log_ok_frame m m' : debugLog m' = debugLog m -> log_ok m -> log_ok m'.
Proof. unfold log_ok. by intros ->. Qed.

Lemma debugLog_moveCard m a col : debugLog (moveCard m a col) = debugLog m.
Proof. unfold moveCard. by destruct (heap m !! a). Qed.

Lemma debugLog_update_card m a f : debugLog (update_card m a f) = debugLog m.
Proof. unfold update_card. by destruct (heap m !! a). Qed.

Ltac log_step :=
  lazymatch goal with
  | |- log_ok (addDebugLog _ _ _ _) => apply log_ok_addDebugLog
  | |- log_ok (set_activityStatus ?m _) => apply (log_ok_frame m); [reflexivity|]
  | |- log_ok (set_header ?m _ _ _ _) => apply (log_ok_frame m); [reflexivity|]
  | |- log_ok (set_activeCardID ?m _) => apply (log_ok_frame m); [reflexivity|]
  | |- log_ok (set_complete ?m _) => apply (log_ok_frame m); [reflexivity|]
  | |- log_ok (create_card ?m _ _) => apply (log_ok_frame m); [reflexivity|]
  | |- log_ok (moveCard ?m _ _) =>
      apply (log_ok_frame m); [apply debugLog_moveCard|]
  | |- log_ok (update_card ?m _ _) =>
      apply (log_ok_frame m); [apply debugLog_update_card|]
  | |- log_ok (match ?x with _ => _ end) => destruct x
  | |- log_ok _ => assumption
  end.

Lemma log_ok_handle m e : log_ok (handleTeamEventCopy m e).
Proof.
  unfold handleTeamEventCopy.
  match goal with
  | |- context [addDebugLog m ?t ?a ?s] =>
      pose proof (log_ok_addDebugLog m t a s) as H0;
      set (m0 := addDebugLog m t a s) in *
  end.
  clearbody m0. clear m. cbv zeta.
  destruct (EvType e); repeat log_step.
Qed.

(** *** What a message can do to the board *)

Lemma mark_done_board u :
  board (mark_done u) = board u \/
  exists id, board (mark_done u) = completeUserTask (board u) id "".
Proof.
  unfold mark_done. repeat case_match; simpl; eauto.
Qed.

Lemma Update_board intSize u msg :
  board (Update intSize u msg) = board u \/
  (exists e, board (Update intSize u msg) = handleTeamEventCopy (board u) e) \/
  board (Update intSize u msg) = cycleActiveCard (board u) \/
  exists id, board (Update intSize u msg) = completeUserTask (board u) id "".
Proof.
  destruct msg as [key| | |e]; simpl; [|by left|by left|right; left; by exists e].
  unfold handlePopupKey, handleDebugLogKey, handleKey.
  repeat case_match; simpl; auto;
    destruct (mark_done_board u) as [->|[id ->]]; eauto.
Qed.

Lemma debugLog_cycleActiveCard m : debugLog (cycleActiveCard m) = debugLog m.
Proof. unfold cycleActiveCard. by repeat case_match. Qed.

Lemma debugLog_completeUserTask m id notes :
  debugLog (completeUserTask m id notes) = debugLog m.
Proof.
  unfold completeUserTask. repeat case_match; try done.
  by rewrite debugLog_moveCard, debugLog_update_card.
Qed.

Lemma log_ok_Update intSize u msg : log_ok (board u) -> log_ok (board (Update intSize u msg)).
Proof.
  intros Hlog.
  destruct (Update_board intSize u msg) as [->|[[e ->]|[->|[id ->]]]]; [done|..].
  - apply log_ok_handle.
  - by apply (log_ok_frame (board u)); [apply debugLog_cycleActiveCard|].
  - by apply (log_ok_frame (board u)); [apply debugLog_completeUserTask|].
Qed.

Lemma run_snoc intSize msgs msg u :
  run intSize (msgs ++ [msg]) u = Update intSize (run intSize msgs u) msg.
Proof. unfold run. by rewrite fold_left_app. Qed.

(** The debug log never holds more than 100 entries, whatever events and
    keys arrive. *)
Theorem debug_log_capped (intSize : Z) (msgs : list Msg) :
  (length (debugLog (board (run intSize msgs NewUI))) <= 100)%nat.
Proof.
  induction msgs as [|msg msgs IH] using rev_ind; [simpl; lia|].
  rewrite run_snoc. by apply log_ok_Update.
Qed.

(** *** The board structures *)

Lemma board_inv_cycleActiveCard m : board_inv m -> board_inv (cycleActiveCard m).
Proof.
  intros Hinv. unfold cycleActiveCard.
  repeat case_match; by apply board_inv_set_activeCardID.
Qed.

Lemma board_inv_completeUserTask m id notes :
  board_inv m -> board_inv (completeUserTask m id notes).
Proof.
  intros Hinv. unfold completeUserTask.
  destruct (cards m !! id) as [a|] eqn:Ha; [|done].
  destruct (heap m !! a) as [c|]; [|done].
  destruct (IsUserTask c); [|done].
  apply (board_inv_moveCard _ id).
  - by rewrite update_card_cards.
  - by apply board_inv_update_card.
Qed.

Lemma board_inv_Update intSize u msg :
  board_inv (board u) -> board_inv (board (Update intSize u msg)).
Proof.
  intros Hinv.
  destruct (Update_board intSize u msg) as [->|[[e ->]|[->|[id ->]]]]; [done|..].
  - by apply board_inv_handle.
  - by apply board_inv_cycleActiveCard.
  - by apply board_inv_completeUserTask.
Qed.

Lemma board_inv_run intSize msgs : board_inv (board (run intSize msgs NewUI)).
Proof.
  induction msgs as [|msg msgs IH] using rev_ind; [apply board_inv_init|].
  rewrite run_snoc. by apply board_inv_Update.
Qed.

(** Keys included, every registered card sits in exactly one column:
    marking a task done from the keyboard moves its card like an event
    does. *)
Theorem keyboard_keeps_one_column
    (intSize : Z) (msgs : list Msg) (id : string) (a : addr) :
  cards (board (run intSize msgs NewUI)) !! id = Some a ->
  exists c,
    heap (board (run intSize msgs NewUI)) !! a = Some c /\
    in_exactly (board (run intSize msgs NewUI)) a (CardColumn c).
Proof.
  intros Ha. pose proof (board_inv_run intSize msgs) as Hinv.
  destruct (inv_cards _ Hinv id a Ha) as (c & Hc & _ & Hlisted).
  exists c. split; [done|]. by apply listed_in_exactly.
Qed.

Lemma keyboard_keeps_one_column_witness :
  exists c,
    heap (board (run 64 [TeamEventMsg (user_task "t1");
                      TeamEventMsg (task_created "t2" []);
                      TeamEventMsg (task_event EventTaskStarted "t2");
                      KeyMsg "d"] NewUI)) !! 0%nat = Some c /\
    in_exactly (board (run 64 [TeamEventMsg (user_task "t1");
                            TeamEventMsg (task_created "t2" []);
                            TeamEventMsg (task_event EventTaskStarted "t2");
                            KeyMsg "d"] NewUI)) 0%nat (CardColumn c).
Proof.
  apply (keyboard_keeps_one_column 64
           [TeamEventMsg (user_task "t1");
            TeamEventMsg (task_created "t2" []);
            TeamEventMsg (task_event EventTaskStarted "t2");
            KeyMsg "d"] "t1" 0%nat).
  vm_compute. reflexivity.
Defined.

(** *** The cursor *)

Lemma cursor_ok_Update intSize u msg :
  cursor_ok u -> cursor_ok (Update intSize u msg).
Proof.
  unfold cursor_ok. intros (Hcol & Hrow).
  destruct msg as [key| | |e]; simpl; [|done..].
  unfold handlePopupKey, handleDebugLogKey, handleKey, mark_done.
  repeat case_match; simpl; try done;
    repeat match goal with
      | H : (_ <? _) = true |- _ => apply Z.ltb_lt in H
      | H : (_ <? _) = false |- _ => apply Z.ltb_ge in H
      | H : (_ && _) = true |- _ => apply andb_true_iff in H as [? ?]
      end; lia.
Qed.

Lemma wrap_int_small intSize z :
  0 < intSize -> - 2 ^ (intSize - 1) <= z < 2 ^ (intSize - 1) ->
  wrap_int intSize z = z.
Proof.
  intros Hsize Hz. unfold wrap_int.
  assert (Hpow : 2 ^ intSize = 2 * 2 ^ (intSize - 1)).
  { rewrite <- Z.pow_succ_r by lia. f_equal. lia. }
  rewrite Z.mod_small by lia. lia.
Qed.

(** The popup is scrolled by at most one line per message, as long as
    the count of messages stays within [int]. *)
Lemma popupScroll_bounded intSize msgs :
  0 < intSize -> Z.of_nat (length msgs) < 2 ^ (intSize - 1) ->
  0 <= popupScroll (run intSize msgs NewUI) <= Z.of_nat (length msgs).
Proof.
  intros Hsize. induction msgs as [|msg msgs IH] using rev_ind; intros Hlen.
  - simpl. lia.
  - rewrite run_snoc. rewrite length_app in *. simpl in *.
    specialize (IH ltac:(lia)).
    set (u := run intSize msgs NewUI) in *.
    assert (Hstep : popupScroll (Update intSize u msg) = popupScroll u \/
                    popupScroll (Update intSize u msg) = 0 \/
                    popupScroll (Update intSize u msg)
                    = wrap_int intSize (popupScroll u + 1) \/
                    0 < popupScroll u /\
                    popupScroll (Update intSize u msg) = popupScroll u - 1).
    { destruct msg as [key| | |e]; simpl; [|by left..].
      unfold handlePopupKey, handleDebugLogKey, handleKey, mark_done.
      repeat case_match; simpl; auto.
      right. right. right. split; [by apply Z.ltb_lt|done]. }
    destruct Hstep as [->|[->|[->|[Hpos ->]]]]; [lia|lia| |lia].
    rewrite wrap_int_small by lia. lia.
Qed.

(** The cursor never leaves the four columns and the selected row never
    goes negative, whatever keys and events arrive; the scroll position
    of the popup is not negative either as long as fewer messages have
    arrived than the largest [int], after which [m.popupScroll++] can
    wrap around. *)
Theorem cursor_stays_on_board (intSize : Z) (msgs : list Msg) :
  0 <= selectedCol (run intSize msgs NewUI) <= 3 /\
  0 <= selectedRow (run intSize msgs NewUI) /\
  (0 < intSize -> Z.of_nat (length msgs) < 2 ^ (intSize - 1) ->
   0 <= popupScroll (run intSize msgs NewUI)).
Proof.
  assert (Hok : cursor_ok (run intSize msgs NewUI)).
  { induction msgs as [|msg msgs IH] using rev_ind.
    - unfold cursor_ok. simpl. lia.
    - rewrite run_snoc. by apply cursor_ok_Update. }
  destruct Hok as [Hcol Hrow]. split; [exact Hcol|]. split; [exact Hrow|].
  intros Hsize Hlen. by apply popupScroll_bounded.
Qed.

Lemma cursor_stays_on_board_witness :
  0 <= popupScroll (run 32 [TeamEventMsg (user_task "t1"); KeyMsg "enter";
                            KeyMsg "j"; KeyMsg "j"] NewUI).
Proof.
  apply (cursor_stays_on_board 32 [TeamEventMsg (user_task "t1");
                                   KeyMsg "enter"; KeyMsg "j"; KeyMsg "j"]).
  - lia.
  - simpl. lia.
Defined.

(** While the popup, the help or the debug log is open, a key only acts
    on that overlay: it does not quit, pause, move the cursor or touch
    the board. *)
Theorem overlay_swallows_keys intSize u key :
  overlay u = true ->
  let u' := Update intSize u (KeyMsg key) in
  board u' = board u /\ quitting u' = quitting u /\ paused u' = paused u /\
  selectedCol u' = selectedCol u /\ selectedRow u' = selectedRow u.
Proof.
  unfold overlay. intros Hopen. simpl.
  destruct (showPopup u); [|destruct (showHelp u)];
    [| |destruct (showDebugLog u); [|done]];
    unfold handlePopupKey, handleDebugLogKey; repeat case_match; done.
Qed.

Lemma overlay_swallows_keys_witness :
  let u := set_showPopup example_ui true in
  board (Update 64 u (KeyMsg "q")) = board u /\
  quitting (Update 64 u (KeyMsg "q")) = quitting u /\
  paused (Update 64 u (KeyMsg "q")) = paused u /\
  selectedCol (Update 64 u (KeyMsg "q")) = selectedCol u /\
  selectedRow (Update 64 u (KeyMsg "q")) = selectedRow u.
Proof.
  intros u. apply (overlay_swallows_keys 64 u "q"). reflexivity.
Defined.

(** *** The selected card *)

Lemma first_card_head m l :
  (forall a, a ∈ l -> is_Some (heap m !! a)) -> first_card m l = head l.
Proof.
  destruct l as [|a l]; [done|]. intros Hall. simpl. unfold not_nil.
  rewrite bool_decide_true; [done|]. apply Hall. by left.
Qed.

Lemma columns_at_listed m c a :
  board_inv m -> a ∈ columns_at m c -> is_Some (heap m !! a).
Proof.
  intros Hinv. unfold columns_at.
  repeat case_match; try (by intros ?%elem_of_nil);
    intros Ha; destruct (inv_listed _ Hinv _ _ Ha) as (card & -> & _);
    by eexists.
Qed.

(** Whenever the selected column holds a card, a card of that column is
    selected: the one in the selected row, or the first of the column
    when the row lies outside it. *)
Theorem selected_card_falls_back u :
  board_inv (board u) ->
  columns_at (board u) (selectedCol u) <> [] ->
  exists a,
    getSelectedCard u = Some a /\
    a ∈ columns_at (board u) (selectedCol u) /\
    (columns_at (board u) (selectedCol u) !! Z.to_nat (selectedRow u) = Some a
     \/ ~ (0 <= selectedRow u
            < Z.of_nat (length (columns_at (board u) (selectedCol u))))
        /\ head (columns_at (board u) (selectedCol u)) = Some a).
Proof.
  intros Hinv Hne. unfold getSelectedCard.
  pose proof (fun a => columns_at_listed (board u) (selectedCol u) a Hinv)
    as Hall.
  set (l := columns_at (board u) (selectedCol u)) in *.
  destruct l as [|a0 l0] eqn:Hl; [done|]. rewrite <- Hl in *.
  replace (length l =? 0)%nat with false
    by (symmetry; apply Nat.eqb_neq; rewrite Hl; simpl; lia).
  rewrite (first_card_head _ _ Hall).
  assert (Hhead : head l = Some a0) by (by rewrite Hl).
  assert (Hin : a0 ∈ l) by (rewrite Hl; by left).
  clear Hl.
  destruct (Z.leb_spec 0 (selectedRow u)) as [H0|H0];
    destruct (Z.ltb_spec (selectedRow u) (Z.of_nat (length l))) as [H1|H1];
    simpl.
  2-4: exists a0; (split_and!; [done|done|right]); (split; [lia|done]).
  destruct (lookup_lt_is_Some_2 l (Z.to_nat (selectedRow u)) ltac:(lia))
    as [a Ha].
  rewrite Ha. unfold not_nil.
  rewrite bool_decide_true by (apply Hall; by eapply list_elem_of_lookup_2).
  exists a. split_and!; [done|by eapply list_elem_of_lookup_2|by left].
Qed.

Lemma selected_card_falls_back_witness :
  let u := set_selectedRow example_ui 5 in
  exists a,
    getSelectedCard u = Some a /\
    a ∈ columns_at (board u) (selectedCol u) /\
    (columns_at (board u) (selectedCol u) !! Z.to_nat (selectedRow u) = Some a
     \/ ~ (0 <= selectedRow u
            < Z.of_nat (length (columns_at (board u) (selectedCol u))))
        /\ head (columns_at (board u) (selectedCol u)) = Some a).
Proof.
  intros u. apply (selected_card_falls_back u).
  - change (board u) with (board example_ui). unfold example_ui.
    apply board_inv_run.
  - vm_compute. discriminate.
Defined.

(** *** Marking a task done *)

Lemma completeUserTask_user m id a c :
  board_inv m -> cards m !! id = Some a -> heap m !! a = Some c ->
  IsUserTask c = true ->
  column_of (completeUserTask m id "") id = Some ColumnDone /\
  exists c', card_of (completeUserTask m id "") id = Some c' /\ Done c' = true.
Proof.
  intros Hinv Ha Hc Huser. unfold completeUserTask. rewrite Ha, Hc, Huser.
  assert (Hlt : (a < length (heap m))%nat) by (by eapply lookup_lt_Some).
  assert (Hc' : heap (update_card m a (fun c => set_Done c true)) !! a
                = Some (set_Done c true)).
  { unfold update_card. rewrite Hc. simpl. by rewrite list_lookup_insert_eq. }
  split.
  - apply column_of_moveCard_same; [by rewrite update_card_cards|by eexists].
  - unfold card_of. rewrite moveCard_cards, update_card_cards, Ha.
    unfold moveCard. rewrite Hc'. simpl.
    rewrite list_lookup_insert_eq; [by eexists|].
    unfold update_card. rewrite Hc. simpl. by rewrite length_insert.
Qed.

(** The key [d] on a selected card that is registered under its ID: a
    task of the user goes to Done and is marked done; a task of an AI is
    left where it is, and nothing else changes. *)
Theorem quick_done_moves_user_task_only intSize u a c :
  overlay u = false ->
  board_inv (board u) ->
  getSelectedCard u = Some a ->
  heap (board u) !! a = Some c ->
  cards (board u) !! ID c = Some a ->
  let u' := Update intSize u (KeyMsg "d") in
  if IsUserTask c
  then column_of (board u') (ID c) = Some ColumnDone /\
       exists c', card_of (board u') (ID c) = Some c' /\ Done c' = true
  else u' = u.
Proof.
  unfold overlay. intros Hclosed Hinv Hsel Hc Ha.
  apply orb_false_iff in Hclosed as [[Hpopup Hhelp]%orb_false_iff Hlog].
  cbn [Update]. rewrite Hpopup, Hhelp, Hlog.
  change (handleKey u "d") with (mark_done u).
  unfold mark_done. rewrite Hsel, Hc.
  destruct (IsUserTask c) eqn:Huser; [|done].
  cbn [board set_model]. by eapply completeUserTask_user.
Qed.

Lemma quick_done_moves_user_task_only_witness :
  let c := set_created (NewKanbanCard "t1" "t1" "user") "t1" [] true true in
  let u' := Update 64 example_ui (KeyMsg "d") in
  if IsUserTask c
  then column_of (board u') (ID c) = Some ColumnDone /\
       exists c', card_of (board u') (ID c) = Some c' /\ Done c' = true
  else u' = example_ui.
Proof.
  intros c. apply (quick_done_moves_user_task_only 64 example_ui 0%nat c).
  - reflexivity.
  - unfold example_ui. apply board_inv_run.
  - vm_compute. reflexivity.
  - vm_compute. reflexivity.
  - vm_compute. reflexivity.
Defined.

(** *** Cycling the active card *)

Lemma find_active_range m id l i :
  find_active m id l i = -1 \/
  i <= find_active m id l i < i + Z.of_nat (length l).
Proof.
  revert i. induction l as [|a l IH]; intros i; simpl; [by left|].
  destruct (heap m !! a) as [c|].
  - destruct (String.eqb (ID c) id); [right; lia|].
    destruct (IH (i + 1)) as [->|?]; [by left|right; lia].
  - destruct (IH (i + 1)) as [->|?]; [by left|right; lia].
Qed.

(** The key [tab]: with no card in progress the active card is cleared;
    otherwise the card after the active one in the In Progress column
    becomes active, the first card following the last, and the first
    card also when none of the column was active. *)
Theorem tab_selects_next_in_progress m :
  board_inv m ->
  let l := columns m ColumnInProgress in
  let i := find_active m (activeCardID m) l 0 in
  (l = [] -> activeCardID (cycleActiveCard m) = "") /\
  (l <> [] ->
   exists a c,
     l !! Z.to_nat ((i + 1) mod Z.of_nat (length l)) = Some a /\
     heap m !! a = Some c /\
     activeCardID (cycleActiveCard m) = ID c).
Proof.
  intros Hinv l i. unfold cycleActiveCard. fold l. fold i. split.
  - by intros ->.
  - intros Hne.
    assert (Hlen : (0 < length l)%nat) by (destruct l; [done|simpl; lia]).
    replace (length l =? 0)%nat with false
      by (symmetry; apply Nat.eqb_neq; lia).
    assert (Hi : -1 <= i < Z.of_nat (length l)).
    { destruct (find_active_range m (activeCardID m) l 0) as [H|H];
        fold i in H; lia. }
    rewrite Z.rem_mod_nonneg by lia.
    pose proof (Z.mod_pos_bound (i + 1) (Z.of_nat (length l)) ltac:(lia)) as Hn.
    set (n := (i + 1) mod Z.of_nat (length l)) in *.
    destruct (Z.leb_spec 0 n); [|lia].
    destruct (Z.ltb_spec n (Z.of_nat (length l))); [|lia]. simpl.
    destruct (lookup_lt_is_Some_2 l (Z.to_nat n) ltac:(lia)) as [a Ha].
    rewrite Ha.
    destruct (inv_listed _ Hinv ColumnInProgress a) as (c & Hc & _);
      [by eapply list_elem_of_lookup_2|].
    rewrite Hc. by exists a, c.
Qed.

Lemma tab_selects_next_in_progress_witness :
  exists a c,
    columns (board example_ui) ColumnInProgress !! 0%nat = Some a /\
    heap (board example_ui) !! a = Some c /\
    activeCardID (cycleActiveCard (board example_ui)) = ID c.
Proof.
  destruct (tab_selects_next_in_progress (board example_ui)) as [_ Hnext].
  - unfold example_ui. apply board_inv_run.
  - destruct Hnext as (a & c & Ha & Hc & Hactive); [vm_compute; discriminate|].
    exists a, c. split_and!; [|exact Hc|exact Hactive].
    vm_compute in Ha. vm_compute. exact Ha.
Defined.

(** *** Events that name no card *)

(** An event that names a task the board has no card for, and is not
    one of the two creating events, changes no card, no registration and
    no column. *)
Theorem unknown_task_changes_no_card m0 e :
  cards m0 !! TaskID e = None ->
  EvType e <> EventTaskCreated -> EvType e <> EventUserTaskCreated ->
  (forall err taskID message,
     Data e = ErrorData err taskID message -> cards m0 !! taskID = None) ->
  heap (handleTeamEventCopy m0 e) = heap m0 /\
  cards (handleTeamEventCopy m0 e) = cards m0 /\
  columns (handleTeamEventCopy m0 e) = columns m0.
Proof.
  intros Hid Hcreated Huser Herr. unfold handleTeamEventCopy.
  change (cards (addDebugLog m0 ?t ?a ?s)) with (cards m0).
  cbv zeta.
  destruct (EvType e); try done; cbn [cards addDebugLog set_debugLog];
    rewrite ?Hid; try done.
  - by destruct (Data e).
  - by destruct (Data e).
  - by destruct (Data e).
  - destruct (Data e) as [| | | | | | err taskID message | | ]; try done.
    rewrite (Herr err taskID message eq_refl). done.
Qed.

Lemma unknown_task_changes_no_card_witness :
  let m := board example_ui in
  let e := task_event EventPMApproved "t9" in
  heap (handleTeamEventCopy m e) = heap m /\
  cards (handleTeamEventCopy m e) = cards m /\
  columns (handleTeamEventCopy m e) = columns m.
Proof.
  intros m e. apply (unknown_task_changes_no_card m e).
  - vm_compute. reflexivity.
  - discriminate.
  - discriminate.
  - intros err taskID message. discriminate.
Defined.

(** *** Card text *)


End KeysProps.

(** ** Checkpoints and milestones *)

Module CheckpointProps.
Import Team Checkpoint Checkpoints.

Lemma pending_from_filter l pending :
  pending_from l pending
  = pending ++ List.filter (fun c => negb (Approved c)) l.
Proof.
  revert pending. induction l as [|c l IH]; intros pending; simpl.
  - by rewrite app_nil_r.
  - destruct (Approved c); simpl; rewrite IH; [done|by rewrite <- app_assoc].
Qed.

(** A checkpoint that is added shows up among the pending ones, behind
    those already there, unless it is approved; a new checkpoint is never
    approved, one that was approved and then rejected is pending again
    and keeps the time of its approval. *)
Theorem added_checkpoint_pending m c :
  GetPending (Add m c) = GetPending m ++ (if Approved c then [] else [c]) /\
  (forall idTime createdAt type description phase,
     Approved (NewCheckpoint idTime createdAt type description phase) = false) /\
  (forall now notes notes',
     Approved (Reject (Approve c now notes) notes') = false /\
     ApprovedAt (Reject (Approve c now notes) notes') = Some now).
Proof.
  split; [|done]. unfold GetPending, Add. simpl.
  rewrite !pending_from_filter. simpl. rewrite List.filter_app. simpl.
  by destruct (Approved c).
Qed.

Lemma collect_filter keep l acc :
  collect keep l acc = acc ++ List.filter keep l.
Proof.
  revert acc. induction l as [|m l IH]; intros acc; simpl.
  - by rewrite app_nil_r.
  - destruct (keep m); rewrite IH; [by rewrite <- app_assoc|done].
Qed.

(** The completed and the pending milestones split the tracked ones:
    every milestone is in exactly one of the two lists, which keep the
    order of the tracker. *)
Theorem milestones_partition (t : MilestoneTracker) :
  GetCompleted t ++ tracker_GetPending t ≡ₚ t /\
  sublist (GetCompleted t) t /\ sublist (tracker_GetPending t) t /\
  Forall (fun m => Completed m = true) (GetCompleted t) /\
  Forall (fun m => Completed m = false) (tracker_GetPending t).
Proof.
  unfold GetCompleted, tracker_GetPending. rewrite !collect_filter. simpl.
  induction t as [|m t (IHp & IHc & IHn & IHt & IHf)]; simpl.
  - split_and!; constructor.
  - destruct (Completed m) eqn:Hm; simpl.
    + split_and!; [by constructor|by constructor|by constructor
                  |by constructor|done].
    + split_and!; [|by constructor|by constructor|done|by constructor].
      rewrite <- Permutation_middle. by constructor.
Qed.

End CheckpointProps.

(** ** [Runner.Run]: the errors it can return *)

Module RunProps.
Import Team Engine EngineSpec EngineProps.

(** A run that fails fails in planning, in creating the project
    directory, in execution or in review, and wraps the cause it met: the
    three other errors [Run] can build, for a failed PM selection, a plan
    that is not approved and a failed delivery, are never returned. *)
Theorem Run_returns_four_errors env opts err :
  (Run env opts start).1 = Some err ->
  exists cause,
    err = "planning failed: " +:+ cause \/
    err = "creating project directory: " +:+ cause \/
    err = "execution failed: " +:+ cause \/
    err = "review failed: " +:+ cause.
Proof.
  destruct (run_cases env opts) as (stage & -> & _).
  destruct stage as [cause|cause|cause|cause|]; simpl; [..|done];
    intros [= <-]; exists cause; auto.
Qed.

Lemma Run_returns_four_errors_witness :
  exists cause,
    "planning failed: boom" = "planning failed: " +:+ cause \/
    "planning failed: boom" = "creating project directory: " +:+ cause \/
    "planning failed: boom" = "execution failed: " +:+ cause \/
    "planning failed: boom" = "review failed: " +:+ cause.
Proof.
  apply (Run_returns_four_errors (scripted [0%nat] "ok")
           (example_options ModeRoundRobin) "planning failed: boom").
  vm_compute. reflexivity.
Defined.

End RunProps.
